(** * poem-frankensteiner: the cut-up pipeline, embedded and verified

    The repository is a family of Python scripts (chop.py, chop2.py,
    chop2.1.py, chop2.2.py, chop2.3.py, chop2.3.1.py,
    create_broken_sentences.py, sentence_breaker_tight.py) that clean a
    text, keep a random sample of its words and re-lineate the sample.

    Modelling choices, fixed once for the whole development:
    - a Python [str] is the list of its code points, and a code point is
      an [ascii] read as Latin-1 (U+0000..U+00FF);
    - a Python [float] is an exact rational ([Q]); [int(x)] truncates
      toward zero;
    - the ambient [random] generator is an explicit stream of raw draws
      that every drawing function consumes and returns;
    - an uncaught Python exception is the [None] of an [option]. *)

From Stdlib Require Import Ascii String Bool Arith NArith ZArith QArith Qround Lia Lqa.
From Stdlib Require Import List Permutation.
Import ListNotations.

Open Scope list_scope.
Open Scope char_scope.

(** ** Python strings *)

Definition str := list ascii.

(** A string literal, as the list of its characters. *)
Definition lit (s : string) : str := list_ascii_of_string s.

Module PyStr.

Definition code (c : ascii) : N := N_of_ascii c.

Definition in_range (lo hi : N) (c : ascii) : bool :=
  ((lo <=? code c) && (code c <=? hi))%N.

(** [[a-z]], [[0-9]] and [[aeiouy]] of the regular expressions. *)
Definition is_az (c : ascii) : bool := in_range 97 122 c.
Definition is_digit (c : ascii) : bool := in_range 48 57 c.
Definition is_vowel (c : ascii) : bool :=
  match c with
  | "a" | "e" | "i" | "o" | "u" | "y" => true
  | _ => false
  end.

(** [\s], [str.isspace], and what [strip] and [split] cut at: tab to
    carriage return, the four separators U+001C..U+001F, the space,
    NEL (U+0085) and the no-break space (U+00A0). *)
Definition is_space (c : ascii) : bool :=
  in_range 9 13 c || in_range 28 32 c
  || (code c =? 133)%N || (code c =? 160)%N.

(** [str.lower] on one code point: A..Z, and the Latin-1 capitals
    U+00C0..U+00DE without the multiplication sign U+00D7. *)
Definition lower_char (c : ascii) : ascii :=
  if in_range 65 90 c || (in_range 192 222 c && negb (code c =? 215)%N)
  then ascii_of_N (code c + 32)
  else c.

Definition lower (s : str) : str := map lower_char s.

(** [re.sub(r'[^...]', '', s)] for a character class given by [keep]. *)
Definition re_sub_delete (keep : ascii -> bool) (s : str) : str :=
  filter keep s.

(** [re.sub(r'\s+', ' ', s)]: every maximal run of whitespace becomes
    one space. [in_run] says that the previous character was part of a
    run already replaced. *)
Fixpoint collapse_from (in_run : bool) (s : str) : str :=
  match s with
  | [] => []
  | c :: s' =>
      if is_space c
      then if in_run then collapse_from true s'
           else " " :: collapse_from true s'
      else c :: collapse_from false s'
  end.

Definition re_sub_collapse (s : str) : str := collapse_from false s.

Fixpoint lstrip (s : str) : str :=
  match s with
  | [] => []
  | c :: s' => if is_space c then lstrip s' else s
  end.

Fixpoint rstrip (s : str) : str :=
  match s with
  | [] => []
  | c :: s' =>
      match rstrip s' with
      | [] => if is_space c then [] else [c]
      | r => c :: r
      end
  end.

Definition strip (s : str) : str := rstrip (lstrip s).

(** The maximal runs of characters satisfying [p], in order; [cur] is
    the run being read. *)
Fixpoint runs_from (p : ascii -> bool) (cur : str) (s : str) : list str :=
  match s with
  | [] => match cur with [] => [] | _ => [cur] end
  | c :: s' =>
      if p c
      then runs_from p (cur ++ [c]) s'
      else match cur with
           | [] => runs_from p [] s'
           | _ => cur :: runs_from p [] s'
           end
  end.

(** [s.split()]: the maximal runs of non-whitespace. *)
Definition split (s : str) : list str :=
  runs_from (fun c => negb (is_space c)) [] s.

(** [re.findall(r'[aeiouy]+', s)]: the maximal runs of vowels. *)
Definition re_findall_vowels (s : str) : list str :=
  runs_from is_vowel [] s.

(** [re.search(r'[a-z]', s)], as a truth value. *)
Definition re_search_az (s : str) : bool := existsb is_az s.

(** [re.search(r'[^aeiouy]le$', s)], as a truth value; [$] matches at
    the end of the string and before a newline that ends it. [r] is
    the string read backwards from where [$] matched. *)
Definition consonant_le_before (r : str) : bool :=
  match r with
  | e :: l :: c :: _ => Ascii.eqb e "e" && Ascii.eqb l "l" && negb (is_vowel c)
  | _ => false
  end.

Definition re_search_consonant_le (s : str) : bool :=
  match rev s with
  | x :: r => consonant_le_before (x :: r)
              || (Ascii.eqb x "010" && consonant_le_before r)
  | [] => false
  end.

(** [sep.join(parts)]. *)
Fixpoint join (sep : str) (parts : list str) : str :=
  match parts with
  | [] => []
  | [p] => p
  | p :: rest => p ++ sep ++ join sep rest
  end.

Definition endswith (s suffix : str) : bool :=
  let n := length s in
  let m := length suffix in
  (m <=? n)%nat
  && if list_eq_dec ascii_dec (skipn (n - m) s) suffix then true else false.

(** [s[:-1]]. *)
Definition drop_last (s : str) : str := removelast s.

End PyStr.

Import PyStr.

(** The separators of the two [join]s. *)
Definition space : str := [" "].
Definition newline : str := ["010"].

(** ** Python numbers *)

(** [int(x)] of a float: truncation toward zero. *)
Definition py_int (x : Q) : Z := Z.quot (Qnum x) (Zpos (Qden x)).

Definition Qltb (a b : Q) : bool := negb (Qle_bool b a).

(** [max(a, b)] and [min(a, b)] of two floats: the first argument unless
    the second is strictly beyond it. *)
Definition fmax (a b : Q) : Q := if Qltb a b then b else a.
Definition fmin (a b : Q) : Q := if Qltb b a then b else a.

(** ** The [random] module *)

Module PyRandom.

(** The generator: the stream of its raw draws still to come. *)
Definition rng := nat -> N.

Definition advance (g : rng) : rng := fun i => g (S i).

(** [_randbelow(n)] for [n > 0]. *)
Definition randbelow (n : Z) (g : rng) : Z * rng :=
  ((Z.of_N (g O) mod n)%Z, advance g).

(** [random.randint(a, b)] for [a <= b]. *)
Definition randint (a b : Z) (g : rng) : Z * rng :=
  let (r, g') := randbelow (b - a + 1) g in ((a + r)%Z, g').

(** [random.random()]: 53 random bits scaled into [0, 1). *)
Definition random (g : rng) : Q * rng :=
  (Z.of_N (g O mod 2 ^ 53) # 2 ^ 53, advance g).

(** [random.uniform(a, b)] is [a + (b - a) * random()]. *)
Definition uniform (a b : Q) (g : rng) : Q * rng :=
  let (r, g') := random g in ((a + (b - a) * r)%Q, g').

(** [pool[j] = v]. *)
Fixpoint set_nth {A} (j : nat) (v : A) (pool : list A) : list A :=
  match pool, j with
  | [], _ => []
  | _ :: t, O => v :: t
  | x :: t, S j' => x :: set_nth j' v t
  end.

(** The selection loop of [random.sample]: draw a position of the
    pool, take the element there, move the pool's last element into
    the hole and shorten the pool by one. *)
Fixpoint sample_loop {A} (k : nat) (pool : list A) (g : rng) : list A * rng :=
  match k with
  | O => ([], g)
  | S k' =>
      match pool with
      | [] => ([], g)
      | x :: _ =>
          let (j, g1) := randbelow (Z.of_nat (length pool)) g in
          let j := Z.to_nat j in
          let pool' := removelast (set_nth j (last pool x) pool) in
          let (rest, g2) := sample_loop k' pool' g1 in
          (nth j pool x :: rest, g2)
      end
  end.

(** [random.sample(population, k)]; [None] is its [ValueError]
    ("Sample larger than population or is negative"). *)
Definition sample {A} (population : list A) (k : Z) (g : rng)
  : option (list A * rng) :=
  if ((0 <=? k) && (k <=? Z.of_nat (length population)))%Z
  then Some (sample_loop (Z.to_nat k) population g)
  else None.

End PyRandom.

Import PyRandom.

(** ** The Syllable Estimator *)

(** [estimate_syllables], the same text in chop2.1.py, chop2.2.py,
    chop2.3.py, create_broken_sentences.py and sentence_breaker_tight.py
    (spelled [estimate_syllABLES] in chop2.3.1.py). *)
Definition estimate_syllables (word : str) : Z :=
  let word := strip (lower word) in
  if match word with [] => true | _ => false end || negb (re_search_az word)
  then 0%Z
  else if (length word <=? 3)%nat
  then 1%Z
  else
    let word :=
      if endswith word (lit "e")
      then if negb (endswith word (lit "le") && re_search_consonant_le word)
           then drop_last word
           else word
      else word in
    let vowel_groups := re_findall_vowels word in
    let count := Z.of_nat (length vowel_groups) in
    if (count =? 0)%Z then 1%Z else count.

(** ** The line loops *)

(** The [while i < len(sampled_words)] loop of chop.py and chop2.py:
    each round draws a line length, appends the slice [i : i + length]
    and moves [i] on. [fuel] bounds the number of rounds. *)
Fixpoint slice_loop (fuel : nat) (min_words_per_line max_words_per_line : Z)
    (sampled_words : list str) (i : nat) (lineated_text_lines : list str)
    (g : rng) : option (list str * rng) :=
  match fuel with
  | O => None
  | S fuel' =>
      if (i <? length sampled_words)%nat
      then
        let (line_length, g') := randint min_words_per_line max_words_per_line g in
        let line_length := Z.to_nat line_length in
        let line_words := firstn line_length (skipn i sampled_words) in
        slice_loop fuel' min_words_per_line max_words_per_line sampled_words
          (i + line_length) (lineated_text_lines ++ [join space line_words]) g'
      else Some (lineated_text_lines, g)
  end.

(** The state of the [for word in sampled_words] loops. *)
Record line_state := {
  all_lines : list str;
  current_line_words : list str;
  current_line_syllables : Z
}.

Definition line_start : line_state :=
  {| all_lines := []; current_line_words := []; current_line_syllables := 0 |}.

(** [if current_line_words: all_lines.append(' '.join(current_line_words))]. *)
Definition flush_lines (st : line_state) : list str :=
  match current_line_words st with
  | [] => all_lines st
  | ws => all_lines st ++ [join space ws]
  end.

(** ** [str.replace] and [os.path] *)

Module PyPath.

Definition startswith (s prefix : str) : bool :=
  if list_eq_dec ascii_dec (firstn (length prefix) s) prefix then true else false.

(** [s.replace(old, new)] for a non-empty [old]: left to right, every
    occurrence that does not overlap an earlier one. [skip] counts the
    characters of an occurrence still to pass over. *)
Fixpoint replace_from (old new : str) (skip : nat) (s : str) : str :=
  match s with
  | [] => []
  | c :: s' =>
      match skip with
      | S k => replace_from old new k s'
      | O =>
          if startswith s old
          then new ++ replace_from old new (length old - 1) s'
          else c :: replace_from old new 0 s'
      end
  end.

Definition replace (s old new : str) : str := replace_from old new 0 s.

(** [os.path.basename(p)]: what follows the last slash. *)
Fixpoint basename_from (cur : str) (p : str) : str :=
  match p with
  | [] => cur
  | c :: p' =>
      if Ascii.eqb c "/" then basename_from [] p' else basename_from (cur ++ [c]) p'
  end.

Definition basename (p : str) : str := basename_from [] p.

(** The path read backwards up to its last dot: what stands before the
    dot, backwards; nothing when a slash comes first or there is no
    dot. *)
Fixpoint before_last_dot (r : str) : option str :=
  match r with
  | [] => None
  | c :: r' =>
      if Ascii.eqb c "." then Some r'
      else if Ascii.eqb c "/" then None
      else before_last_dot r'
  end.

(** The file name, backwards, at the head of a path read backwards. *)
Fixpoint name_part (r : str) : str :=
  match r with
  | [] => []
  | c :: r' => if Ascii.eqb c "/" then [] else c :: name_part r'
  end.

(** [os.path.splitext(p)[0]]: the path without its extension; a name
    made of dots only before its last dot has no extension. *)
Definition splitext_root (p : str) : str :=
  match before_last_dot (rev p) with
  | Some before =>
      if existsb (fun c => negb (Ascii.eqb c ".")) (name_part before)
      then rev before
      else p
  | None => p
  end.

End PyPath.

(** ** chop.py *)

Module Chop.

Definition randomly_reduce_and_lineate_text (text : str) (percentage_to_keep : Q)
    (g : rng) : option (str * rng) :=
  let words := split text in
  let k := py_int (inject_Z (Z.of_nat (length words)) * percentage_to_keep) in
  match sample words k g with
  | None => None
  | Some (sampled_words, g) =>
      match slice_loop (S (length sampled_words)) 3 7 sampled_words 0 [] g with
      | None => None
      | Some (lineated_text_lines, g) =>
          Some (join newline lineated_text_lines, g)
      end
  end.

End Chop.

(** The sample size of every script after chop.py:
    [k = int(len(words) * percentage_to_keep)], raised to 1 when it is 0
    and there are words. *)
Definition keep_count (words : list str) (percentage_to_keep : Q) : Z :=
  let k := py_int (inject_Z (Z.of_nat (length words)) * percentage_to_keep) in
  if ((k =? 0) && (0 <? Z.of_nat (length words)))%Z then 1%Z else k.

(** ** chop2.py *)

Module Chop2.

Definition randomly_reduce_and_lineate_text (text : str) (percentage_to_keep : Q)
    (g : rng) : option (str * rng) :=
  let words := split text in
  match words with
  | [] => Some (lit "(The source file was empty.)", g)
  | _ =>
      let k := keep_count words percentage_to_keep in
      match sample words k g with
      | None => None
      | Some (sampled_words, g) =>
          match slice_loop (S (length sampled_words)) 3 7 sampled_words 0 [] g with
          | None => None
          | Some (lineated_text_lines, g) =>
              Some (join newline lineated_text_lines, g)
          end
      end
  end.

End Chop2.

(** ** chop2.2.py (chop2.3.py and chop2.3.1.py repeat it) *)

Module Chop22.

Definition TARGET_SYLLABLES_PER_LINE : Z := 10.
Definition REFERENCE_SHORT_LENGTH : Z := 1000.
Definition REFERENCE_LONG_LENGTH : Z := 20000.
Definition SHORT_TEXT_MIN_KEEP : Q := 15 # 100.
Definition SHORT_TEXT_MAX_KEEP : Q := 30 # 100.
Definition LONG_TEXT_MIN_KEEP : Q := 1 # 100.
Definition LONG_TEXT_MAX_KEEP : Q := 10 # 100.

Definition clean_text (text : str) : str :=
  let text := lower text in
  let text := re_sub_delete (fun c => is_az c || is_digit c || is_space c) text in
  let text := strip (re_sub_collapse text) in
  text.

(** The body of [for word in sampled_words]. *)
Definition lineate_step (st : line_state) (word : str) : line_state :=
  let word_syllables := estimate_syllables word in
  if ((TARGET_SYLLABLES_PER_LINE <? current_line_syllables st + word_syllables)
      && (0 <? current_line_syllables st))%Z
  then {| all_lines := all_lines st ++ [join space (current_line_words st)];
          current_line_words := [word];
          current_line_syllables := word_syllables |}
  else {| all_lines := all_lines st;
          current_line_words := current_line_words st ++ [word];
          current_line_syllables := (current_line_syllables st + word_syllables)%Z |}.

(** The lines of a sample: the loop, then the last line. *)
Definition lineate (sampled_words : list str) : list str :=
  flush_lines (fold_left lineate_step sampled_words line_start).

Definition randomly_reduce_and_lineate_text (text : str) (percentage_to_keep : Q)
    (g : rng) : option (str * rng) :=
  let words := split text in
  match words with
  | [] => Some (lit "(The source file was empty or had no words after cleaning.)", g)
  | _ =>
      let k := keep_count words percentage_to_keep in
      match sample words k g with
      | None => None
      | Some (sampled_words, g) => Some (join newline (lineate sampled_words), g)
      end
  end.

(** Steps 5 and 6 of the main block: the bounds for a text length. *)
Definition length_factor (text_length : Z) : Q :=
  let normalized_length :=
    (inject_Z (text_length - REFERENCE_SHORT_LENGTH)
     / inject_Z (REFERENCE_LONG_LENGTH - REFERENCE_SHORT_LENGTH))%Q in
  fmax 0 (fmin 1 normalized_length).

Definition current_min_keep (text_length : Z) : Q :=
  (SHORT_TEXT_MIN_KEEP * (1 - length_factor text_length)
   + LONG_TEXT_MIN_KEEP * length_factor text_length)%Q.

Definition current_max_keep (text_length : Z) : Q :=
  (SHORT_TEXT_MAX_KEEP * (1 - length_factor text_length)
   + LONG_TEXT_MAX_KEEP * length_factor text_length)%Q.

Definition random_keep_percentage (text_length : Z) (g : rng) : Q * rng :=
  uniform (current_min_keep text_length) (current_max_keep text_length) g.

(** The main block from the cleaning on: the text that is printed. *)
Definition main (original_text : str) (g : rng) : option (str * rng) :=
  let cleaned_text := clean_text original_text in
  let text_length := Z.of_nat (length cleaned_text) in
  let (random_keep_percentage, g) := random_keep_percentage text_length g in
  randomly_reduce_and_lineate_text cleaned_text random_keep_percentage g.

End Chop22.

(** ** chop2.3.py: the name of the file the poem is saved to *)

Module Chop23.

(** Step 9 of the main block. *)
Definition output_filename (cleaned_text : str) (g : rng) : option (str * rng) :=
  let source_words_list := split cleaned_text in
  match source_words_list with
  | [] => Some (lit "poem_output.txt", g)
  | _ =>
      let (num_words, g) := randint 1 4 g in
      let num_words := Z.min num_words (Z.of_nat (length source_words_list)) in
      match sample source_words_list num_words g with
      | None => None
      | Some (title_words, g) => Some (join ["_"] title_words ++ lit ".txt", g)
      end
  end.

End Chop23.

(** ** create_broken_sentences.py *)

Module CreateBrokenSentences.

Definition REFERENCE_SHORT_LENGTH : Z := 1000.
Definition REFERENCE_LONG_LENGTH : Z := 20000.
Definition SHORT_TEXT_MIN_KEEP : Q := 8 # 100.
Definition SHORT_TEXT_MAX_KEEP : Q := 10 # 100.
Definition LONG_TEXT_MIN_KEEP : Q := 1 # 100.
Definition LONG_TEXT_MAX_KEEP : Q := 2 # 100.

Definition clean_text (text : str) : str :=
  let text := lower text in
  let text := re_sub_delete (fun c => is_az c || is_digit c || is_space c) text in
  let text := strip (re_sub_collapse text) in
  text.

(** The body of [for word in sampled_words]. *)
Definition lineate_step (min_syllables max_syllables : Z)
    (st : line_state) (word : str) : line_state :=
  let word_syllables := estimate_syllables word in
  if ((max_syllables <? current_line_syllables st + word_syllables)
      && (min_syllables <=? current_line_syllables st))%Z
  then {| all_lines := all_lines st ++ [join space (current_line_words st)];
          current_line_words := [word];
          current_line_syllables := word_syllables |}
  else {| all_lines := all_lines st;
          current_line_words := current_line_words st ++ [word];
          current_line_syllables := (current_line_syllables st + word_syllables)%Z |}.

Definition lineate (min_syllables max_syllables : Z) (sampled_words : list str)
  : list str :=
  flush_lines (fold_left (lineate_step min_syllables max_syllables)
                 sampled_words line_start).

(** [min_syllables] and [max_syllables] default to 6 and 12; the one
    caller, [process_file], passes neither. *)
Definition create_broken_sentence_text (text : str) (percentage_to_keep : Q)
    (min_syllables max_syllables : Z) (g : rng) : option (str * rng) :=
  let words := split text in
  match words with
  | [] => Some ([], g)
  | _ =>
      let k := keep_count words percentage_to_keep in
      match sample words k g with
      | None => None
      | Some (sampled_words, g) =>
          Some (join newline (lineate min_syllables max_syllables sampled_words), g)
      end
  end.

Definition length_factor (text_length : Z) : Q :=
  let normalized_length :=
    (inject_Z (text_length - REFERENCE_SHORT_LENGTH)
     / inject_Z (REFERENCE_LONG_LENGTH - REFERENCE_SHORT_LENGTH))%Q in
  fmax 0 (fmin 1 normalized_length).

Definition current_min_keep (text_length : Z) : Q :=
  (SHORT_TEXT_MIN_KEEP * (1 - length_factor text_length)
   + LONG_TEXT_MIN_KEEP * length_factor text_length)%Q.

Definition current_max_keep (text_length : Z) : Q :=
  (SHORT_TEXT_MAX_KEEP * (1 - length_factor text_length)
   + LONG_TEXT_MAX_KEEP * length_factor text_length)%Q.

Definition calculate_biased_retention (text_length : Z) (fixed_retention : option Q)
    (g : rng) : Q * rng :=
  match fixed_retention with
  | Some fixed => (fixed, g)
  | None => uniform (current_min_keep text_length) (current_max_keep text_length) g
  end.

(** What [process_file] does with the text it has read, up to the text
    it writes: [Skipped] is its warning and [return None]. *)
Inductive outcome := Skipped | Broken (broken_text : str).

Definition process_text (original_text : str) (fixed_retention : option Q)
    (g : rng) : option (outcome * rng) :=
  let cleaned_text := clean_text original_text in
  match strip cleaned_text with
  | [] => Some (Skipped, g)
  | _ =>
      let text_length := Z.of_nat (length cleaned_text) in
      let (percentage_to_keep, g) :=
        calculate_biased_retention text_length fixed_retention g in
      match create_broken_sentence_text cleaned_text percentage_to_keep 6 12 g with
      | None => None
      | Some (broken_text, g) => Some (Broken broken_text, g)
      end
  end.


Definition generate_title_filename (cleaned_text input_filename : str) (g : rng)
  : option (str * rng) :=
  let words := split cleaned_text in
  match words with
  | [] =>
      let base_name := PyPath.splitext_root (PyPath.basename input_filename) in
      Some (base_name ++ lit ".txt", g)
  | _ =>
      let (r, g) := randint 2 4 g in
      let num_words := Z.min r (Z.of_nat (length words)) in
      match sample words num_words g with
      | None => None
      | Some (title_words, g) => Some (join ["_"] title_words ++ lit ".txt", g)
      end
  end.

End CreateBrokenSentences.

(** ** [base64.b64encode] and [str.encode] *)

Module PyBase64.

Definition alphabet : str :=
  lit "ABCDEFGHIJKLMNOPQRSTUVWXYZabcdefghijklmnopqrstuvwxyz0123456789+/".

(** The character of a six-bit value. *)
Definition digit (v : N) : ascii := nth (N.to_nat v) alphabet "=".

(** Three bytes make four characters; one or two bytes left over make
    two or three characters, padded with [=]. *)
Fixpoint b64encode (bytes : list ascii) : str :=
  match bytes with
  | [] => []
  | [a] =>
      let a := code a in
      [digit (a / 4); digit (a mod 4 * 16); "="; "="]
  | [a; b] =>
      let a := code a in
      let b := code b in
      [digit (a / 4); digit (a mod 4 * 16 + b / 16); digit (b mod 16 * 4); "="]
  | a :: b :: c :: rest =>
      let a := code a in
      let b := code b in
      let c := code c in
      digit (a / 4) :: digit (a mod 4 * 16 + b / 16)
        :: digit (b mod 16 * 4 + c / 64) :: digit (c mod 64) :: b64encode rest
  end%N.

(** [word.encode()], UTF-8: one byte below U+0080, two from there to
    U+00FF. *)
Definition encode (word : str) : list ascii :=
  flat_map (fun c =>
    if (code c <? 128)%N then [c]
    else [ascii_of_N (192 + code c / 64); ascii_of_N (128 + code c mod 64)]) word.

End PyBase64.

(** ** sentence_breaker_tight.py *)

Module SentenceBreakerTight.

Definition REFERENCE_SHORT_LENGTH : Z := 1000.
Definition REFERENCE_LONG_LENGTH : Z := 20000.
Definition SHORT_TEXT_MIN_KEEP : Q := 24 # 100.
Definition SHORT_TEXT_MAX_KEEP : Q := 30 # 100.
Definition LONG_TEXT_MIN_KEEP : Q := 3 # 100.
Definition LONG_TEXT_MAX_KEEP : Q := 6 # 100.
Definition BASE_MIN_SYLLABLES : Z := 6.
Definition BASE_MAX_SYLLABLES : Z := 12.
Definition MULTIPLIER_MIN : Q := 1.
Definition MULTIPLIER_MAX : Q := 167 # 100.

(** Digits go too. *)
Definition clean_text (text : str) : str :=
  let text := lower text in
  let text := re_sub_delete (fun c => is_az c || is_space c) text in
  let text := strip (re_sub_collapse text) in
  text.

(** The encoded bytes are ASCII, so [.decode()] keeps them as they are. *)
Definition encrypt_word (word : str) : str :=
  match word with
  | [] => []
  | _ =>
      let encoded := PyBase64.b64encode (PyBase64.encode word) in
      if (length word <? length encoded)%nat
      then firstn (length word + 2) encoded
      else encoded
  end.

Definition get_random_line_syllable_limits (g : rng) : (Z * Z) * rng :=
  let (multiplier, g) := uniform MULTIPLIER_MIN MULTIPLIER_MAX g in
  let min_syllables := py_int (inject_Z BASE_MIN_SYLLABLES * multiplier) in
  let max_syllables := py_int (inject_Z BASE_MAX_SYLLABLES * multiplier) in
  let min_fluctuation := py_int (inject_Z min_syllables * (1 # 10)) in
  let max_fluctuation := py_int (inject_Z max_syllables * (1 # 10)) in
  let (d, g) := randint (- min_fluctuation) min_fluctuation g in
  let min_syllables := (min_syllables + d)%Z in
  let (d, g) := randint (- max_fluctuation) max_fluctuation g in
  let max_syllables := (max_syllables + d)%Z in
  let min_syllables := Z.max 1 min_syllables in
  let max_syllables := Z.max (min_syllables + 1) max_syllables in
  ((min_syllables, max_syllables), g).

(** The loop state of [create_broken_sentence_text]: the lines, the
    limits in force and the generator. *)
Record window_state := {
  lines : line_state;
  limits : Z * Z;
  gen : rng
}.

Definition lineate_step (st : window_state) (word : str) : window_state :=
  let word_syllables := estimate_syllables word in
  let (min_syllables, max_syllables) := limits st in
  if ((max_syllables <? current_line_syllables (lines st) + word_syllables)
      && (min_syllables <=? current_line_syllables (lines st)))%Z
  then
    let (new_limits, g) := get_random_line_syllable_limits (gen st) in
    {| lines :=
         {| all_lines := all_lines (lines st)
                           ++ [join space (current_line_words (lines st))];
            current_line_words := [word];
            current_line_syllables := word_syllables |};
       limits := new_limits;
       gen := g |}
  else
    {| lines :=
         {| all_lines := all_lines (lines st);
            current_line_words := current_line_words (lines st) ++ [word];
            current_line_syllables :=
              (current_line_syllables (lines st) + word_syllables)%Z |};
       limits := limits st;
       gen := gen st |}.

Definition lineate (sampled_words : list str) (g : rng) : list str * rng :=
  let (first_limits, g) := get_random_line_syllable_limits g in
  let st := fold_left lineate_step sampled_words
              {| lines := line_start; limits := first_limits; gen := g |} in
  (flush_lines (lines st), gen st).

Definition create_broken_sentence_text (text : str) (percentage_to_keep : Q)
    (g : rng) : option (str * rng) :=
  let words := split text in
  match words with
  | [] => Some ([], g)
  | _ =>
      let k := keep_count words percentage_to_keep in
      match sample words k g with
      | None => None
      | Some (sampled_words, g) =>
          let (all_lines, g) := lineate sampled_words g in
          Some (join newline all_lines, g)
      end
  end.

Definition length_factor (text_length : Z) : Q :=
  let normalized_length :=
    (inject_Z (text_length - REFERENCE_SHORT_LENGTH)
     / inject_Z (REFERENCE_LONG_LENGTH - REFERENCE_SHORT_LENGTH))%Q in
  fmax 0 (fmin 1 normalized_length).

Definition current_min_keep (text_length : Z) : Q :=
  (SHORT_TEXT_MIN_KEEP * (1 - length_factor text_length)
   + LONG_TEXT_MIN_KEEP * length_factor text_length)%Q.

Definition current_max_keep (text_length : Z) : Q :=
  (SHORT_TEXT_MAX_KEEP * (1 - length_factor text_length)
   + LONG_TEXT_MAX_KEEP * length_factor text_length)%Q.

Definition calculate_biased_retention (text_length : Z) (fixed_retention : option Q)
    (g : rng) : Q * rng :=
  match fixed_retention with
  | Some fixed => (fixed, g)
  | None => uniform (current_min_keep text_length) (current_max_keep text_length) g
  end.


Definition generate_title_filename (cleaned_text input_filename : str) (g : rng)
  : option (str * rng) :=
  let words := split cleaned_text in
  match words with
  | [] =>
      let base_name := PyPath.splitext_root (PyPath.basename input_filename) in
      Some (base_name ++ lit ".txt", g)
  | _ =>
      let (r, g) := randint 2 4 g in
      let num_words := Z.min r (Z.of_nat (length words)) in
      match sample words num_words g with
      | None => None
      | Some (title_words, g) => Some (join ["_"] title_words ++ lit ".txt", g)
      end
  end.

(** The line loop of [create_broken_sentence_text_with_flicker]: the
    limits are 9 and 24 and the lines stay lists of words. *)
Record flicker_state := {
  flicker_lines : list (list str);
  flicker_line_words : list str;
  flicker_line_syllables : Z
}.

Definition flicker_step (st : flicker_state) (word : str) : flicker_state :=
  let word_syllables := estimate_syllables word in
  let min_syllables := 9%Z in
  let max_syllables := 24%Z in
  if ((max_syllables <? flicker_line_syllables st + word_syllables)
      && (min_syllables <=? flicker_line_syllables st))%Z
  then {| flicker_lines := flicker_lines st ++ [flicker_line_words st];
          flicker_line_words := [word];
          flicker_line_syllables := word_syllables |}
  else {| flicker_lines := flicker_lines st;
          flicker_line_words := flicker_line_words st ++ [word];
          flicker_line_syllables := (flicker_line_syllables st + word_syllables)%Z |}.

Definition flicker_lineate (sampled_words : list str) : list (list str) :=
  let st := fold_left flicker_step sampled_words
              {| flicker_lines := []; flicker_line_words := [];
                 flicker_line_syllables := 0 |} in
  match flicker_line_words st with
  | [] => flicker_lines st
  | ws => flicker_lines st ++ [ws]
  end.

(** What one [<span class="flicker-word">] is written from. *)
Record flicker_word := {
  data_original : str;
  data_encrypted : str;
  data_start_original : bool;
  data_direction : Z;
  data_interval : Q;
  animation_delay : Q;
  initial_text : str
}.

(** [for i, word in enumerate(line_words)], from index [i] on. *)
Fixpoint word_elements (flicker_direction : Z) (i : nat) (line_words : list str)
    (g : rng) : list flicker_word * rng :=
  match line_words with
  | [] => ([], g)
  | word :: rest =>
      let encrypted := encrypt_word word in
      let start_with_original := (flicker_direction =? 1)%Z in
      let initial_text := if start_with_original then word else encrypted in
      let delay := (inject_Z (Z.of_nat i) * (2 # 10))%Q in
      let (interval, g) := uniform 2000 4000 g in
      let (elements, g) := word_elements flicker_direction (S i) rest g in
      ({| data_original := word;
          data_encrypted := encrypted;
          data_start_original := start_with_original;
          data_direction := flicker_direction;
          data_interval := interval;
          animation_delay := delay;
          initial_text := initial_text |} :: elements, g)
  end.

(** [for line_index, line_words in enumerate(all_lines)], from index
    [line_index] on. *)
Fixpoint html_lines (line_index : nat) (all_lines : list (list str)) (g : rng)
  : list (list flicker_word) * rng :=
  match all_lines with
  | [] => ([], g)
  | line_words :: rest =>
      let flicker_direction := if (line_index mod 2 =? 0)%nat then 1%Z else (-1)%Z in
      let (elements, g) := word_elements flicker_direction 0 line_words g in
      let (lines, g) := html_lines (S line_index) rest g in
      (elements :: lines, g)
  end.

(** What [create_broken_sentence_text_with_flicker] computes before it
    writes the markup: nothing for a text without words (it returns the
    empty string), and otherwise the spans of every line and the line
    spacing. *)
Inductive flicker_page :=
| NoPage
| Page (lines : list (list flicker_word)) (line_spacing_multiplier : Q).

Definition flicker_elements (text : str) (percentage_to_keep : Q) (g : rng)
  : option (flicker_page * rng) :=
  let words := split text in
  match words with
  | [] => Some (NoPage, g)
  | _ =>
      let k := keep_count words percentage_to_keep in
      match sample words k g with
      | None => None
      | Some (sampled_words, g) =>
          let all_lines := flicker_lineate sampled_words in
          let (lines, g) := html_lines 0 all_lines g in
          let (line_spacing_multiplier, g) := uniform (3 # 10) (5 # 10) g in
          Some (Page lines line_spacing_multiplier, g)
      end
  end.

(** The name [process_file] gives the HTML file. *)
Definition title_filename (cleaned_text input_file : str) (g : rng)
  : option (str * rng) :=
  match generate_title_filename cleaned_text input_file g with
  | None => None
  | Some (name, g) => Some (PyPath.replace name (lit ".txt") [] ++ lit ".html", g)
  end.

End SentenceBreakerTight.

(** ** The words and limits behind the lines

    The scripts keep each finished line as one joined string. To speak
    of a line's words and of the limits it was built under, the same
    loop is run once more with both kept beside it; [draw] supplies the
    limits of the next line. The lemmas [*_lineate_traced] below show
    that every script's lines are the [render]ings of these. *)

Section Traced.

Variable draw : rng -> (Z * Z) * rng.

Record traced_state := {
  closed : list ((Z * Z) * list str);
  open_words : list str;
  open_syllables : Z;
  open_limits : Z * Z;
  draws : rng
}.

Definition traced_step (st : traced_state) (word : str) : traced_state :=
  let word_syllables := estimate_syllables word in
  if ((snd (open_limits st) <? open_syllables st + word_syllables)
      && (fst (open_limits st) <=? open_syllables st))%Z
  then
    let (new_limits, g) := draw (draws st) in
    {| closed := closed st ++ [(open_limits st, open_words st)];
       open_words := [word];
       open_syllables := word_syllables;
       open_limits := new_limits;
       draws := g |}
  else
    {| closed := closed st;
       open_words := open_words st ++ [word];
       open_syllables := (open_syllables st + word_syllables)%Z;
       open_limits := open_limits st;
       draws := draws st |}.

Definition traced_flush (st : traced_state) : list ((Z * Z) * list str) :=
  match open_words st with
  | [] => closed st
  | ws => closed st ++ [(open_limits st, ws)]
  end.

Definition traced_start (g : rng) : traced_state :=
  let (first_limits, g) := draw g in
  {| closed := []; open_words := []; open_syllables := 0;
     open_limits := first_limits; draws := g |}.

Definition traced_run (sampled_words : list str) (g : rng) : traced_state :=
  fold_left traced_step sampled_words (traced_start g).

Definition traced_lines (sampled_words : list str) (g : rng)
  : list ((Z * Z) * list str) :=
  traced_flush (traced_run sampled_words g).

End Traced.

(** A line as the scripts store it. *)
Definition render (line : (Z * Z) * list str) : str := join space (snd line).

(** The supply of limits of each script: chop2.2.py closes a line that
    has at least one syllable ([> 0]) at its one ceiling;
    create_broken_sentences.py keeps the limits it was called with;
    sentence_breaker_tight.py draws new ones. *)
Definition fixed_limits (min_syllables max_syllables : Z) (g : rng) : (Z * Z) * rng :=
  ((min_syllables, max_syllables), g).

Definition chop22_limits : rng -> (Z * Z) * rng :=
  fixed_limits 1 Chop22.TARGET_SYLLABLES_PER_LINE.

(** ** Vocabulary of the claims *)

(** A word as [split] produces it: not empty, no whitespace inside. *)
Definition token (w : str) : bool :=
  match w with
  | [] => false
  | _ => forallb (fun c => negb (is_space c)) w
  end.

(** The estimated syllables of a line's words. *)
Definition line_syllables (ws : list str) : Z :=
  fold_right (fun w n => (estimate_syllables w + n)%Z) 0%Z ws.

(** The budget rule as the specification words it: within the budget,
    or one word that alone is over it. *)
Definition budget_rule_claimed (budget : Z) (ws : list str) : Prop :=
  (line_syllables ws <= budget)%Z
  \/ exists w, ws = [w] /\ (budget < estimate_syllables w)%Z.

(** The budget rule of the loops: within the maximum, or over it by the
    last word alone, which was appended while the line was empty or
    still under its minimum. *)
Definition budget_rule (limits : Z * Z) (ws : list str) : Prop :=
  (line_syllables ws <= snd limits)%Z
  \/ exists init w,
       ws = init ++ [w]
       /\ (init = [] \/ (line_syllables init < fst limits)%Z)
       /\ (snd limits < line_syllables ws)%Z.

(** Every produced line that has words obeys the budget rule of the
    limits it was built under. *)
Definition lines_within_budget (ls : list ((Z * Z) * list str)) : Prop :=
  Forall (fun l => snd l <> [] -> budget_rule (fst l) (snd l)) ls.

(** The words of the produced lines, read back from the strings. *)
Definition words_of_lines (ls : list str) : list str := concat (map split ls).

(** All the words a run of the instrumented loop holds, in order. *)
Definition traced_words (st : traced_state) : list str :=
  concat (map snd (closed st)) ++ open_words st.

(** What every step of the instrumented loop keeps, for limits that all
    satisfy [Q]: the syllable count is that of the open line; the closed
    lines and the open line obey the budget rule; all limits satisfy
    [Q]; and when [Q] puts every minimum at 1 or more, no closed line is
    empty. *)
Definition traced_inv (Q : Z * Z -> Prop) (st : traced_state) : Prop :=
  open_syllables st = line_syllables (open_words st)
  /\ lines_within_budget (closed st)
  /\ (open_words st <> [] -> budget_rule (open_limits st) (open_words st))
  /\ Forall (fun l => Q (fst l)) (closed st)
  /\ Q (open_limits st)
  /\ ((forall lim, Q lim -> (1 <= fst lim)%Z) ->
      Forall (fun l => snd l <> []) (closed st)).

(** The limits sentence_breaker_tight.py may draw. *)
Definition proper_limits (lim : Z * Z) : Prop := (1 <= fst lim < snd lim)%Z.

(** The state of a script's loop that an instrumented state stands for. *)
Definition erase (st : traced_state) : line_state :=
  {| all_lines := map render (closed st);
     current_line_words := open_words st;
     current_line_syllables := open_syllables st |}.

(** The lines of a text: the pieces between its newlines (none for the
    empty text). *)
Fixpoint text_lines_from (cur : str) (s : str) : list str :=
  match s with
  | [] => match cur with [] => [] | _ => [cur] end
  | c :: s' =>
      if Ascii.eqb c "010"
      then cur :: text_lines_from [] s'
      else text_lines_from (cur ++ [c]) s'
  end.

Definition text_lines (s : str) : list str := text_lines_from [] s.

(** A line of the output that is a line: not empty, at least one word,
    no newline inside. *)
Definition proper_line (l : str) : Prop :=
  l <> [] /\ split l <> []
  /\ forallb (fun c => negb (Ascii.eqb c "010")) l = true.

(** No line is empty, in the list of lines and in the joined text. *)
Definition no_empty_line (lines : list str) : Prop :=
  Forall proper_line lines /\ text_lines (join newline lines) = lines.

(** The lines hold the sampled words, each once and in order: read back
    line by line or from the joined text, by number and as a multiset. *)
Definition words_preserved (sampled_words lines : list str) : Prop :=
  words_of_lines lines = sampled_words
  /\ split (join newline lines) = sampled_words
  /\ length (words_of_lines lines) = length sampled_words
  /\ Permutation (words_of_lines lines) sampled_words.

(** The lines are the renderings of instrumented lines whose limits
    satisfy [Q], which obey the budget rule and hold the sampled words. *)
Definition packed_as (lines sampled_words : list str) (Q : Z * Z -> Prop)
    (traced : list ((Z * Z) * list str)) : Prop :=
  lines = map render traced
  /\ Forall (fun l => Q (fst l)) traced
  /\ lines_within_budget traced
  /\ concat (map snd traced) = sampled_words.

(** The allowed alphabet of the normalized text: lowercase letters,
    digits when [keep_digits], and the space. *)
Definition allowed (keep_digits : bool) (c : ascii) : bool :=
  is_az c || (keep_digits && is_digit c) || Ascii.eqb c " ".

Fixpoint no_double_space (s : str) : bool :=
  match s with
  | c1 :: (c2 :: _) as t =>
      negb (is_space c1 && is_space c2) && no_double_space t
  | _ => true
  end.

Definition starts_with_space (s : str) : bool :=
  match s with
  | c :: _ => is_space c
  | [] => false
  end.

Definition ends_with_space (s : str) : bool := starts_with_space (rev s).

(** The invariant of the specification's NormalizedText. *)
Definition normalized (keep_digits : bool) (s : str) : Prop :=
  forallb (allowed keep_digits) s = true
  /\ no_double_space s = true
  /\ starts_with_space s = false
  /\ ends_with_space s = false.

(** The normalizer with the specification's [keep_digits] switch; the
    two [clean_text]s are its two settings ([clean_text_keep_digits],
    [clean_text_letters_only]). *)
Definition kept (keep_digits : bool) (c : ascii) : bool :=
  is_az c || (keep_digits && is_digit c) || is_space c.

Definition normalize (keep_digits : bool) (text : str) : str :=
  strip (re_sub_collapse (re_sub_delete (kept keep_digits) (lower text))).

(** ** The estimator as the specification words it *)

Definition is_letter (c : ascii) : bool := in_range 65 90 c || is_az c.

(** Step 5: the number of places where a vowel follows no vowel. *)
Fixpoint vowel_runs (after_vowel : bool) (s : str) : nat :=
  match s with
  | [] => 0
  | c :: s' =>
      if is_vowel c
      then (if after_vowel then 0 else 1) + vowel_runs true s'
      else vowel_runs false s'
  end.

(** Step 4: a final [e] goes, unless the word ends in a consonant and
    [le]. *)
Definition without_silent_e (w : str) : str :=
  match rev w with
  | e :: before =>
      if Ascii.eqb e "e"
      then match before with
           | l :: c :: _ =>
               if Ascii.eqb l "l" && negb (is_vowel c) then w else removelast w
           | _ => removelast w
           end
      else w
  | [] => w
  end.

Definition estimate_syllables_spec (word : str) : Z :=
  if negb (existsb is_letter word) then 0%Z
  else
    let w := strip (lower word) in
    if (length w <=? 3)%nat then 1%Z
    else Z.max 1 (Z.of_nat (vowel_runs false (without_silent_e w))).

(** A code point that UTF-8 writes as one byte. *)
Definition is_ascii (c : ascii) : bool := (code c <? 128)%N.

(** ** Reading an obfuscated word back *)

Module Decode.

(** The six-bit value of a Base64 character. *)
Definition value (c : ascii) : N :=
  if in_range 65 90 c then code c - 65
  else if in_range 97 122 c then code c - 71
  else if in_range 48 57 c then code c + 4
  else if Ascii.eqb c "+" then 62
  else 63.

(** Four characters give three bytes; at the end, two characters give
    one byte and three give two. Padding is dropped first. *)
Fixpoint bytes_of (vs : list N) : list ascii :=
  match vs with
  | a :: b :: c :: d :: rest =>
      ascii_of_N (a * 4 + b / 16) :: ascii_of_N (b mod 16 * 16 + c / 4)
        :: ascii_of_N (c mod 4 * 64 + d) :: bytes_of rest
  | [a; b; c] => [ascii_of_N (a * 4 + b / 16); ascii_of_N (b mod 16 * 16 + c / 4)]
  | [a; b] => [ascii_of_N (a * 4 + b / 16)]
  | _ => []
  end%N.

Definition decode_word (obfuscated : str) : str :=
  bytes_of (map value (filter (fun c => negb (Ascii.eqb c "=")) obfuscated)).

End Decode.

(** ** The retention bounds, once for the three scripts

    The three scripts interpolate with the same expressions and the same
    reference lengths; only the four keep constants differ. *)

Definition clamp01 (x : Q) : Q := fmax 0 (fmin 1 x).

Definition normalized_length (text_length : Z) : Q :=
  inject_Z (text_length - 1000) / inject_Z (20000 - 1000).

Definition lerp (short long t : Q) : Q := short * (1 - t) + long * t.

(** A bound for a text length: between its short-text and its long-text
    value, by the clamped length. *)
Definition interpolated (short long : Q) (text_length : Z) : Q :=
  lerp short long (clamp01 (normalized_length text_length)).

(** What the specification claims of a retention calculator with bounds
    [min_keep] and [max_keep], at two text lengths [L1 <= L2]: the drawn
    fraction is within the bounds; the bounds of the longer text are not
    above those of the shorter; they stay between the long and the short
    range; and they are the short range up to the short reference length
    and the long range from the long one on. *)
Definition retention_claim (min_keep max_keep : Z -> Q)
    (retention : Z -> rng -> Q * rng)
    (short_min short_max long_min long_max : Q) (L1 L2 : Z) (g : rng) : Prop :=
  (min_keep L1 <= fst (retention L1 g) /\ fst (retention L1 g) <= max_keep L1)
  /\ (min_keep L2 <= min_keep L1 /\ max_keep L2 <= max_keep L1)
  /\ (long_min <= min_keep L1 /\ min_keep L1 <= short_min
      /\ long_max <= max_keep L1 /\ max_keep L1 <= short_max)
  /\ ((L1 <= 1000)%Z -> min_keep L1 == short_min /\ max_keep L1 == short_max)
  /\ ((20000 <= L1)%Z -> min_keep L1 == long_min /\ max_keep L1 == long_max).

(** ** Vocabulary of the further properties *)

(** A character that survives cleaning as part of a word: an ASCII
    letter, or a digit where digits are kept. *)
Definition word_char (keep_digits : bool) (c : ascii) : bool :=
  is_letter c || (keep_digits && is_digit c).

(** The sample size when the product [len(words) * percentage_to_keep]
    is rounded by [fl] before [int] truncates it. The scripts multiply
    doubles, so their product is the exact one rounded to the nearest
    double; [keep_count] is the case of no rounding. *)
Definition rounded_count (fl : Q -> Q) (words : list str) (percentage_to_keep : Q)
  : Z :=
  py_int (fl (inject_Z (Z.of_nat (length words)) * percentage_to_keep)).

Definition rounded_keep_count (fl : Q -> Q) (words : list str)
    (percentage_to_keep : Q) : Z :=
  let k := rounded_count fl words percentage_to_keep in
  if ((k =? 0) && (0 <? Z.of_nat (length words)))%Z then 1%Z else k.

(** The same once the text is in lower case: what [[a-z]], or
    [[a-z0-9]], matches. *)
Definition lower_word_char (keep_digits : bool) (c : ascii) : bool :=
  is_az c || (keep_digits && is_digit c).

(** The break after line [l] was needed: the first word of the line
    that follows did not fit under the maximum of [l]. *)
Definition break_needed (l : (Z * Z) * list str)
    (next : list ((Z * Z) * list str)) : Prop :=
  match next with
  | [] => True
  | l2 :: _ =>
      exists w r,
        snd l2 = w :: r
        /\ (snd (fst l) < line_syllables (snd l) + estimate_syllables w)%Z
  end.

Fixpoint needed_breaks (ls : list ((Z * Z) * list str)) : Prop :=
  match ls with
  | [] => True
  | l :: next => break_needed l next /\ needed_breaks next
  end.

(** The line has reached the minimum of its limits. *)
Definition reached_minimum (l : (Z * Z) * list str) : Prop :=
  (fst (fst l) <= line_syllables (snd l))%Z.

(** What every step of the instrumented loop keeps besides
    [traced_inv]: the open line is empty only before the first word;
    every closed line has reached its minimum; every break so far was
    needed. *)
Definition traced_greedy (st : traced_state) : Prop :=
  open_syllables st = line_syllables (open_words st)
  /\ (open_words st = [] -> closed st = [])
  /\ Forall reached_minimum (closed st)
  /\ needed_breaks (closed st ++ [(open_limits st, open_words st)]).

(** A character of Base64 text: one of the 64 digits or the padding. *)
Definition b64_safe (c : ascii) : bool :=
  existsb (Ascii.eqb c) PyBase64.alphabet || Ascii.eqb c "=".

(** A character of the file names the scripts make up: lowercase
    letter, digit or underscore. *)
Definition name_char (c : ascii) : bool :=
  is_az c || is_digit c || Ascii.eqb c "_".

(** A title: at least [lo] and at most 4 words (fewer only when the
    text has fewer), all words of the text, none more often than in
    the text, and made of name characters. *)
Definition title_of (lo : nat) (words title_words : list str) : Prop :=
  (Nat.min lo (length words) <= length title_words <= Nat.min 4 (length words))%nat
  /\ (exists rest, Permutation (title_words ++ rest) words)
  /\ forallb name_char (join ["_"] title_words) = true.

(** The range of the limits sentence_breaker_tight.py draws. *)
Definition drawn_limits (lim : Z * Z) : Prop :=
  (6 <= fst lim <= 11)%Z /\ (11 <= snd lim <= 22)%Z /\ (fst lim + 5 <= snd lim)%Z.

(** A span of line [line_index] as the flicker page needs it: the
    obfuscated form is that of its word; even lines start with the word
    and run forward, odd lines start with the obfuscated form and run
    backward; the interval is between 2000 and 4000. *)
Definition flicker_span (line_index : nat) (e : SentenceBreakerTight.flicker_word)
  : Prop :=
  SentenceBreakerTight.data_encrypted e
  = SentenceBreakerTight.encrypt_word (SentenceBreakerTight.data_original e)
  /\ SentenceBreakerTight.data_start_original e = Nat.even line_index
  /\ SentenceBreakerTight.data_direction e = (if Nat.even line_index then 1 else -1)%Z
  /\ SentenceBreakerTight.initial_text e
     = (if Nat.even line_index then SentenceBreakerTight.data_original e
        else SentenceBreakerTight.data_encrypted e)
  /\ 2000 <= SentenceBreakerTight.data_interval e
  /\ SentenceBreakerTight.data_interval e <= 4000.

(** The spans of a page, line by line, from line [line_index] on. *)
Fixpoint flicker_spans (line_index : nat)
    (lines : list (list SentenceBreakerTight.flicker_word)) : Prop :=
  match lines with
  | [] => True
  | line :: rest =>
      Forall (flicker_span line_index) line /\ flicker_spans (S line_index) rest
  end.

(** The words of a page, line by line. *)
Definition page_words (lines : list (list SentenceBreakerTight.flicker_word))
  : list (list str) :=
  map (map SentenceBreakerTight.data_original) lines.

(** The state of the flicker loop that an instrumented state stands for. *)
Definition erase_flicker (st : traced_state) : SentenceBreakerTight.flicker_state :=
  {| SentenceBreakerTight.flicker_lines := map snd (closed st);
     SentenceBreakerTight.flicker_line_words := open_words st;
     SentenceBreakerTight.flicker_line_syllables := open_syllables st |}.

(** ** Generators for the worked examples *)

Definition zeros : rng := fun _ => 0%N.
Definition counting : rng := fun i => N.of_nat (7 * i + 3).

(** * Theorems *)

(** ** Characters *)

Ltac each_char c :=
  destruct c as [[] [] [] [] [] [] [] []];
  vm_compute; try reflexivity; try discriminate; auto.

Lemma allowed_lower_fixed d c : allowed d c = true -> lower_char c = c.
Proof. destruct d; each_char c. Qed.

Lemma allowed_kept d c : allowed d c = true -> kept d c = true.
Proof. destruct d; each_char c. Qed.

Lemma allowed_space_is_space d c :
  allowed d c = true -> is_space c = true -> c = " ".
Proof. destruct d; each_char c. Qed.

Lemma kept_not_space_allowed d c :
  kept d c = true -> is_space c = false -> allowed d c = true.
Proof. destruct d; each_char c. Qed.

Lemma is_az_not_space c : is_az c = true -> is_space c = false.
Proof. each_char c. Qed.

Lemma is_vowel_is_az c : is_vowel c = true -> is_az c = true.
Proof. each_char c. Qed.

(** ** The normalizer *)

Lemma clean_text_keep_digits text :
  Chop22.clean_text text = normalize true text
  /\ CreateBrokenSentences.clean_text text = normalize true text.
Proof. split; reflexivity. Qed.

Lemma clean_text_letters_only text :
  SentenceBreakerTight.clean_text text = normalize false text.
Proof.
  unfold SentenceBreakerTight.clean_text, normalize, re_sub_delete.
  do 2 f_equal. apply filter_ext. intros c. unfold kept. simpl.
  now rewrite orb_false_r.
Qed.

Lemma no_double_space_cons c t :
  no_double_space (c :: t)
  = negb (is_space c && starts_with_space t) && no_double_space t.
Proof. destruct t; simpl; [now rewrite andb_false_r|reflexivity]. Qed.

Lemma ends_with_space_cons c r :
  r <> [] -> ends_with_space (c :: r) = ends_with_space r.
Proof.
  intros Hr. unfold ends_with_space. simpl.
  destruct (rev r) as [|x xs] eqn:E; [|reflexivity].
  apply (f_equal (@rev ascii)) in E. rewrite rev_involutive in E. contradiction.
Qed.

Section Normalizer.

Variable d : bool.

Lemma collapse_allowed s b :
  forallb (kept d) s = true ->
  forallb (allowed d) (collapse_from b s) = true.
Proof.
  revert b. induction s as [|c s IH]; intros b H; [reflexivity|].
  simpl in H. apply andb_true_iff in H as [Hc Hs]. simpl.
  destruct (is_space c) eqn:Esp.
  - destruct b; simpl; auto.
    rewrite IH by assumption. now destruct d.
  - simpl. rewrite IH by assumption.
    now rewrite (kept_not_space_allowed _ _ Hc Esp).
Qed.

Lemma collapse_no_double s b :
  no_double_space (collapse_from b s) = true
  /\ (b = true -> starts_with_space (collapse_from b s) = false).
Proof.
  revert b. induction s as [|c s IH]; intros b; [now split|].
  simpl. destruct (is_space c) eqn:Esp.
  - destruct b.
    + apply IH.
    + split; [|discriminate].
      rewrite no_double_space_cons.
      destruct (IH true) as [H1 H2]. rewrite H1, H2 by reflexivity.
      reflexivity.
  - split.
    + rewrite no_double_space_cons, Esp. simpl. apply IH.
    + intros _. simpl. exact Esp.
Qed.

Lemma lstrip_forallb (p : ascii -> bool) s :
  forallb p s = true -> forallb p (lstrip s) = true.
Proof.
  induction s as [|c s IH]; [auto|]. intros H. simpl.
  destruct (is_space c); [|exact H].
  simpl in H. apply andb_true_iff in H. tauto.
Qed.

Lemma lstrip_no_double s :
  no_double_space s = true -> no_double_space (lstrip s) = true.
Proof.
  induction s as [|c s IH]; [auto|]. intros H. simpl (lstrip _).
  destruct (is_space c); [|exact H].
  rewrite no_double_space_cons in H. apply andb_true_iff in H. tauto.
Qed.

Lemma lstrip_starts s : starts_with_space (lstrip s) = false.
Proof.
  induction s as [|c s IH]; [reflexivity|]. simpl.
  destruct (is_space c) eqn:E; [exact IH|exact E].
Qed.

Lemma rstrip_forallb (p : ascii -> bool) s :
  forallb p s = true -> forallb p (rstrip s) = true.
Proof.
  induction s as [|c s IH]; [auto|]. intros H.
  simpl in H. apply andb_true_iff in H as [Hc Hs]. simpl.
  specialize (IH Hs). destruct (rstrip s) as [|x r].
  - destruct (is_space c); simpl; [reflexivity|now rewrite Hc].
  - change (forallb p (c :: x :: r)) with (p c && forallb p (x :: r)).
    now rewrite Hc, IH.
Qed.

Lemma rstrip_starts s :
  rstrip s <> [] -> starts_with_space (rstrip s) = starts_with_space s.
Proof.
  destruct s as [|c s]; [reflexivity|]. simpl.
  destruct (rstrip s); [|reflexivity].
  destruct (is_space c) eqn:E; [contradiction|]. intros _. simpl. exact E.
Qed.

Lemma rstrip_no_double s :
  no_double_space s = true -> no_double_space (rstrip s) = true.
Proof.
  induction s as [|c s IH]; [auto|]. intros H.
  rewrite no_double_space_cons in H.
  apply andb_true_iff in H as [H1 H2]. specialize (IH H2).
  simpl. destruct (rstrip s) as [|x r] eqn:E.
  - now destruct (is_space c).
  - rewrite no_double_space_cons, IH.
    rewrite <- E, rstrip_starts by (rewrite E; discriminate).
    now rewrite H1.
Qed.

Lemma rstrip_ends s : ends_with_space (rstrip s) = false.
Proof.
  induction s as [|c s IH]; [reflexivity|]. simpl.
  destruct (rstrip s) as [|x r] eqn:E.
  - destruct (is_space c) eqn:Ec; [reflexivity|].
    unfold ends_with_space. simpl. exact Ec.
  - rewrite ends_with_space_cons by discriminate. exact IH.
Qed.

Lemma rstrip_keeps_start s :
  starts_with_space s = false -> starts_with_space (rstrip s) = false.
Proof.
  intros H. destruct (rstrip s) eqn:E; [reflexivity|].
  rewrite <- E, rstrip_starts by (rewrite E; discriminate). exact H.
Qed.

(** The normalizer's result is normalized. *)
Lemma normalize_normalized text : normalized d (normalize d text).
Proof.
  unfold normalize, re_sub_delete, re_sub_collapse, strip.
  set (s := filter (kept d) (lower text)).
  assert (Hs : forallb (kept d) s = true).
  { apply forallb_forall. intros c Hc. apply filter_In in Hc. tauto. }
  repeat split.
  - apply rstrip_forallb, lstrip_forallb, collapse_allowed, Hs.
  - apply rstrip_no_double, lstrip_no_double, collapse_no_double.
  - apply rstrip_keeps_start, lstrip_starts.
  - apply rstrip_ends.
Qed.

Lemma lower_fixed s : forallb (allowed d) s = true -> lower s = s.
Proof.
  induction s as [|c s IH]; [reflexivity|]. simpl. intros H.
  apply andb_true_iff in H as [Hc Hs].
  now rewrite (allowed_lower_fixed _ _ Hc), IH.
Qed.

Lemma delete_fixed s :
  forallb (allowed d) s = true -> re_sub_delete (kept d) s = s.
Proof.
  induction s as [|c s IH]; [reflexivity|]. simpl. intros H.
  apply andb_true_iff in H as [Hc Hs].
  now rewrite (allowed_kept _ _ Hc), IH.
Qed.

Lemma collapse_fixed s b :
  forallb (allowed d) s = true ->
  no_double_space s = true ->
  (b = true -> starts_with_space s = false) ->
  collapse_from b s = s.
Proof.
  revert b. induction s as [|c s IH]; intros b Ha Hn Hb; [reflexivity|].
  simpl in Ha. apply andb_true_iff in Ha as [Hc Hs].
  rewrite no_double_space_cons in Hn. apply andb_true_iff in Hn as [Hn1 Hn2].
  simpl. destruct (is_space c) eqn:Esp.
  - destruct b.
    + simpl in Hb. rewrite Esp in Hb. now specialize (Hb eq_refl).
    + rewrite (allowed_space_is_space _ _ Hc Esp). f_equal.
      apply IH; auto. intros _.
      simpl in Hn1. now destruct (starts_with_space s).
  - f_equal. apply IH; auto. discriminate.
Qed.

Lemma lstrip_fixed s : starts_with_space s = false -> lstrip s = s.
Proof. destruct s as [|c s]; [reflexivity|]. simpl. now intros ->. Qed.

Lemma rstrip_fixed s : ends_with_space s = false -> rstrip s = s.
Proof.
  induction s as [|c s IH]; [reflexivity|]. intros H. simpl.
  destruct s as [|x r].
  - unfold ends_with_space in H. simpl in H. simpl. now rewrite H.
  - rewrite ends_with_space_cons in H by discriminate.
    now rewrite (IH H).
Qed.

Lemma normalize_fixed s : normalized d s -> normalize d s = s.
Proof.
  intros (Ha & Hn & Hs & He). unfold normalize, re_sub_collapse, strip.
  rewrite (lower_fixed _ Ha), (delete_fixed _ Ha).
  rewrite (collapse_fixed _ false Ha Hn) by discriminate.
  now rewrite (lstrip_fixed _ Hs), (rstrip_fixed _ He).
Qed.

End Normalizer.

(** C8. For every input string, [clean_text] (with digits kept, as in
    chop2.2.py, and letters only, as in sentence_breaker_tight.py)
    returns a text over the allowed alphabet, with no two whitespace
    characters in a row and none at either end, and cleaning a cleaned
    text changes nothing. *)
Theorem C8_clean_text_normalized_idempotent (x : str) :
  (normalized true (Chop22.clean_text x)
   /\ Chop22.clean_text (Chop22.clean_text x) = Chop22.clean_text x)
  /\ (normalized false (SentenceBreakerTight.clean_text x)
      /\ SentenceBreakerTight.clean_text (SentenceBreakerTight.clean_text x)
         = SentenceBreakerTight.clean_text x).
Proof.
  change (Chop22.clean_text) with (normalize true).
  rewrite !clean_text_letters_only.
  repeat split; try apply normalize_normalized;
    apply normalize_fixed, normalize_normalized.
Qed.

Example clean_text_example :
  Chop22.clean_text (lit "  Hello,   World! 42 x ") = lit "hello world 42 x"
  /\ SentenceBreakerTight.clean_text (lit "  Hello,   World! 42 x ")
     = lit "hello world x".
Proof. split; vm_compute; reflexivity. Qed.

(** ** The syllable estimator *)

Lemma lower_char_letter c : is_az (lower_char c) = is_letter c.
Proof. each_char c. Qed.

Lemma existsb_lower w : existsb is_az (lower w) = existsb is_letter w.
Proof.
  induction w as [|c w IH]; [reflexivity|].
  simpl. now rewrite lower_char_letter, IH.
Qed.

Lemma existsb_lstrip s : existsb is_az (lstrip s) = existsb is_az s.
Proof.
  induction s as [|c s IH]; [reflexivity|]. simpl.
  destruct (is_space c) eqn:E; [|reflexivity].
  rewrite IH. destruct (is_az c) eqn:Ea; [|reflexivity].
  apply is_az_not_space in Ea. congruence.
Qed.

Lemma existsb_rstrip s : existsb is_az (rstrip s) = existsb is_az s.
Proof.
  induction s as [|c s IH]; [reflexivity|]. simpl.
  destruct (rstrip s) as [|x r].
  - simpl in IH. rewrite <- IH.
    destruct (is_space c) eqn:E; simpl; [|reflexivity].
    destruct (is_az c) eqn:Ea; [|reflexivity].
    apply is_az_not_space in Ea. congruence.
  - change (existsb is_az (c :: x :: r)) with (is_az c || existsb is_az (x :: r)).
    now rewrite IH.
Qed.

Lemma existsb_strip_lower w :
  re_search_az (strip (lower w)) = existsb is_letter w.
Proof.
  unfold re_search_az, strip.
  now rewrite existsb_rstrip, existsb_lstrip, existsb_lower.
Qed.

Lemma lstrip_length s : (length (lstrip s) <= length s)%nat.
Proof.
  induction s as [|c s IH]; [auto|]. simpl.
  destruct (is_space c); simpl; lia.
Qed.

Lemma rstrip_length s : (length (rstrip s) <= length s)%nat.
Proof.
  induction s as [|c s IH]; [auto|]. simpl.
  destruct (rstrip s); [destruct (is_space c)|]; simpl in *; lia.
Qed.

Lemma strip_lower_length w : (length (strip (lower w)) <= length w)%nat.
Proof.
  unfold strip, lower.
  pose proof (rstrip_length (lstrip (map lower_char w))).
  pose proof (lstrip_length (map lower_char w)).
  rewrite length_map in *. lia.
Qed.

Lemma endswith_app (a b suffix : str) :
  length b = length suffix ->
  endswith (a ++ b) suffix
  = if list_eq_dec ascii_dec b suffix then true else false.
Proof.
  intros H. unfold endswith. rewrite length_app, <- H.
  replace (length a + length b - length b)%nat with (length a) by lia.
  rewrite skipn_app, skipn_all, Nat.sub_diag. simpl.
  replace (length b <=? length a + length b)%nat with true
    by (symmetry; apply Nat.leb_le; lia).
  reflexivity.
Qed.

Lemma endswith_short (s suffix : str) :
  (length s < length suffix)%nat -> endswith s suffix = false.
Proof.
  intros H. unfold endswith.
  replace (length suffix <=? length s)%nat with false
    by (symmetry; apply Nat.leb_gt; lia).
  reflexivity.
Qed.

Lemma rev_cons_inv {A} (w : list A) x r : rev w = x :: r -> w = rev r ++ [x].
Proof.
  intros H. apply (f_equal (@rev A)) in H.
  now rewrite rev_involutive in H.
Qed.

Lemma eqb_dec_one (x c : ascii) :
  (if list_eq_dec ascii_dec [x] [c] then true else false) = Ascii.eqb x c.
Proof.
  destruct (Ascii.eqb_spec x c) as [->|N];
    destruct (list_eq_dec ascii_dec _ _) as [E|E]; congruence.
Qed.

Lemma eqb_dec_two (y x a b : ascii) :
  (if list_eq_dec ascii_dec [y; x] [a; b] then true else false)
  = Ascii.eqb y a && Ascii.eqb x b.
Proof.
  destruct (Ascii.eqb_spec y a) as [->|N], (Ascii.eqb_spec x b) as [->|M];
    destruct (list_eq_dec ascii_dec _ _) as [E|E]; simpl; congruence.
Qed.

(** The [endswith] tests and the regular expression of the source pick
    the same words as step 4 of the specification. *)
Lemma silent_e_agree (word : str) :
  (if endswith word (lit "e")
   then if negb (endswith word (lit "le") && re_search_consonant_le word)
        then drop_last word
        else word
   else word)
  = without_silent_e word.
Proof.
  unfold without_silent_e, re_search_consonant_le, drop_last.
  change (lit "e") with ["e"]. change (lit "le") with ["l"; "e"].
  destruct (rev word) as [|x r] eqn:E.
  - apply (f_equal (@rev ascii)) in E. rewrite rev_involutive in E.
    subst. reflexivity.
  - pose proof (rev_cons_inv _ _ _ E) as Hw.
    rewrite Hw at 1. rewrite endswith_app, eqb_dec_one by reflexivity.
    destruct (Ascii.eqb_spec x "e") as [->|Nx]; [|reflexivity].
    destruct r as [|y r].
    + rewrite endswith_short by (subst; simpl; lia). reflexivity.
    + assert (Hw2 : word = rev r ++ [y; "e"])
        by (rewrite Hw; simpl; now rewrite <- app_assoc).
      rewrite Hw2 at 1. rewrite endswith_app, eqb_dec_two by reflexivity.
      simpl (consonant_le_before _). simpl (Ascii.eqb "e" _).
      rewrite andb_true_r, orb_false_r.
      destruct r as [|z r]; [now rewrite andb_false_r|].
      simpl. destruct (Ascii.eqb y "l"); simpl; [|reflexivity].
      now destruct (is_vowel z).
Qed.

Lemma runs_length (s cur : str) :
  length (runs_from is_vowel cur s)
  = (match cur with [] => 0 | _ => 1 end
     + vowel_runs (match cur with [] => false | _ => true end) s)%nat.
Proof.
  revert cur. induction s as [|c s IH]; intros cur.
  - now destruct cur.
  - simpl. destruct (is_vowel c).
    + rewrite IH. destruct cur; simpl; lia.
    + destruct cur; simpl; rewrite IH; simpl; lia.
Qed.

Lemma estimate_syllables_refines (word : str) :
  estimate_syllables word = estimate_syllables_spec word.
Proof.
  unfold estimate_syllables, estimate_syllables_spec.
  rewrite existsb_strip_lower, silent_e_agree.
  set (w := strip (lower word)).
  assert (Hnil : w = [] -> existsb is_letter word = false).
  { intros Hw. rewrite <- existsb_strip_lower. fold w. now rewrite Hw. }
  destruct (existsb is_letter word) eqn:El.
  - destruct w as [|c w'] eqn:Ew; [now specialize (Hnil eq_refl)|].
    simpl (negb true). rewrite orb_false_r. rewrite <- Ew.
    destruct (length w <=? 3)%nat; [reflexivity|].
    unfold re_findall_vowels. rewrite runs_length. simpl (0 + _)%nat.
    destruct (Z.eqb_spec (Z.of_nat (vowel_runs false (without_silent_e w))) 0); lia.
  - simpl. now rewrite orb_true_r.
Qed.

Lemma estimate_syllables_nonneg (word : str) : (0 <= estimate_syllables word)%Z.
Proof.
  rewrite estimate_syllables_refines. unfold estimate_syllables_spec.
  destruct (negb _); [lia|]. destruct (_ <=? _)%nat; lia.
Qed.

(** C4. [estimate_syllables] is the estimator the specification words:
    0 without an alphabetic character (so for the empty string), 1 for
    a word with a letter and at most three characters, and otherwise
    the number of vowel runs, at least 1, of the word without its
    silent final e; "table" keeps its e and counts two. *)
Theorem C4_estimate_syllables_rules :
  (forall w, estimate_syllables w = estimate_syllables_spec w)
  /\ estimate_syllables [] = 0%Z
  /\ (forall w, existsb is_letter w = false -> estimate_syllables w = 0%Z)
  /\ (forall w, (length w <= 3)%nat -> existsb is_letter w = true ->
                estimate_syllables w = 1%Z)
  /\ (forall w, (3 < length (strip (lower w)))%nat -> existsb is_letter w = true ->
                estimate_syllables w
                = Z.max 1 (Z.of_nat (vowel_runs false
                                       (without_silent_e (strip (lower w))))))
  /\ estimate_syllables (lit "a") = 1%Z
  /\ estimate_syllables (lit "the") = 1%Z
  /\ without_silent_e (lit "table") = lit "table"
  /\ estimate_syllables (lit "table") = 2%Z.
Proof.
  split; [exact estimate_syllables_refines|].
  split; [reflexivity|].
  split.
  { intros w H. rewrite estimate_syllables_refines.
    unfold estimate_syllables_spec. now rewrite H. }
  split.
  { intros w Hlen H. rewrite estimate_syllables_refines.
    unfold estimate_syllables_spec. rewrite H. simpl.
    pose proof (strip_lower_length w).
    replace (length (strip (lower w)) <=? 3)%nat with true
      by (symmetry; apply Nat.leb_le; lia).
    reflexivity. }
  split.
  { intros w Hlen H. rewrite estimate_syllables_refines.
    unfold estimate_syllables_spec. rewrite H. simpl.
    replace (length (strip (lower w)) <=? 3)%nat with false
      by (symmetry; apply Nat.leb_gt; lia).
    reflexivity. }
  repeat split; vm_compute; reflexivity.
Qed.

Lemma C4_estimate_syllables_rules_witness :
  estimate_syllables (lit "42") = 0%Z
  /\ estimate_syllables (lit "Fox") = 1%Z
  /\ estimate_syllables (lit "apple")
     = Z.max 1 (Z.of_nat (vowel_runs false
                            (without_silent_e (strip (lower (lit "apple")))))).
Proof.
  destruct C4_estimate_syllables_rules as (_ & _ & H0 & H1 & H2 & _).
  split; [apply H0; reflexivity|].
  split; [apply H1; [simpl; lia|reflexivity]|].
  apply H2; [vm_compute; lia|reflexivity].
Defined.

(** ** The word sampler *)

Lemma set_nth_length {A} (j : nat) (v : A) (pool : list A) :
  length (set_nth j v pool) = length pool.
Proof.
  revert j. induction pool as [|x t IH]; intros [|j]; simpl; auto.
Qed.

Lemma removelast_length {A} (l : list A) : length (removelast l) = pred (length l).
Proof.
  rewrite removelast_firstn_len, length_firstn. lia.
Qed.

Lemma sample_loop_length {A} (k : nat) :
  forall (pool : list A) (g : rng),
    (k <= length pool)%nat -> length (fst (sample_loop k pool g)) = k.
Proof.
  induction k as [|k IH]; intros pool g Hk; [reflexivity|].
  destruct pool as [|x t]; [simpl in Hk; lia|].
  cbn [sample_loop]. unfold randbelow.
  set (j := Z.to_nat _). set (pool' := removelast _).
  specialize (IH pool' (advance g)).
  destruct (sample_loop k pool' (advance g)) as [rest g2].
  simpl in *. rewrite IH; [reflexivity|].
  subst pool'. rewrite removelast_length, set_nth_length. simpl. lia.
Qed.

(** Every sampled word is a word of the population. *)
Lemma set_nth_In {A} (j : nat) (v : A) (pool : list A) (y : A) :
  In y (set_nth j v pool) -> y = v \/ In y pool.
Proof.
  revert j. induction pool as [|x t IH]; intros [|j]; simpl; try tauto.
  - intros [->|H]; auto.
  - intros [->|H]; auto. destruct (IH _ H); auto.
Qed.

Lemma removelast_In {A} (l : list A) (y : A) : In y (removelast l) -> In y l.
Proof.
  rewrite removelast_firstn_len. intros H.
  rewrite <- (firstn_skipn (pred (length l)) l). apply in_or_app. now left.
Qed.

Lemma last_In {A} (l : list A) (x : A) : l <> [] -> In (last l x) l.
Proof.
  intros H. rewrite (app_removelast_last x H) at 2.
  apply in_or_app. right. now left.
Qed.

Lemma sample_loop_In {A} (k : nat) :
  forall (pool : list A) (g : rng) (y : A),
    In y (fst (sample_loop k pool g)) -> In y pool.
Proof.
  induction k as [|k IH]; intros pool g y; [intros []|].
  destruct pool as [|x t]; [intros []|].
  cbn [sample_loop]. unfold randbelow.
  set (pool := x :: t).
  set (j := Z.to_nat _). set (pool' := removelast _).
  specialize (IH pool' (advance g) y).
  destruct (sample_loop k pool' (advance g)) as [rest g2].
  cbn [fst] in *. intros [<-|H].
  - destruct (Nat.lt_ge_cases j (length pool)) as [Hj|Hj].
    + now apply nth_In.
    + rewrite nth_overflow by assumption. now left.
  - apply IH in H. subst pool'.
    apply removelast_In, set_nth_In in H. destruct H as [->|H]; [|exact H].
    apply last_In. discriminate.
Qed.

Lemma py_int_floor (x : Q) : 0 <= x -> py_int x = Qfloor x.
Proof.
  destruct x as [n d]. unfold Qle, py_int, Qfloor. simpl. intros H.
  apply Z.quot_div_nonneg; lia.
Qed.

Lemma keep_count_spec (words : list str) (p : Q) :
  words <> [] -> 0 <= p ->
  keep_count words p
  = Z.max 1 (Qfloor (inject_Z (Z.of_nat (length words)) * p)).
Proof.
  intros Hw Hp. unfold keep_count.
  set (n := Z.of_nat (length words)).
  assert (Hn : (0 < n)%Z) by (destruct words; [contradiction|subst n; simpl; lia]).
  assert (H0 : 0 <= inject_Z n * p).
  { apply Qmult_le_0_compat; [|exact Hp].
    change 0 with (inject_Z 0). rewrite <- Zle_Qle. lia. }
  rewrite (py_int_floor _ H0).
  assert (Hf : (0 <= Qfloor (inject_Z n * p))%Z).
  { rewrite <- (Qfloor_Z 0). now apply Qfloor_resp_le. }
  destruct (Z.eqb_spec (Qfloor (inject_Z n * p)) 0) as [E|E]; cbn [andb].
  - replace (0 <? n)%Z with true by (symmetry; apply Z.ltb_lt; lia). lia.
  - lia.
Qed.

Lemma keep_count_le (words : list str) (p : Q) :
  words <> [] -> 0 <= p -> p <= 1 ->
  (1 <= keep_count words p <= Z.of_nat (length words))%Z.
Proof.
  intros Hw Hp Hp1. rewrite keep_count_spec by assumption.
  set (n := Z.of_nat (length words)).
  assert (Hn : (0 < n)%Z) by (destruct words; [contradiction|subst n; simpl; lia]).
  assert (Hf : (Qfloor (inject_Z n * p) <= n)%Z).
  { rewrite <- (Qfloor_Z n) at 2. apply Qfloor_resp_le.
    rewrite <- (Qmult_1_r (inject_Z n)) at 2.
    apply Qmult_le_l; [|exact Hp1].
    change 0 with (inject_Z 0). rewrite <- Zlt_Qlt. lia. }
  lia.
Qed.

(** The sampler of chop2.py and every later script: on a non-empty word
    sequence and a fraction in (0, 1] it returns, without raising,
    exactly [max(1, floor(n * f))] words; on no words it returns none. *)
Lemma guarded_sampler_size (words : list str) (p : Q) (g : rng) :
  words <> [] -> 0 < p -> p <= 1 ->
  exists sampled_words g',
    sample words (keep_count words p) g = Some (sampled_words, g')
    /\ Z.of_nat (length sampled_words)
       = Z.max 1 (Qfloor (inject_Z (Z.of_nat (length words)) * p)).
Proof.
  intros Hw Hp Hp1.
  pose proof (keep_count_le words p Hw (Qlt_le_weak _ _ Hp) Hp1) as Hk.
  unfold sample.
  replace ((0 <=? keep_count words p) && (keep_count words p <=? Z.of_nat (length words)))%Z
    with true by (symmetry; apply andb_true_iff; split; apply Z.leb_le; lia).
  destruct (sample_loop (Z.to_nat (keep_count words p)) words g) as [sw g'] eqn:E.
  exists sw, g'. split; [reflexivity|].
  rewrite <- keep_count_spec by (auto using Qlt_le_weak).
  pose proof (sample_loop_length (Z.to_nat (keep_count words p)) words g) as Hl.
  rewrite E in Hl. simpl in Hl. rewrite Hl by lia. lia.
Qed.

Lemma guarded_sampler_empty (p : Q) (g : rng) :
  sample (@nil str) (keep_count [] p) g = Some ([], g).
Proof. reflexivity. Qed.

Lemma guarded_sampler_size_witness :
  exists sampled_words g',
    sample (split (lit "the quick brown fox jumps over the lazy dog"))
      (keep_count (split (lit "the quick brown fox jumps over the lazy dog")) (1 # 4))
      counting = Some (sampled_words, g')
    /\ Z.of_nat (length sampled_words)
       = Z.max 1 (Qfloor (inject_Z (Z.of_nat (length
           (split (lit "the quick brown fox jumps over the lazy dog")))) * (1 # 4))).
Proof.
  apply guarded_sampler_size; [vm_compute; discriminate|reflexivity|].
  unfold Qle; simpl; lia.
Defined.

(** C1. chop.py has no floor of one word: for the three words of
    "one two three" and the fraction 3/10 its sampler is asked for
    [int(0.9) = 0] words and the script returns the empty text, where
    the claim (and [keep_count] of every later script) keeps
    [max(1, 0) = 1] word. *)
Theorem C1_chop_sampler_keeps_no_word (g : rng) :
  py_int (inject_Z (Z.of_nat (length (split (lit "one two three")))) * (3 # 10)) = 0%Z
  /\ sample (split (lit "one two three")) 0 g = Some ([], g)
  /\ Chop.randomly_reduce_and_lineate_text (lit "one two three") (3 # 10) g
     = Some ([], g)
  /\ keep_count (split (lit "one two three")) (3 # 10) = 1%Z
  /\ Z.max 1 (Qfloor (inject_Z (Z.of_nat (length (split (lit "one two three"))))
                      * (3 # 10))) = 1%Z.
Proof. repeat split. Qed.

(** ** The retention calculator *)

Lemma Qltb_true (a b : Q) : Qltb a b = true -> a < b.
Proof.
  unfold Qltb. intros H. apply negb_true_iff in H.
  apply Qnot_le_lt. intros Hle. apply Qle_bool_iff in Hle. congruence.
Qed.

Lemma Qltb_false (a b : Q) : Qltb a b = false -> b <= a.
Proof.
  unfold Qltb. intros H. apply negb_false_iff in H. now apply Qle_bool_iff.
Qed.

Ltac split_Qltb :=
  repeat match goal with
         | |- context [Qltb ?a ?b] =>
             let E := fresh "E" in
             destruct (Qltb a b) eqn:E;
             [apply Qltb_true in E | apply Qltb_false in E]
         end.

Ltac split_clamp := unfold clamp01, fmin; split_Qltb; unfold fmax; split_Qltb.

Lemma clamp01_range (x : Q) : 0 <= clamp01 x /\ clamp01 x <= 1.
Proof. split_clamp; split; lra. Qed.

Lemma clamp01_mono (x y : Q) : x <= y -> clamp01 x <= clamp01 y.
Proof. intros H. split_clamp; lra. Qed.

Lemma clamp01_low (x : Q) : x <= 0 -> clamp01 x == 0.
Proof. intros H. split_clamp; lra. Qed.

Lemma clamp01_high (x : Q) : 1 <= x -> clamp01 x == 1.
Proof. intros H. split_clamp; lra. Qed.

Lemma normalized_length_eq (L : Z) :
  normalized_length L == (inject_Z L - 1000) * (1 # 19000).
Proof.
  unfold normalized_length, Qdiv, Z.sub. rewrite inject_Z_plus.
  change (/ inject_Z (20000 + - (1000))) with (1 # 19000).
  change (inject_Z (- (1000))) with (- (1000))%Q. ring.
Qed.

Lemma normalized_length_mono (L1 L2 : Z) :
  (L1 <= L2)%Z -> normalized_length L1 <= normalized_length L2.
Proof.
  intros H. rewrite !normalized_length_eq. rewrite Zle_Qle in H. lra.
Qed.

Lemma normalized_length_low (L : Z) : (L <= 1000)%Z -> normalized_length L <= 0.
Proof.
  intros H. rewrite normalized_length_eq. rewrite Zle_Qle in H.
  change (inject_Z 1000) with 1000%Q in H. lra.
Qed.

Lemma normalized_length_high (L : Z) : (20000 <= L)%Z -> 1 <= normalized_length L.
Proof.
  intros H. rewrite normalized_length_eq. rewrite Zle_Qle in H.
  change (inject_Z 20000) with 20000%Q in H. lra.
Qed.

Lemma random_range (g : rng) : 0 <= fst (random g) /\ fst (random g) < 1.
Proof.
  unfold random. cbn [fst]. unfold Qle, Qlt. cbn [Qnum Qden].
  assert (H : (g O mod 2 ^ 53 < 2 ^ 53)%N) by (apply N.mod_lt; discriminate).
  change (2 ^ 53)%N with (N.pos (2 ^ 53)) in H at 2.
  set (m := (g O mod 2 ^ 53)%N) in *.
  set (P := (2 ^ 53)%positive) in *.
  clearbody m P. lia.
Qed.

Lemma uniform_range (a b : Q) (g : rng) :
  a <= b -> a <= fst (uniform a b g) /\ fst (uniform a b g) <= b.
Proof.
  intros H. unfold uniform.
  pose proof (random_range g) as [H0 H1].
  destruct (random g) as [r g']. cbn [fst] in *.
  split; nra.
Qed.

Section Interpolation.

Variables short_min short_max long_min long_max : Q.
Hypothesis short_ordered : short_min <= short_max.
Hypothesis long_ordered : long_min <= long_max.
Hypothesis min_falls : long_min <= short_min.
Hypothesis max_falls : long_max <= short_max.

Lemma interpolated_claim (L1 L2 : Z) (g : rng) :
  (L1 <= L2)%Z ->
  retention_claim (interpolated short_min long_min) (interpolated short_max long_max)
    (fun L g => uniform (interpolated short_min long_min L)
                  (interpolated short_max long_max L) g)
    short_min short_max long_min long_max L1 L2 g.
Proof.
  intros HL. unfold retention_claim, interpolated, lerp.
  pose proof (clamp01_range (normalized_length L1)) as [Ha Hb].
  pose proof (clamp01_range (normalized_length L2)) as [Hc Hd].
  pose proof (clamp01_mono _ _ (normalized_length_mono _ _ HL)) as Hm.
  set (t1 := clamp01 (normalized_length L1)) in *.
  set (t2 := clamp01 (normalized_length L2)) in *.
  split; [apply uniform_range; nra|].
  split; [split; nra|].
  split; [repeat split; nra|].
  split.
  - intros H. apply normalized_length_low, clamp01_low in H.
    fold t1 in H. rewrite H. split; ring.
  - intros H. apply normalized_length_high, clamp01_high in H.
    fold t1 in H. rewrite H. split; ring.
Qed.

End Interpolation.

(** C5. In chop2.2.py, create_broken_sentences.py and
    sentence_breaker_tight.py, for text lengths [L1 <= L2]: the drawn
    retention fraction lies within the interpolated bounds of its
    length; the bounds at [L2] are not above those at [L1]; they stay
    between the long-text and the short-text range, and are the
    short-text range up to length 1000 and the long-text range from
    length 20000 on. *)
Theorem C5_retention_within_interpolated_bounds (L1 L2 : Z) (g : rng) :
  (L1 <= L2)%Z ->
  retention_claim Chop22.current_min_keep Chop22.current_max_keep
    Chop22.random_keep_percentage
    Chop22.SHORT_TEXT_MIN_KEEP Chop22.SHORT_TEXT_MAX_KEEP
    Chop22.LONG_TEXT_MIN_KEEP Chop22.LONG_TEXT_MAX_KEEP L1 L2 g
  /\ retention_claim CreateBrokenSentences.current_min_keep
       CreateBrokenSentences.current_max_keep
       (fun L => CreateBrokenSentences.calculate_biased_retention L None)
       CreateBrokenSentences.SHORT_TEXT_MIN_KEEP
       CreateBrokenSentences.SHORT_TEXT_MAX_KEEP
       CreateBrokenSentences.LONG_TEXT_MIN_KEEP
       CreateBrokenSentences.LONG_TEXT_MAX_KEEP L1 L2 g
  /\ retention_claim SentenceBreakerTight.current_min_keep
       SentenceBreakerTight.current_max_keep
       (fun L => SentenceBreakerTight.calculate_biased_retention L None)
       SentenceBreakerTight.SHORT_TEXT_MIN_KEEP
       SentenceBreakerTight.SHORT_TEXT_MAX_KEEP
       SentenceBreakerTight.LONG_TEXT_MIN_KEEP
       SentenceBreakerTight.LONG_TEXT_MAX_KEEP L1 L2 g.
Proof.
  intros HL. split; [|split].
  - apply (fun a b c d =>
             interpolated_claim Chop22.SHORT_TEXT_MIN_KEEP Chop22.SHORT_TEXT_MAX_KEEP
               Chop22.LONG_TEXT_MIN_KEEP Chop22.LONG_TEXT_MAX_KEEP a b c d L1 L2 g HL);
      unfold Qle; simpl; lia.
  - apply (fun a b c d =>
             interpolated_claim CreateBrokenSentences.SHORT_TEXT_MIN_KEEP
               CreateBrokenSentences.SHORT_TEXT_MAX_KEEP
               CreateBrokenSentences.LONG_TEXT_MIN_KEEP
               CreateBrokenSentences.LONG_TEXT_MAX_KEEP a b c d L1 L2 g HL);
      unfold Qle; simpl; lia.
  - apply (fun a b c d =>
             interpolated_claim SentenceBreakerTight.SHORT_TEXT_MIN_KEEP
               SentenceBreakerTight.SHORT_TEXT_MAX_KEEP
               SentenceBreakerTight.LONG_TEXT_MIN_KEEP
               SentenceBreakerTight.LONG_TEXT_MAX_KEEP a b c d L1 L2 g HL);
      unfold Qle; simpl; lia.
Qed.

Lemma C5_retention_within_interpolated_bounds_witness :
  retention_claim Chop22.current_min_keep Chop22.current_max_keep
    Chop22.random_keep_percentage
    Chop22.SHORT_TEXT_MIN_KEEP Chop22.SHORT_TEXT_MAX_KEEP
    Chop22.LONG_TEXT_MIN_KEEP Chop22.LONG_TEXT_MAX_KEEP 5000 30000 counting.
Proof.
  apply (C5_retention_within_interpolated_bounds 5000 30000 counting). lia.
Defined.

(** ** Empty input *)

(** C6, as the claim has it, fails for chop2.py: on the empty text its
    output is the notice "(The source file was empty.)" and not the
    empty string. *)
Lemma C6_chop2_empty_input_gives_notice :
  option_map fst (Chop2.randomly_reduce_and_lineate_text [] (1 # 10) zeros)
  = Some (lit "(The source file was empty.)")
  /\ option_map fst (Chop2.randomly_reduce_and_lineate_text [] (1 # 10) zeros)
     <> Some [].
Proof. split; [reflexivity|discriminate]. Qed.

(** C6, amended. On a text without words no stage raises: the
    normalizer returns the empty string for the empty string, [split]
    no words, the sampler no words, the line loops no lines and the
    join the empty string; create_broken_sentences.py,
    sentence_breaker_tight.py and chop.py return the empty string,
    while chop2.py and chop2.2.py return their notice before any
    sampling, and [process_file] skips the file. *)
Theorem C6_no_words_no_exception (text : str) (p : Q) (g : rng) :
  split text = [] ->
  (Chop22.clean_text [] = [] /\ SentenceBreakerTight.clean_text [] = []
   /\ split [] = []
   /\ sample (@nil str) (keep_count [] p) g = Some ([], g)
   /\ Chop22.lineate [] = []
   /\ (forall mn mx, CreateBrokenSentences.lineate mn mx [] = [])
   /\ fst (SentenceBreakerTight.lineate [] g) = []
   /\ join newline [] = [])
  /\ (forall mn mx,
        CreateBrokenSentences.create_broken_sentence_text text p mn mx g
        = Some ([], g))
  /\ SentenceBreakerTight.create_broken_sentence_text text p g = Some ([], g)
  /\ Chop.randomly_reduce_and_lineate_text text p g = Some ([], g)
  /\ Chop2.randomly_reduce_and_lineate_text text p g
     = Some (lit "(The source file was empty.)", g)
  /\ Chop22.randomly_reduce_and_lineate_text text p g
     = Some (lit "(The source file was empty or had no words after cleaning.)", g)
  /\ (forall fixed, CreateBrokenSentences.process_text [] fixed g
                    = Some (CreateBrokenSentences.Skipped, g)).
Proof.
  intros H.
  split.
  { repeat split. }
  unfold CreateBrokenSentences.create_broken_sentence_text,
    SentenceBreakerTight.create_broken_sentence_text,
    Chop.randomly_reduce_and_lineate_text,
    Chop2.randomly_reduce_and_lineate_text,
    Chop22.randomly_reduce_and_lineate_text.
  rewrite H. repeat split.
Qed.

Lemma C6_no_words_no_exception_witness :
  Chop.randomly_reduce_and_lineate_text (lit "   ") (1 # 10) counting
  = Some ([], counting).
Proof.
  apply (C6_no_words_no_exception (lit "   ") (1 # 10) counting). reflexivity.
Defined.

(** ** A fixed retention *)


(** The amended claim, for every text and every value, follows the
    facts about the sampler it rests on: see "A fixed retention reaches
    the sampler" below. *)

(** ** Splitting what was joined *)

Lemma runs_from_sep (p : ascii -> bool) (a : str) :
  forall (cur : str) (c : ascii) (b : str),
    p c = false ->
    runs_from p cur (a ++ c :: b) = runs_from p cur a ++ runs_from p [] b.
Proof.
  induction a as [|x a IH]; intros cur c b Hc; simpl.
  - rewrite Hc. now destruct cur.
  - destruct (p x); [now apply IH|].
    destruct cur; simpl; now rewrite IH.
Qed.

Lemma runs_from_all (p : ascii -> bool) (w : str) :
  forall cur : str,
    forallb p w = true ->
    runs_from p cur w = match cur ++ w with [] => [] | _ => [cur ++ w] end.
Proof.
  induction w as [|x w IH]; intros cur H; simpl.
  - rewrite app_nil_r. reflexivity.
  - simpl in H. apply andb_true_iff in H as [Hx Hw]. rewrite Hx.
    rewrite IH by assumption. now rewrite <- app_assoc.
Qed.

Lemma split_token (w : str) : token w = true -> split w = [w].
Proof.
  unfold token, split. destruct w as [|c w]; [discriminate|].
  intros H. now rewrite runs_from_all.
Qed.

Lemma split_join (c : ascii) (parts : list str) :
  is_space c = true ->
  split (join [c] parts) = concat (map split parts).
Proof.
  intros Hc. induction parts as [|p rest IH]; [reflexivity|].
  destruct rest as [|q rest].
  - simpl. now rewrite app_nil_r.
  - change (join [c] (p :: q :: rest)) with (p ++ c :: join [c] (q :: rest)).
    unfold split in *. rewrite runs_from_sep by (now rewrite Hc).
    rewrite IH. reflexivity.
Qed.

Lemma split_join_tokens (ws : list str) :
  forallb token ws = true -> split (join space ws) = ws.
Proof.
  intros H. unfold space. rewrite split_join by reflexivity.
  induction ws as [|w ws IH]; [reflexivity|].
  simpl in H. apply andb_true_iff in H as [Hw Hws].
  simpl. rewrite split_token by assumption. simpl. now rewrite IH.
Qed.

(** What [split] returns are tokens. *)
Lemma runs_from_tokens (s : str) :
  forall cur : str,
    forallb (fun c => negb (is_space c)) cur = true ->
    forallb token (runs_from (fun c => negb (is_space c)) cur s) = true.
Proof.
  assert (Htok : forall cur, cur <> [] ->
            forallb (fun c => negb (is_space c)) cur = true -> token cur = true).
  { intros [|c cur] Hne H; [contradiction|exact H]. }
  induction s as [|x s IH]; intros cur Hcur; cbn [runs_from].
  - destruct cur as [|c cur]; [reflexivity|].
    cbn [forallb]. rewrite Htok; [reflexivity|discriminate|exact Hcur].
  - destruct (negb (is_space x)) eqn:Ex.
    + apply IH. rewrite forallb_app, Hcur. cbn [forallb]. now rewrite Ex.
    + destruct cur as [|c cur]; [now apply IH|].
      cbn [forallb]. rewrite IH by reflexivity.
      rewrite Htok; [reflexivity|discriminate|exact Hcur].
Qed.

Lemma split_tokens (s : str) : forallb token (split s) = true.
Proof. now apply runs_from_tokens. Qed.

(** ** The scripts' loops and the instrumented loop *)

Lemma chop22_step_as_limits (st : line_state) (word : str) :
  Chop22.lineate_step st word
  = CreateBrokenSentences.lineate_step 1 Chop22.TARGET_SYLLABLES_PER_LINE st word.
Proof.
  unfold Chop22.lineate_step, CreateBrokenSentences.lineate_step.
  replace (0 <? current_line_syllables st)%Z
    with (1 <=? current_line_syllables st)%Z; [reflexivity|].
  destruct (Z.leb_spec 1 (current_line_syllables st)),
    (Z.ltb_spec 0 (current_line_syllables st)); auto; lia.
Qed.

Lemma chop22_lineate_as_limits (sampled_words : list str) :
  Chop22.lineate sampled_words
  = CreateBrokenSentences.lineate 1 Chop22.TARGET_SYLLABLES_PER_LINE sampled_words.
Proof.
  unfold Chop22.lineate, CreateBrokenSentences.lineate. f_equal.
  generalize line_start. induction sampled_words as [|w ws IH]; intros st.
  - reflexivity.
  - simpl. rewrite chop22_step_as_limits. apply IH.
Qed.

Lemma flush_erase (st : traced_state) :
  flush_lines (erase st) = map render (traced_flush st).
Proof.
  unfold flush_lines, traced_flush, erase. simpl.
  destruct (open_words st); [reflexivity|].
  now rewrite map_app.
Qed.

Lemma fixed_step_erase (mn mx : Z) (st : traced_state) (word : str) :
  open_limits st = (mn, mx) ->
  erase (traced_step (fixed_limits mn mx) st word)
  = CreateBrokenSentences.lineate_step mn mx (erase st) word
  /\ open_limits (traced_step (fixed_limits mn mx) st word) = (mn, mx).
Proof.
  intros H. unfold traced_step, CreateBrokenSentences.lineate_step, erase.
  rewrite H. simpl.
  destruct (_ && _); simpl; [|auto].
  split; [|reflexivity]. now rewrite map_app.
Qed.

Lemma fixed_run_erase (mn mx : Z) (ws : list str) :
  forall st : traced_state,
    open_limits st = (mn, mx) ->
    erase (fold_left (traced_step (fixed_limits mn mx)) ws st)
    = fold_left (CreateBrokenSentences.lineate_step mn mx) ws (erase st).
Proof.
  induction ws as [|w ws IH]; intros st H; [reflexivity|].
  simpl. destruct (fixed_step_erase mn mx st w H) as [E1 E2].
  rewrite IH by assumption. now rewrite E1.
Qed.

(** create_broken_sentences.py: its lines are the renderings of the
    instrumented lines under the limits it was called with. *)
Lemma broken_lineate_traced (mn mx : Z) (sampled_words : list str) (g : rng) :
  CreateBrokenSentences.lineate mn mx sampled_words
  = map render (traced_lines (fixed_limits mn mx) sampled_words g).
Proof.
  unfold CreateBrokenSentences.lineate, traced_lines, traced_run.
  rewrite <- flush_erase, fixed_run_erase by reflexivity. reflexivity.
Qed.

(** chop2.2.py: the same, under the limits (1, 10). *)
Lemma chop22_lineate_traced (sampled_words : list str) (g : rng) :
  Chop22.lineate sampled_words
  = map render (traced_lines chop22_limits sampled_words g).
Proof.
  rewrite chop22_lineate_as_limits. apply broken_lineate_traced.
Qed.

Lemma tight_run_erase (ws : list str) :
  forall (st : SentenceBreakerTight.window_state) (ts : traced_state),
    SentenceBreakerTight.lines st = erase ts ->
    SentenceBreakerTight.limits st = open_limits ts ->
    SentenceBreakerTight.gen st = draws ts ->
    let st' := fold_left SentenceBreakerTight.lineate_step ws st in
    let ts' := fold_left
                 (traced_step SentenceBreakerTight.get_random_line_syllable_limits)
                 ws ts in
    SentenceBreakerTight.lines st' = erase ts'
    /\ SentenceBreakerTight.gen st' = draws ts'.
Proof.
  induction ws as [|w ws IH]; intros st ts Hl Hm Hg; [now split|].
  simpl. apply IH.
  - unfold SentenceBreakerTight.lineate_step, traced_step.
    rewrite Hl, Hm, Hg. destruct (open_limits ts) as [mn mx]. simpl.
    destruct (_ && _); [|reflexivity].
    destruct (SentenceBreakerTight.get_random_line_syllable_limits (draws ts)).
    unfold erase. simpl. now rewrite map_app.
  - unfold SentenceBreakerTight.lineate_step, traced_step.
    rewrite Hl, Hm, Hg. destruct (open_limits ts) as [mn mx]. simpl.
    destruct (_ && _); [|reflexivity].
    now destruct (SentenceBreakerTight.get_random_line_syllable_limits (draws ts)).
  - unfold SentenceBreakerTight.lineate_step, traced_step.
    rewrite Hl, Hm, Hg. destruct (open_limits ts) as [mn mx]. simpl.
    destruct (_ && _); [|reflexivity].
    now destruct (SentenceBreakerTight.get_random_line_syllable_limits (draws ts)).
Qed.

(** sentence_breaker_tight.py: the same, under limits drawn anew for
    each line. *)
Lemma tight_lineate_traced (sampled_words : list str) (g : rng) :
  fst (SentenceBreakerTight.lineate sampled_words g)
  = map render (traced_lines SentenceBreakerTight.get_random_line_syllable_limits
                  sampled_words g).
Proof.
  unfold SentenceBreakerTight.lineate, traced_lines, traced_run, traced_start.
  destruct (SentenceBreakerTight.get_random_line_syllable_limits g) as [l0 g0].
  cbn [fst]. rewrite <- flush_erase.
  now destruct (tight_run_erase sampled_words
                  {| SentenceBreakerTight.lines := line_start;
                     SentenceBreakerTight.limits := l0;
                     SentenceBreakerTight.gen := g0 |}
                  {| closed := []; open_words := []; open_syllables := 0;
                     open_limits := l0; draws := g0 |}
                  eq_refl eq_refl eq_refl) as [-> _].
Qed.

(** ** What the line loops keep *)

Lemma line_syllables_app (a b : list str) :
  line_syllables (a ++ b) = (line_syllables a + line_syllables b)%Z.
Proof.
  induction a as [|w a IH]; simpl; [reflexivity|]. rewrite IH. lia.
Qed.

Lemma line_syllables_snoc (a : list str) (w : str) :
  line_syllables (a ++ [w]) = (line_syllables a + estimate_syllables w)%Z.
Proof. rewrite line_syllables_app. simpl. lia. Qed.

Section TracedFacts.

Variable draw : rng -> (Z * Z) * rng.
Variable Q : Z * Z -> Prop.
Hypothesis draw_Q : forall g, Q (fst (draw g)).

Lemma traced_step_words (st : traced_state) (w : str) :
  traced_words (traced_step draw st w) = traced_words st ++ [w].
Proof.
  unfold traced_step, traced_words.
  destruct (_ && _); [destruct (draw (draws st))|]; simpl.
  - rewrite map_app, concat_app. simpl. now rewrite app_nil_r.
  - now rewrite app_assoc.
Qed.

Lemma traced_run_words (ws : list str) :
  forall st, traced_words (fold_left (traced_step draw) ws st)
             = traced_words st ++ ws.
Proof.
  induction ws as [|w ws IH]; intros st; simpl.
  - now rewrite app_nil_r.
  - rewrite IH, traced_step_words, <- app_assoc. reflexivity.
Qed.

Lemma traced_flush_words (st : traced_state) :
  concat (map snd (traced_flush st)) = traced_words st.
Proof.
  unfold traced_flush, traced_words.
  destruct (open_words st) as [|w ws]; [now rewrite app_nil_r|].
  rewrite map_app, concat_app. simpl. now rewrite app_nil_r.
Qed.

Lemma traced_step_inv (st : traced_state) (w : str) :
  traced_inv Q st -> traced_inv Q (traced_step draw st w).
Proof.
  intros (Hs & Hc & Ho & Hq & Hq0 & Hne).
  unfold traced_step, traced_inv.
  destruct (_ && _) eqn:Econd.
  - apply andb_true_iff in Econd as [E1 E2].
    apply Z.ltb_lt in E1. apply Z.leb_le in E2.
    pose proof (draw_Q (draws st)) as Hnew.
    destruct (draw (draws st)) as [new_limits g']. cbn [fst] in Hnew.
    cbn [closed open_words open_syllables open_limits draws].
    split; [simpl; lia|].
    split.
    { apply Forall_app. split; [exact Hc|]. constructor; [|constructor].
      exact Ho. }
    split.
    { intros _.
      destruct (Z_le_gt_dec (estimate_syllables w) (snd new_limits)).
      - left. simpl. lia.
      - right. exists [], w. repeat split; [now left|simpl; lia]. }
    split.
    { apply Forall_app. split; [exact Hq|]. constructor; [|constructor].
      exact Hq0. }
    split; [exact Hnew|].
    intros Hpos. apply Forall_app. split; [now apply Hne|].
    constructor; [|constructor]. cbn [snd]. intros Hnil.
    specialize (Hpos _ Hq0). rewrite Hs, Hnil in E2. simpl in E2. lia.
  - cbn [closed open_words open_syllables open_limits draws].
    split; [rewrite line_syllables_snoc; lia|].
    split; [exact Hc|].
    split; [|tauto].
    intros _. rewrite Hs in Econd.
    destruct (Z_le_gt_dec (line_syllables (open_words st ++ [w]))
                (snd (open_limits st))) as [Hle|Hgt]; [now left|].
    right. exists (open_words st), w.
    split; [reflexivity|]. split; [|lia].
    right. rewrite line_syllables_snoc in Hgt.
    apply andb_false_iff in Econd as [E|E].
    + apply Z.ltb_ge in E. lia.
    + apply Z.leb_gt in E. exact E.
Qed.

Lemma traced_run_inv (ws : list str) :
  forall st, traced_inv Q st -> traced_inv Q (fold_left (traced_step draw) ws st).
Proof.
  induction ws as [|w ws IH]; intros st H; [exact H|].
  simpl. apply IH, traced_step_inv, H.
Qed.

Lemma traced_start_inv (g : rng) : traced_inv Q (traced_start draw g).
Proof.
  unfold traced_start. pose proof (draw_Q g) as H.
  destruct (draw g) as [l0 g0]. cbn [fst] in H.
  unfold traced_inv.
  cbn [closed open_words open_syllables open_limits draws].
  split; [reflexivity|]. split; [constructor|].
  split; [intros C; now elim C|]. split; [constructor|].
  split; [exact H|]. intros _. constructor.
Qed.

(** The produced lines: they obey the budget rule, their limits
    satisfy [Q], their words are the sampled words in order, and none
    is empty when every minimum is at least 1. *)
Lemma traced_lines_facts (ws : list str) (g : rng) :
  lines_within_budget (traced_lines draw ws g)
  /\ Forall (fun l => Q (fst l)) (traced_lines draw ws g)
  /\ concat (map snd (traced_lines draw ws g)) = ws
  /\ ((forall lim, Q lim -> (1 <= fst lim)%Z) ->
      Forall (fun l => snd l <> []) (traced_lines draw ws g)).
Proof.
  unfold traced_lines.
  pose proof (traced_run_inv ws _ (traced_start_inv g)) as Hinv.
  fold (traced_run draw ws g) in Hinv.
  split; [|split; [|split]].
  - destruct Hinv as (_ & Hc & Ho & _). unfold traced_flush.
    destruct (open_words (traced_run draw ws g)) eqn:E; [exact Hc|].
    apply Forall_app. split; [exact Hc|]. constructor; [|constructor].
    intros _. apply Ho. discriminate.
  - destruct Hinv as (_ & _ & _ & Hq & Hq0 & _). unfold traced_flush.
    destruct (open_words (traced_run draw ws g)); [exact Hq|].
    apply Forall_app. split; [exact Hq|]. now constructor.
  - rewrite traced_flush_words. unfold traced_run.
    rewrite traced_run_words. unfold traced_start, traced_words.
    now destruct (draw g).
  - intros Hpos. destruct Hinv as (_ & _ & _ & _ & _ & Hne).
    unfold traced_flush.
    destruct (open_words (traced_run draw ws g)); [now apply Hne|].
    apply Forall_app. split; [now apply Hne|].
    constructor; [discriminate|constructor].
Qed.

End TracedFacts.

Lemma random_limits_proper (g : rng) :
  proper_limits (fst (SentenceBreakerTight.get_random_line_syllable_limits g)).
Proof.
  unfold SentenceBreakerTight.get_random_line_syllable_limits, proper_limits.
  destruct (uniform _ _ g) as [m g1].
  destruct (randint _ _ g1) as [d1 g2].
  destruct (randint _ _ g2) as [d2 g3].
  cbn [fst snd]. lia.
Qed.

(** ** The line packer: budgets *)

(** C2, as the claim has it, fails under both policies. With the limits
    6 and 12 of create_broken_sentences.py, "university" (5 syllables)
    leaves the line under its minimum, so "internationalization" (8) is
    appended: one line of two words and 13 syllables. With the ceiling
    10 of chop2.2.py, "1" counts no syllable, so the line still passes
    for empty when a word of 13 syllables arrives. *)
Lemma C2_line_over_budget_with_two_words :
  (CreateBrokenSentences.lineate 6 12
     [lit "university"; lit "internationalization"]
   = [lit "university internationalization"]
   /\ ~ budget_rule_claimed 12 [lit "university"; lit "internationalization"])
  /\ (Chop22.lineate [lit "1"; lit "supercalifragilisticexpialidocious"]
      = [lit "1 supercalifragilisticexpialidocious"]
      /\ ~ budget_rule_claimed 10
             [lit "1"; lit "supercalifragilisticexpialidocious"]).
Proof.
  split; (split; [vm_compute; reflexivity|]).
  - intros [H|(w & H & _)]; [|discriminate H].
    vm_compute in H. now apply H.
  - intros [H|(w & H & _)]; [|discriminate H].
    vm_compute in H. now apply H.
Qed.

(** The lines of the three scripts, with their words and limits. *)
Lemma lineate_packed
    (sampled_words : list str) (min_syllables max_syllables : Z) (g : rng) :
  packed_as (Chop22.lineate sampled_words) sampled_words
    (fun lim => lim = (1, Chop22.TARGET_SYLLABLES_PER_LINE)%Z)
    (traced_lines chop22_limits sampled_words g)
  /\ packed_as (CreateBrokenSentences.lineate min_syllables max_syllables sampled_words)
       sampled_words (fun lim => lim = (min_syllables, max_syllables))
       (traced_lines (fixed_limits min_syllables max_syllables) sampled_words g)
  /\ packed_as (fst (SentenceBreakerTight.lineate sampled_words g))
       sampled_words proper_limits
       (traced_lines SentenceBreakerTight.get_random_line_syllable_limits
          sampled_words g).
Proof.
  unfold packed_as. split; [|split].
  - split; [apply chop22_lineate_traced|].
    destruct (traced_lines_facts chop22_limits
                (fun lim => lim = (1, Chop22.TARGET_SYLLABLES_PER_LINE)%Z)
                (fun _ => eq_refl) sampled_words g) as (H1 & H2 & H3 & _).
    auto.
  - split; [apply broken_lineate_traced|].
    destruct (traced_lines_facts (fixed_limits min_syllables max_syllables)
                (fun lim => lim = (min_syllables, max_syllables))
                (fun _ => eq_refl) sampled_words g) as (H1 & H2 & H3 & _).
    auto.
  - split; [apply tight_lineate_traced|].
    destruct (traced_lines_facts SentenceBreakerTight.get_random_line_syllable_limits
                proper_limits random_limits_proper sampled_words g)
      as (H1 & H2 & H3 & _).
    auto.
Qed.

(** C2, amended. Under the fixed ceiling of chop2.2.py (limits 1 and
    10), the limits given to create_broken_sentences.py and the limits
    sentence_breaker_tight.py draws for each line, every produced line
    with words is within its maximum, or is over it by its last word
    alone, appended while the line was empty or under its minimum; the
    lines hold every sampled word, in order. *)
Theorem C2_lines_within_budget_or_last_word_over
    (sampled_words : list str) (min_syllables max_syllables : Z) (g : rng) :
  packed_as (Chop22.lineate sampled_words) sampled_words
    (fun lim => lim = (1, Chop22.TARGET_SYLLABLES_PER_LINE)%Z)
    (traced_lines chop22_limits sampled_words g)
  /\ packed_as (CreateBrokenSentences.lineate min_syllables max_syllables sampled_words)
       sampled_words (fun lim => lim = (min_syllables, max_syllables))
       (traced_lines (fixed_limits min_syllables max_syllables) sampled_words g)
  /\ packed_as (fst (SentenceBreakerTight.lineate sampled_words g))
       sampled_words proper_limits
       (traced_lines SentenceBreakerTight.get_random_line_syllable_limits
          sampled_words g).
Proof. apply lineate_packed. Qed.

(** ** The line packer: words *)

Lemma rendered_words (traced : list ((Z * Z) * list str)) :
  forallb token (concat (map snd traced)) = true ->
  words_of_lines (map render traced) = concat (map snd traced).
Proof.
  unfold words_of_lines.
  induction traced as [|l t IH]; intros H; [reflexivity|].
  simpl in H. rewrite forallb_app in H. apply andb_true_iff in H as [Hl Ht].
  simpl. unfold render at 1. rewrite split_join_tokens by assumption.
  now rewrite IH.
Qed.

Lemma rendered_words_preserved (sampled_words : list str)
    (traced : list ((Z * Z) * list str)) :
  forallb token sampled_words = true ->
  concat (map snd traced) = sampled_words ->
  words_preserved sampled_words (map render traced).
Proof.
  intros Htok Hc. unfold words_preserved.
  assert (H : words_of_lines (map render traced) = sampled_words).
  { rewrite rendered_words; [exact Hc|]. now rewrite Hc. }
  unfold newline. rewrite split_join by reflexivity.
  fold (words_of_lines (map render traced)). rewrite H.
  repeat split; auto.
Qed.

(** C3. For sampled words as [split] yields them, the lines of
    chop2.2.py, of create_broken_sentences.py and of
    sentence_breaker_tight.py hold exactly the sampled words: the words
    read back from the lines (and from the joined text) are the sampled
    words in order, so their number and their multiset are the same. *)
Theorem C3_line_packer_preserves_words
    (sampled_words : list str) (min_syllables max_syllables : Z) (g : rng) :
  forallb token sampled_words = true ->
  words_preserved sampled_words (Chop22.lineate sampled_words)
  /\ words_preserved sampled_words
       (CreateBrokenSentences.lineate min_syllables max_syllables sampled_words)
  /\ words_preserved sampled_words (fst (SentenceBreakerTight.lineate sampled_words g)).
Proof.
  intros Htok.
  destruct (lineate_packed sampled_words min_syllables max_syllables g)
    as ((E1 & _ & _ & W1) & (E2 & _ & _ & W2) & (E3 & _ & _ & W3)).
  rewrite E1, E2, E3.
  repeat split; try (apply rendered_words_preserved; assumption).
Qed.

Lemma C3_line_packer_preserves_words_witness :
  words_preserved
    [lit "lazy"; lit "internationalization"; lit "dog"; lit "university"; lit "fox"]
    (Chop22.lineate
       [lit "lazy"; lit "internationalization"; lit "dog"; lit "university"; lit "fox"]).
Proof.
  refine (proj1 (C3_line_packer_preserves_words
                   [lit "lazy"; lit "internationalization"; lit "dog";
                    lit "university"; lit "fox"]
                   6 12 counting _)).
  vm_compute. reflexivity.
Defined.

(** The words that reach the line loops are tokens: [split] yields
    tokens and the sampler returns words of its population. *)
Lemma sampled_words_are_tokens (text : str) (k : Z) (g g' : rng)
    (sampled_words : list str) :
  sample (split text) k g = Some (sampled_words, g') ->
  forallb token sampled_words = true.
Proof.
  unfold sample. destruct (_ && _); [|discriminate].
  intros H. injection H as H.
  apply forallb_forall. intros w Hw.
  pose proof (sample_loop_In (Z.to_nat k) (split text) g w) as Hin.
  rewrite H in Hin. specialize (Hin Hw).
  pose proof (split_tokens text) as Ht.
  rewrite forallb_forall in Ht. now apply Ht.
Qed.

(** ** The line packer: no empty line *)

Lemma not_space_not_newline (c : ascii) :
  negb (is_space c) = true -> negb (Ascii.eqb c "010") = true.
Proof. each_char c. Qed.

Lemma token_no_newline (w : str) :
  token w = true -> forallb (fun c => negb (Ascii.eqb c "010")) w = true.
Proof.
  unfold token. destruct w as [|c w]; [discriminate|]. intros H.
  apply forallb_forall. intros x Hx. rewrite forallb_forall in H.
  now apply not_space_not_newline, H.
Qed.

Lemma join_space_no_newline (ws : list str) :
  forallb token ws = true ->
  forallb (fun c => negb (Ascii.eqb c "010")) (join space ws) = true.
Proof.
  induction ws as [|w ws IH]; intros H; [reflexivity|].
  cbn [forallb] in H. apply andb_true_iff in H as [Hw Hws].
  destruct ws as [|v ws]; [now apply token_no_newline|].
  change (join space (w :: v :: ws)) with (w ++ " " :: join space (v :: ws)).
  rewrite forallb_app, token_no_newline by assumption.
  cbn [forallb]. now rewrite IH.
Qed.

Lemma text_lines_from_no_newline (l : str) :
  forall cur r : str,
    forallb (fun c => negb (Ascii.eqb c "010")) l = true ->
    text_lines_from cur (l ++ r) = text_lines_from (cur ++ l) r.
Proof.
  induction l as [|c l IH]; intros cur r H.
  - now rewrite app_nil_r.
  - cbn [forallb] in H. apply andb_true_iff in H as [Hc Hl].
    simpl. apply negb_true_iff in Hc. rewrite Hc.
    rewrite IH by assumption. now rewrite <- app_assoc.
Qed.

Lemma text_lines_join (lines : list str) :
  Forall proper_line lines -> text_lines (join newline lines) = lines.
Proof.
  unfold text_lines.
  induction lines as [|l ls IH]; intros H; [reflexivity|].
  inversion H as [|? ? (Hne & _ & Hnl) Hls]; subst.
  destruct ls as [|m ls].
  - simpl. rewrite <- (app_nil_r l) at 1.
    rewrite text_lines_from_no_newline by assumption.
    simpl. now destruct l.
  - change (join newline (l :: m :: ls)) with (l ++ "010" :: join newline (m :: ls)).
    rewrite text_lines_from_no_newline by assumption.
    change (text_lines_from ([] ++ l) ("010" :: join newline (m :: ls)))
      with (l :: text_lines_from [] (join newline (m :: ls))).
    now rewrite IH.
Qed.

Lemma rendered_proper_line (ws : list str) :
  ws <> [] -> forallb token ws = true -> proper_line (join space ws).
Proof.
  intros Hne Htok.
  assert (Hs : split (join space ws) = ws) by now apply split_join_tokens.
  repeat split.
  - intros E. rewrite E in Hs. now symmetry in Hs.
  - now rewrite Hs.
  - now apply join_space_no_newline.
Qed.

Lemma rendered_no_empty_line (traced : list ((Z * Z) * list str)) :
  forallb token (concat (map snd traced)) = true ->
  Forall (fun l => snd l <> []) traced ->
  no_empty_line (map render traced).
Proof.
  intros Htok Hne.
  assert (H : Forall proper_line (map render traced)).
  { induction traced as [|l t IH]; [constructor|].
    simpl in Htok. rewrite forallb_app in Htok.
    apply andb_true_iff in Htok as [Hl Ht].
    inversion Hne; subst. constructor; [|now apply IH].
    now apply rendered_proper_line. }
  split; [exact H|now apply text_lines_join].
Qed.

Lemma randint_range (a b : Z) (g : rng) :
  (a <= b)%Z -> (a <= fst (randint a b g) <= b)%Z.
Proof.
  intros H. unfold randint, randbelow. cbn [fst].
  pose proof (Z.mod_pos_bound (Z.of_N (g O)) (b - a + 1)). lia.
Qed.

Lemma forallb_firstn {A} (p : A -> bool) (n : nat) (l : list A) :
  forallb p l = true -> forallb p (firstn n l) = true.
Proof.
  intros H. rewrite <- (firstn_skipn n l), forallb_app in H.
  apply andb_true_iff in H. tauto.
Qed.

Lemma forallb_skipn {A} (p : A -> bool) (n : nat) (l : list A) :
  forallb p l = true -> forallb p (skipn n l) = true.
Proof.
  intros H. rewrite <- (firstn_skipn n l), forallb_app in H.
  apply andb_true_iff in H. tauto.
Qed.

(** The slicing loop of chop.py and chop2.py ends within the fuel it is
    given, and every line it adds is a proper line. *)
Lemma slice_loop_lines (sampled_words : list str) (fuel : nat) :
  forallb token sampled_words = true ->
  forall (i : nat) (acc : list str) (g : rng),
    (length sampled_words - i < fuel)%nat ->
    Forall proper_line acc ->
    exists lines g',
      slice_loop fuel 3 7 sampled_words i acc g = Some (lines, g')
      /\ Forall proper_line lines.
Proof.
  intros Htok. induction fuel as [|fuel IH]; intros i acc g Hf Hacc; [lia|].
  cbn [slice_loop]. destruct (Nat.ltb_spec i (length sampled_words)) as [Hi|Hi].
  - pose proof (randint_range 3 7 g ltac:(lia)) as Hr.
    destruct (randint 3 7 g) as [n g1]. cbn [fst] in Hr.
    apply IH; [lia|].
    apply Forall_app. split; [exact Hacc|]. constructor; [|constructor].
    apply rendered_proper_line.
    + destruct (skipn i sampled_words) as [|w ws] eqn:E.
      * apply (f_equal (@length str)) in E. rewrite length_skipn in E.
        simpl in E. lia.
      * destruct (Z.to_nat n) eqn:En; [lia|]. discriminate.
    + now apply forallb_firstn, forallb_skipn.
  - exists acc, g. now split.
Qed.

(** The three syllable loops and the slicing loop, on sampled tokens. *)
Lemma lineate_no_empty_line
    (sampled_words : list str) (min_syllables max_syllables : Z) (g : rng) :
  forallb token sampled_words = true ->
  (1 <= min_syllables)%Z ->
  no_empty_line (Chop22.lineate sampled_words)
  /\ no_empty_line
       (CreateBrokenSentences.lineate min_syllables max_syllables sampled_words)
  /\ no_empty_line (fst (SentenceBreakerTight.lineate sampled_words g))
  /\ exists lines g',
       slice_loop (S (length sampled_words)) 3 7 sampled_words 0 [] g
       = Some (lines, g')
       /\ no_empty_line lines.
Proof.
  intros Htok Hmin.
  rewrite (chop22_lineate_traced sampled_words g).
  rewrite (broken_lineate_traced min_syllables max_syllables sampled_words g).
  rewrite tight_lineate_traced.
  split; [|split; [|split]].
  - destruct (traced_lines_facts chop22_limits
                (fun lim => lim = (1, Chop22.TARGET_SYLLABLES_PER_LINE)%Z)
                (fun _ => eq_refl) sampled_words g) as (_ & _ & Hw & Hne).
    apply rendered_no_empty_line; [now rewrite Hw|].
    apply Hne. intros lim ->. simpl. lia.
  - destruct (traced_lines_facts (fixed_limits min_syllables max_syllables)
                (fun lim => lim = (min_syllables, max_syllables))
                (fun _ => eq_refl) sampled_words g) as (_ & _ & Hw & Hne).
    apply rendered_no_empty_line; [now rewrite Hw|].
    apply Hne. intros lim ->. exact Hmin.
  - destruct (traced_lines_facts SentenceBreakerTight.get_random_line_syllable_limits
                proper_limits random_limits_proper sampled_words g)
      as (_ & _ & Hw & Hne).
    apply rendered_no_empty_line; [now rewrite Hw|].
    apply Hne. intros lim H. apply H.
  - destruct (slice_loop_lines sampled_words (S (length sampled_words)) Htok
                0 [] g ltac:(lia) (Forall_nil _)) as (lines & g' & E & H).
    exists lines, g'. split; [exact E|].
    split; [exact H|now apply text_lines_join].
Qed.

(** C10. On sampled words as [split] yields them, every line of the
    syllable loops (chop2.2.py; create_broken_sentences.py called with a
    minimum of at least 1, as its default 6 is;
    sentence_breaker_tight.py) and of the slicing loop of chop.py holds
    at least one word and is not the empty string; the slicing loop
    ends; and the lines of the newline-joined text are these lines, so
    none of them is empty. *)
Theorem C10_no_empty_line
    (sampled_words : list str) (min_syllables max_syllables : Z) (g : rng) :
  forallb token sampled_words = true ->
  (1 <= min_syllables)%Z ->
  no_empty_line (Chop22.lineate sampled_words)
  /\ no_empty_line
       (CreateBrokenSentences.lineate min_syllables max_syllables sampled_words)
  /\ no_empty_line (fst (SentenceBreakerTight.lineate sampled_words g))
  /\ exists lines g',
       slice_loop (S (length sampled_words)) 3 7 sampled_words 0 [] g
       = Some (lines, g')
       /\ no_empty_line lines.
Proof. apply lineate_no_empty_line. Qed.

Lemma C10_no_empty_line_witness :
  no_empty_line
    (CreateBrokenSentences.lineate 6 12
       [lit "lazy"; lit "internationalization"; lit "dog"; lit "university"; lit "fox"]).
Proof.
  refine (proj1 (proj2 (C10_no_empty_line
                          [lit "lazy"; lit "internationalization"; lit "dog";
                           lit "university"; lit "fox"]
                          6 12 counting _ _))).
  - vm_compute. reflexivity.
  - lia.
Defined.

(** ** The obfuscated words *)

(** C9, as the claim has it, fails: "trained" and "trainee", two words
    the flicker output can hold, get the same obfuscated form (the nine
    characters kept of twelve do not reach the last two bits), so no
    decoder gives the word back. *)
Lemma C9_encrypt_word_not_injective :
  SentenceBreakerTight.clean_text (lit "trained trainee") = lit "trained trainee"
  /\ SentenceBreakerTight.encrypt_word (lit "trained") = lit "dHJhaW5lZ"
  /\ SentenceBreakerTight.encrypt_word (lit "trainee") = lit "dHJhaW5lZ"
  /\ lit "trained" <> lit "trainee"
  /\ ~ exists decode : str -> str,
         forall w, decode (SentenceBreakerTight.encrypt_word w) = w.
Proof.
  split; [vm_compute; reflexivity|].
  split; [vm_compute; reflexivity|].
  split; [vm_compute; reflexivity|].
  split; [discriminate|].
  intros [decode H].
  pose proof (H (lit "trained")) as H1. pose proof (H (lit "trainee")) as H2.
  change (SentenceBreakerTight.encrypt_word (lit "trainee"))
    with (SentenceBreakerTight.encrypt_word (lit "trained")) in H2.
  rewrite H1 in H2. discriminate H2.
Qed.

Lemma code_bounded (c : ascii) : (code c < 256)%N.
Proof. apply N_ascii_bounded. Qed.

Lemma ascii_of_code (c : ascii) (v : N) : v = code c -> ascii_of_N v = c.
Proof. intros ->. apply ascii_N_embedding. Qed.

Lemma digit_table :
  forallb (fun v => (Decode.value (PyBase64.digit v) =? v)%N
                    && negb (Ascii.eqb (PyBase64.digit v) "="))
    (map N.of_nat (seq 0 64)) = true.
Proof. vm_compute. reflexivity. Qed.

Lemma digit_facts (v : N) :
  (v < 64)%N ->
  Decode.value (PyBase64.digit v) = v
  /\ negb (Ascii.eqb (PyBase64.digit v) "=") = true.
Proof.
  intros Hv. pose proof digit_table as H. rewrite forallb_forall in H.
  specialize (H v). rewrite andb_true_iff, N.eqb_eq in H. apply H.
  rewrite <- (N2Nat.id v). apply in_map, in_seq. lia.
Qed.

Lemma value_digit (v : N) : (v < 64)%N -> Decode.value (PyBase64.digit v) = v.
Proof. intros H. now apply digit_facts. Qed.

Lemma digit_not_pad (v : N) :
  (v < 64)%N -> negb (Ascii.eqb (PyBase64.digit v) "=") = true.
Proof. intros H. now apply digit_facts. Qed.

Lemma encode_ascii (word : str) :
  forallb is_ascii word = true -> PyBase64.encode word = word.
Proof.
  unfold PyBase64.encode.
  induction word as [|c w IH]; intros H; [reflexivity|].
  cbn [forallb] in H. apply andb_true_iff in H as [Hc Hw].
  cbn [flat_map]. unfold is_ascii in Hc. rewrite Hc, IH by assumption.
  reflexivity.
Qed.

Ltac six_bits :=
  repeat match goal with
         | c : ascii |- _ =>
             lazymatch goal with
             | _ : (code c < 256)%N |- _ => fail
             | _ => pose proof (code_bounded c)
             end
         end;
  zify; Z.to_euclidean_division_equations; lia.

Ltac read_back :=
  unfold Decode.decode_word;
  cbn [filter];
  repeat rewrite digit_not_pad by six_bits;
  cbn [filter Ascii.eqb Bool.eqb negb map];
  repeat rewrite value_digit by six_bits;
  cbn [Decode.bytes_of];
  repeat (f_equal; try (apply ascii_of_code; six_bits)).

(** A word of at most six ASCII characters is read back from its
    obfuscated form. *)
Lemma decode_encrypt_word (w : str) :
  (length w <= 6)%nat ->
  forallb is_ascii w = true ->
  Decode.decode_word (SentenceBreakerTight.encrypt_word w) = w.
Proof.
  intros Hlen Hascii.
  unfold SentenceBreakerTight.encrypt_word.
  rewrite (encode_ascii _ Hascii). clear Hascii.
  destruct w as [|a [|b [|c [|d [|e [|f [|x r]]]]]]];
    [reflexivity| | | | | | |simpl in Hlen; lia];
    cbn [PyBase64.b64encode length Nat.ltb Nat.leb Nat.add firstn];
    read_back.
Qed.

(** C9, amended. The obfuscated form of a word is the first
    [len(word) + 2] characters of its Base64 text; a word of at most six
    ASCII characters is recovered from it by [decode_word], so on those
    words the obfuscation is injective. (From seven characters on it is
    not: see [C9_encrypt_word_not_injective].) *)
Theorem C9_short_words_are_recoverable (w1 w2 : str) :
  (length w1 <= 6)%nat -> forallb is_ascii w1 = true ->
  (length w2 <= 6)%nat -> forallb is_ascii w2 = true ->
  Decode.decode_word (SentenceBreakerTight.encrypt_word w1) = w1
  /\ (w1 <> [] ->
      SentenceBreakerTight.encrypt_word w1
      = firstn (length w1 + 2) (PyBase64.b64encode (PyBase64.encode w1)))
  /\ (SentenceBreakerTight.encrypt_word w1 = SentenceBreakerTight.encrypt_word w2 ->
      w1 = w2).
Proof.
  intros L1 A1 L2 A2.
  split; [now apply decode_encrypt_word|].
  split.
  - intros Hne. unfold SentenceBreakerTight.encrypt_word.
    destruct w1 as [|c w]; [contradiction|].
    destruct (_ <? _)%nat eqn:E; [reflexivity|].
    apply Nat.ltb_ge in E. now rewrite firstn_all2 by lia.
  - intros H.
    rewrite <- (decode_encrypt_word w1 L1 A1), <- (decode_encrypt_word w2 L2 A2).
    now rewrite H.
Qed.

Lemma C9_short_words_are_recoverable_witness :
  Decode.decode_word (SentenceBreakerTight.encrypt_word (lit "hello")) = lit "hello".
Proof.
  refine (proj1 (C9_short_words_are_recoverable (lit "hello") (lit "dog") _ _ _ _));
    first [reflexivity | simpl; lia].
Defined.


(** * Further properties *)

(** ** The cleaned text and its words *)

Lemma join_runs (d : bool) (s : str) :
  forall cur : str,
    forallb (allowed d) s = true ->
    no_double_space s = true ->
    ends_with_space s = false ->
    (cur = [] -> starts_with_space s = false) ->
    join space (runs_from (fun c => negb (is_space c)) cur s) = cur ++ s.
Proof.
  induction s as [|c s IH]; intros cur Ha Hn He Hs.
  - cbn [runs_from]. rewrite app_nil_r. now destruct cur.
  - cbn [forallb] in Ha. apply andb_true_iff in Ha as [Hc Ha].
    rewrite no_double_space_cons in Hn. apply andb_true_iff in Hn as [Hn1 Hn2].
    assert (He' : ends_with_space s = false).
    { destruct s as [|x r]; [reflexivity|].
      now rewrite ends_with_space_cons in He by discriminate. }
    cbn [runs_from]. destruct (is_space c) eqn:Esp; cbn [negb].
    + destruct cur as [|a cur]; [specialize (Hs eq_refl); simpl in Hs; congruence|].
      assert (Hstart : starts_with_space s = false).
      { simpl in Hn1. now destruct (starts_with_space s). }
      specialize (IH [] Ha Hn2 He' (fun _ => Hstart)). cbn [app] in IH.
      rewrite (allowed_space_is_space _ _ Hc Esp).
      destruct (runs_from (fun c0 => negb (is_space c0)) [] s) as [|r R] eqn:ER.
      * simpl in IH. subst s. unfold ends_with_space in He. simpl in He. congruence.
      * change (join space ((a :: cur) :: r :: R))
          with ((a :: cur) ++ " " :: join space (r :: R)).
        now rewrite IH.
    + rewrite IH; auto.
      * now rewrite <- app_assoc.
      * intros E. now destruct cur.
Qed.

Lemma join_split_normalized (d : bool) (s : str) :
  normalized d s -> join space (split s) = s.
Proof.
  intros (Ha & Hn & Hs & He). unfold split.
  now rewrite (join_runs d s [] Ha Hn He (fun _ => Hs)).
Qed.

(** X1. The cleaned text is its words joined by single spaces:
    [' '.join(clean_text(x).split()) == clean_text(x)], with digits kept
    and with letters only. *)
Theorem X1_clean_text_is_its_words_joined (x : str) :
  join space (split (Chop22.clean_text x)) = Chop22.clean_text x
  /\ join space (split (SentenceBreakerTight.clean_text x))
     = SentenceBreakerTight.clean_text x.
Proof.
  change Chop22.clean_text with (normalize true).
  rewrite clean_text_letters_only.
  split; eapply join_split_normalized, normalize_normalized.
Qed.

Lemma runs_from_nil (p : ascii -> bool) (s : str) :
  forall cur : str,
    runs_from p cur s = [] <-> cur = [] /\ forallb (fun c => negb (p c)) s = true.
Proof.
  induction s as [|c s IH]; intros cur; cbn [runs_from forallb].
  - destruct cur; split; intros H; try tauto; try discriminate.
    destruct H; discriminate.
  - destruct (p c); cbn [negb andb].
    + rewrite IH. split; [intros [E _]; now destruct cur|intros [_ E]; discriminate].
    + destruct cur as [|a cur]; [apply IH|].
      split; [discriminate|intros [E _]; discriminate].
Qed.

Lemma split_nil_iff (s : str) : split s = [] <-> forallb is_space s = true.
Proof.
  unfold split. rewrite runs_from_nil.
  assert (E : forallb (fun c => negb (negb (is_space c))) s = forallb is_space s).
  { induction s as [|c s IH]; [reflexivity|].
    cbn [forallb]. now rewrite IH, negb_involutive. }
  rewrite E. tauto.
Qed.

Lemma lstrip_nil_iff (s : str) : lstrip s = [] <-> forallb is_space s = true.
Proof.
  induction s as [|c s IH]; [tauto|]. cbn [lstrip forallb].
  destruct (is_space c); [exact IH|]. split; discriminate.
Qed.

Lemma rstrip_nil_iff (s : str) : rstrip s = [] <-> forallb is_space s = true.
Proof.
  induction s as [|c s IH]; [tauto|]. cbn [rstrip forallb].
  destruct (rstrip s) as [|x r].
  - destruct (is_space c); cbn [andb].
    + split; [intros _; now apply IH|reflexivity].
    + split; discriminate.
  - split; [discriminate|]. intros H. apply andb_true_iff in H as [_ H].
    apply IH in H. discriminate.
Qed.

Lemma strip_nil_iff (s : str) : strip s = [] <-> forallb is_space s = true.
Proof.
  unfold strip. rewrite rstrip_nil_iff. split; intros H.
  - apply lstrip_nil_iff. pose proof (lstrip_starts s) as Hs.
    destruct (lstrip s) as [|c r]; [reflexivity|].
    simpl in H, Hs. rewrite Hs in H. discriminate.
  - apply lstrip_nil_iff in H. now rewrite H.
Qed.

Lemma collapse_all_space (s : str) :
  forall b, forallb is_space (collapse_from b s) = forallb is_space s.
Proof.
  induction s as [|c s IH]; intros b; [reflexivity|].
  cbn [collapse_from forallb]. destruct (is_space c) eqn:E.
  - destruct b; cbn [forallb andb]; now rewrite IH.
  - cbn [forallb]. now rewrite E.
Qed.

Lemma kept_lower_word_char (d : bool) (c : ascii) :
  (if kept d (lower_char c) then is_space (lower_char c) else true)
  = negb (word_char d c).
Proof. destruct d; each_char c. Qed.

Lemma filter_all_space (d : bool) (x : str) :
  forallb is_space (re_sub_delete (kept d) (lower x))
  = negb (existsb (word_char d) x).
Proof.
  unfold re_sub_delete, lower.
  induction x as [|c x IH]; [reflexivity|].
  cbn [map filter existsb]. rewrite negb_orb, <- IH, <- kept_lower_word_char.
  destruct (kept d (lower_char c)); [reflexivity|].
  reflexivity.
Qed.

Lemma normalize_nil_iff (d : bool) (x : str) :
  normalize d x = [] <-> existsb (word_char d) x = false.
Proof.
  unfold normalize, re_sub_collapse.
  rewrite strip_nil_iff, collapse_all_space, filter_all_space.
  now rewrite negb_true_iff.
Qed.

Lemma normalize_no_words_iff (d : bool) (x : str) :
  split (normalize d x) = [] <-> existsb (word_char d) x = false.
Proof.
  rewrite <- normalize_nil_iff, split_nil_iff. split; intros H.
  - apply strip_nil_iff in H.
    pose proof (normalize_normalized d x) as (_ & _ & Hs & He).
    unfold strip in H. now rewrite lstrip_fixed, rstrip_fixed in H.
  - now rewrite H.
Qed.

Lemma lower_word_char_lower (d : bool) (x : str) :
  existsb (lower_word_char d) (lower x) = existsb (word_char d) x.
Proof.
  unfold lower. induction x as [|c x IH]; [reflexivity|].
  cbn [map existsb]. rewrite IH. f_equal. destruct d; each_char c.
Qed.

(** X2. A text is cleaned to the empty string exactly when it has no
    words after cleaning, and exactly when its lower-case form holds no
    character of [[a-z]] (or [[a-z0-9]], where digits are kept). So a
    text with an ASCII letter (or digit) is never cleaned to the empty
    string; and a text of ASCII characters is cleaned to the empty
    string exactly when it holds no letter (or digit). The last is
    stated of ASCII text: [str.lower] takes a few characters beyond
    Latin-1, which the strings here do not hold, to ASCII letters. *)
Theorem X2_clean_text_empty_iff (x : str) :
  ((Chop22.clean_text x = [] <-> split (Chop22.clean_text x) = [])
   /\ (Chop22.clean_text x = []
       <-> existsb (lower_word_char true) (lower x) = false)
   /\ (existsb (word_char true) x = true -> Chop22.clean_text x <> [])
   /\ (forallb is_ascii x = true ->
       (Chop22.clean_text x = [] <-> existsb (word_char true) x = false)))
  /\ ((SentenceBreakerTight.clean_text x = []
       <-> split (SentenceBreakerTight.clean_text x) = [])
      /\ (SentenceBreakerTight.clean_text x = []
          <-> existsb (lower_word_char false) (lower x) = false)
      /\ (existsb (word_char false) x = true
          -> SentenceBreakerTight.clean_text x <> [])
      /\ (forallb is_ascii x = true ->
          (SentenceBreakerTight.clean_text x = []
           <-> existsb (word_char false) x = false))).
Proof.
  change Chop22.clean_text with (normalize true).
  rewrite clean_text_letters_only.
  assert (H : forall d,
             (normalize d x = [] <-> split (normalize d x) = [])
             /\ (normalize d x = [] <-> existsb (lower_word_char d) (lower x) = false)
             /\ (existsb (word_char d) x = true -> normalize d x <> [])
             /\ (forallb is_ascii x = true ->
                 (normalize d x = [] <-> existsb (word_char d) x = false))).
  { intros d. pose proof (normalize_nil_iff d x) as Hn.
    pose proof (normalize_no_words_iff d x) as Hw.
    split; [now rewrite Hn, Hw|].
    split; [now rewrite lower_word_char_lower|].
    split; [|intros _; exact Hn].
    intros Hx E. apply Hn in E. congruence. }
  split; apply H.
Qed.

Lemma X2_clean_text_empty_iff_witness :
  SentenceBreakerTight.clean_text (lit "?! 12") = []
  <-> existsb (word_char false) (lit "?! 12") = false.
Proof.
  refine (proj2 (proj2 (proj2 (proj2
            (X2_clean_text_empty_iff (lit "?! 12"))))) _).
  reflexivity.
Defined.

(** ** The sample is part of the population *)

Lemma set_nth_app {A} (j : nat) (v : A) (a b : list A) :
  (j < length a)%nat -> set_nth j v (a ++ b) = set_nth j v a ++ b.
Proof.
  revert j. induction a as [|x a IH]; intros j H; [simpl in H; lia|].
  destruct j as [|j]; simpl; [reflexivity|].
  rewrite IH by (simpl in H; lia). reflexivity.
Qed.

Lemma set_nth_beyond {A} (u v : A) (a : list A) :
  set_nth (length a) v (a ++ [u]) = a ++ [v].
Proof. induction a as [|x a IH]; simpl; [reflexivity|now rewrite IH]. Qed.

Lemma swap_in_permutation {A} (v x : A) (a : list A) :
  forall j, (j < length a)%nat ->
            Permutation (v :: a) (nth j a x :: set_nth j v a).
Proof.
  induction a as [|y a IH]; intros j H; [simpl in H; lia|].
  destruct j as [|j]; simpl.
  - apply perm_swap.
  - rewrite perm_swap. rewrite (IH j) by (simpl in H; lia). apply perm_swap.
Qed.

(** One round of the selection loop takes one element out of the pool. *)
Lemma pick_permutation {A} (pool : list A) (x : A) (j : nat) :
  (j < length pool)%nat ->
  Permutation pool (nth j pool x :: removelast (set_nth j (last pool x) pool)).
Proof.
  intros Hj.
  assert (Hne : pool <> []) by (destruct pool; [simpl in Hj; lia|discriminate]).
  rewrite (app_removelast_last x Hne) at 1 2 4.
  set (init := removelast pool) in *. set (l := last pool x) in *.
  assert (Hlen : length pool = S (length init)).
  { rewrite (app_removelast_last x Hne). fold init l. rewrite length_app. simpl. lia. }
  destruct (Nat.eq_dec j (length init)) as [->|Hlt].
  - rewrite nth_middle, set_nth_beyond, removelast_last.
    symmetry. apply Permutation_cons_append.
  - assert (Hj' : (j < length init)%nat) by lia.
    rewrite app_nth1, set_nth_app, removelast_last by assumption.
    rewrite <- Permutation_cons_append. now apply swap_in_permutation.
Qed.

Lemma randbelow_index (n : nat) (g : rng) :
  (0 < n)%nat -> (Z.to_nat (fst (randbelow (Z.of_nat n) g)) < n)%nat.
Proof.
  intros H. unfold randbelow. cbn [fst].
  pose proof (Z.mod_pos_bound (Z.of_N (g O)) (Z.of_nat n)). lia.
Qed.

Lemma sample_loop_part {A} (k : nat) :
  forall (pool : list A) (g : rng),
    (k <= length pool)%nat ->
    exists rest, Permutation (fst (sample_loop k pool g) ++ rest) pool.
Proof.
  induction k as [|k IH]; intros pool g Hk; [now exists pool|].
  destruct pool as [|x t]; [simpl in Hk; lia|].
  cbn [sample_loop].
  pose proof (randbelow_index (length (x :: t)) g ltac:(simpl; lia)) as Hj.
  destruct (randbelow (Z.of_nat (length (x :: t))) g) as [j g1]. cbn [fst] in Hj.
  set (pool := x :: t) in *.
  set (pool' := removelast (set_nth (Z.to_nat j) (last pool x) pool)).
  destruct (IH pool' g1) as [rest Hrest].
  { subst pool'. rewrite removelast_length, set_nth_length. simpl in *. lia. }
  destruct (sample_loop k pool' g1) as [res g2]. cbn [fst] in *.
  exists rest. cbn [app]. rewrite Hrest. symmetry. now apply pick_permutation.
Qed.

Lemma sample_part {A} (population sampled : list A) (k : Z) (g g' : rng) :
  sample population k g = Some (sampled, g') ->
  Z.of_nat (length sampled) = k
  /\ exists rest, Permutation (sampled ++ rest) population.
Proof.
  unfold sample. destruct (_ && _) eqn:E; [|discriminate].
  apply andb_true_iff in E as [E1 E2].
  apply Z.leb_le in E1. apply Z.leb_le in E2.
  intros H. injection H as H.
  pose proof (sample_loop_length (Z.to_nat k) population g ltac:(lia)) as Hl.
  destruct (sample_loop_part (Z.to_nat k) population g ltac:(lia)) as [rest Hr].
  rewrite H in Hl, Hr. cbn [fst] in *. split; [lia|now exists rest].
Qed.

(** What create_broken_sentences.py does on a text with words and a
    fraction between 0 and 1: the sampler does not raise, keeps at
    least one word, and the text returned is the joined lines of the
    sample, which is part of the words of the text. *)
Lemma broken_text_of_sample (text : str) (p : Q) (mn mx : Z) (g : rng) :
  split text <> [] -> 0 <= p -> p <= 1 ->
  exists sampled_words g',
    sample (split text) (keep_count (split text) p) g = Some (sampled_words, g')
    /\ CreateBrokenSentences.create_broken_sentence_text text p mn mx g
       = Some (join newline (CreateBrokenSentences.lineate mn mx sampled_words), g')
    /\ sampled_words <> []
    /\ forallb token sampled_words = true
    /\ exists rest, Permutation (sampled_words ++ rest) (split text).
Proof.
  intros Hw Hp Hp1.
  pose proof (keep_count_le (split text) p Hw Hp Hp1) as Hk.
  destruct (sample (split text) (keep_count (split text) p) g)
    as [[sampled g']|] eqn:E.
  - exists sampled, g'. split; [reflexivity|].
    destruct (sample_part _ _ _ _ _ E) as [Hl Hr].
    split.
    { unfold CreateBrokenSentences.create_broken_sentence_text.
      destruct (split text) eqn:Es; [contradiction|]. now rewrite E. }
    split; [intros ->; simpl in Hl; lia|].
    split; [eapply sampled_words_are_tokens; exact E|exact Hr].
  - unfold sample in E.
    replace ((0 <=? keep_count (split text) p)
             && (keep_count (split text) p <=? Z.of_nat (length (split text))))%Z
      with true in E by (symmetry; apply andb_true_iff; split; apply Z.leb_le; lia).
    discriminate.
Qed.

Lemma lineate_text_words (sampled_words : list str) (mn mx : Z) :
  forallb token sampled_words = true ->
  split (join newline (CreateBrokenSentences.lineate mn mx sampled_words))
  = sampled_words.
Proof.
  intros Htok.
  destruct (lineate_packed sampled_words mn mx zeros) as (_ & (E & _ & _ & W) & _).
  rewrite E. now apply rendered_words_preserved.
Qed.

(** X3. The words of the text create_broken_sentences.py returns are
    part of the words of its input, as multisets: no word is made up
    and none occurs more often than in the input. *)
Theorem X3_broken_text_words_come_from_input
    (text : str) (p : Q) (mn mx : Z) (g : rng) (out : str) :
  option_map fst (CreateBrokenSentences.create_broken_sentence_text text p mn mx g)
  = Some out ->
  exists rest, Permutation (split out ++ rest) (split text).
Proof.
  unfold CreateBrokenSentences.create_broken_sentence_text.
  destruct (split text) as [|w ws] eqn:Es.
  - intros H. injection H as <-. now exists [].
  - destruct (sample (w :: ws) (keep_count (w :: ws) p) g) as [[sampled g']|] eqn:E;
      [|discriminate].
    intros H. injection H as <-.
    rewrite lineate_text_words.
    + now destruct (sample_part _ _ _ _ _ E).
    + rewrite <- Es in E. eapply sampled_words_are_tokens; exact E.
Qed.

Lemma X3_broken_text_words_come_from_input_witness :
  exists rest,
    Permutation (split (lit "fox brown") ++ rest)
      (split (lit "the quick brown fox jumps over the lazy dog")).
Proof.
  refine (X3_broken_text_words_come_from_input
            (lit "the quick brown fox jumps over the lazy dog") (1 # 4) 6 12
            counting (lit "fox brown") _).
  vm_compute. reflexivity.
Defined.

Lemma keep_count_all (words : list str) :
  words <> [] -> keep_count words 1 = Z.of_nat (length words).
Proof.
  intros Hw. rewrite keep_count_spec by (auto; unfold Qle; simpl; lia).
  assert (Hn : (0 < Z.of_nat (length words))%Z)
    by (destruct words; [contradiction|simpl; lia]).
  unfold Qfloor, Qmult, inject_Z. cbn [Qnum Qden Pos.mul].
  rewrite Z.mul_1_r, Z.div_1_r. lia.
Qed.

(** X4. With the fraction 1 create_broken_sentences.py does not raise
    and returns every word of its input: the words of the output are a
    permutation of the words of the input. *)
Theorem X4_keep_everything_permutes_the_words (text : str) (mn mx : Z) (g : rng) :
  exists out g',
    CreateBrokenSentences.create_broken_sentence_text text 1 mn mx g = Some (out, g')
    /\ Permutation (split out) (split text).
Proof.
  destruct (split text) as [|w ws] eqn:Es.
  - exists [], g. unfold CreateBrokenSentences.create_broken_sentence_text.
    rewrite Es. split; [reflexivity|constructor].
  - assert (Hw : split text <> []) by (rewrite Es; discriminate).
    destruct (broken_text_of_sample text 1 mn mx g Hw)
      as (sampled & g' & E & Eo & _ & Htok & _);
      [unfold Qle; simpl; lia|unfold Qle; simpl; lia|].
    exists (join newline (CreateBrokenSentences.lineate mn mx sampled)), g'.
    split; [exact Eo|].
    rewrite lineate_text_words by assumption.
    destruct (sample_part _ _ _ _ _ E) as [Hl [rest Hr]].
    rewrite keep_count_all in Hl by assumption.
    pose proof (Permutation_length Hr) as Hlen. rewrite length_app in Hlen.
    assert (rest = []) by (destruct rest; [reflexivity|simpl in Hlen; lia]).
    subst rest. rewrite app_nil_r in Hr. now rewrite <- Es.
Qed.

(** ** When the sampler raises *)

Lemma py_int_ge (x : Q) (m : Z) :
  (1 <= m)%Z -> ((m <= py_int x)%Z <-> inject_Z m <= x).
Proof.
  intros Hm. destruct x as [a b]. unfold py_int, Qle, inject_Z.
  cbn [Qnum Qden]. pose proof (Pos2Z.is_pos b).
  rewrite Z.mul_1_r. Z.to_euclidean_division_equations. nia.
Qed.

Lemma py_int_le_neg (x : Q) : ((py_int x <= -1)%Z <-> x <= inject_Z (-1)).
Proof.
  destruct x as [a b]. unfold py_int, Qle, inject_Z.
  cbn [Qnum Qden]. pose proof (Pos2Z.is_pos b).
  rewrite Z.mul_1_r. Z.to_euclidean_division_equations. nia.
Qed.

(** ** The product of doubles

    The product [len(words) * percentage_to_keep] is rounded to a
    double before it is truncated. That rounding is monotone and keeps
    the integers and the half-integers within its reach (2^53 halves)
    as they are. For every rounding [fl] of that kind the truncated
    product is the floor or the ceiling of the exact product, stays
    within the number of words when the exact product is between
    [-1/2] and [n + 1/2], and is out of the sampler's range when the
    exact product is at least [n + 1] or at most [-1]. *)

Section RoundedProduct.

Variable fl : Q -> Q.
Variable reach : Z.
Hypothesis fl_monotone : forall x y : Q, x <= y -> fl x <= fl y.
Hypothesis fl_halves : forall z : Z, (Z.abs z <= reach)%Z -> fl (z # 2) == z # 2.

Lemma fl_above (z : Z) (x : Q) :
  (Z.abs z <= reach)%Z -> z # 2 <= x -> z # 2 <= fl x.
Proof.
  intros Hz H. apply Qle_trans with (fl (z # 2)); [|now apply fl_monotone].
  rewrite fl_halves by assumption. apply Qle_refl.
Qed.

Lemma fl_below (z : Z) (x : Q) :
  (Z.abs z <= reach)%Z -> x <= z # 2 -> fl x <= z # 2.
Proof.
  intros Hz H. apply Qle_trans with (fl (z # 2)); [now apply fl_monotone|].
  rewrite fl_halves by assumption. apply Qle_refl.
Qed.

Lemma rounded_int_between (a b : Z) (x : Q) :
  (0 <= a)%Z -> (Z.abs (2 * a) <= reach)%Z -> (Z.abs (2 * b) <= reach)%Z ->
  inject_Z a <= x -> x <= inject_Z b ->
  (a <= py_int (fl x) <= b)%Z.
Proof.
  intros Ha Hra Hrb Hax Hxb.
  assert (H1 : inject_Z a <= fl x).
  { apply Qle_trans with (2 * a # 2); [unfold Qle, inject_Z; cbn [Qnum Qden]; lia|].
    apply fl_above; [assumption|].
    apply Qle_trans with (inject_Z a); [unfold Qle, inject_Z; cbn [Qnum Qden]; lia|assumption]. }
  assert (H2 : fl x <= inject_Z b).
  { apply Qle_trans with (2 * b # 2); [|unfold Qle, inject_Z; cbn [Qnum Qden]; lia].
    apply fl_below; [assumption|].
    apply Qle_trans with (inject_Z b); [assumption|unfold Qle, inject_Z; cbn [Qnum Qden]; lia]. }
  assert (H0 : 0 <= fl x).
  { apply Qle_trans with (inject_Z a); [|assumption].
    change 0 with (inject_Z 0). rewrite <- Zle_Qle. lia. }
  rewrite (py_int_floor _ H0).
  split.
  - rewrite <- (Qfloor_Z a). now apply Qfloor_resp_le.
  - rewrite <- (Qfloor_Z b). now apply Qfloor_resp_le.
Qed.

Lemma rounded_count_between (words : list str) (p : Q) :
  let x := inject_Z (Z.of_nat (length words)) * p in
  0 <= x -> (Z.abs (2 * Qceiling x) <= reach)%Z ->
  (Qfloor x <= rounded_count fl words p <= Qceiling x)%Z.
Proof.
  intros x Hx Hr. unfold rounded_count. fold x.
  assert (Hf : (0 <= Qfloor x)%Z).
  { rewrite <- (Qfloor_Z 0). now apply Qfloor_resp_le. }
  assert (Hfc : (Qfloor x <= Qceiling x)%Z).
  { rewrite Zle_Qle. apply Qle_trans with x; [apply Qfloor_le|apply Qle_ceiling]. }
  apply rounded_int_between;
    [exact Hf|lia|exact Hr|apply Qfloor_le|apply Qle_ceiling].
Qed.

Lemma rounded_count_within (words : list str) (p : Q) :
  let n := Z.of_nat (length words) in
  (2 * n + 1 <= reach)%Z ->
  - (1 # 2) <= inject_Z n * p -> inject_Z n * p <= inject_Z n + (1 # 2) ->
  (0 <= rounded_count fl words p <= n)%Z.
Proof.
  intros n Hr Hlo Hhi. unfold rounded_count. fold n.
  set (x := inject_Z n * p) in *.
  assert (Hn : (0 <= n)%Z) by (subst n; lia).
  assert (H1 : (-1 # 2) <= fl x) by (apply fl_above; [lia|exact Hlo]).
  assert (H2 : fl x <= (2 * n + 1 # 2)).
  { apply fl_below; [lia|]. apply Qle_trans with (inject_Z n + (1 # 2)); [exact Hhi|].
    unfold Qle, Qplus, inject_Z; cbn [Qnum Qden]; lia. }
  pose proof (py_int_ge (fl x) (n + 1) ltac:(lia)) as Hge.
  pose proof (py_int_le_neg (fl x)) as Hle.
  split.
  - destruct (Z_le_gt_dec (py_int (fl x)) (-1)) as [C|C]; [|lia].
    apply Hle in C. exfalso.
    assert (Hc : (-1 # 2) <= inject_Z (-1)) by (apply Qle_trans with (fl x); assumption).
    unfold Qle, inject_Z in Hc; cbn [Qnum Qden] in Hc; lia.
  - destruct (Z_le_gt_dec (n + 1) (py_int (fl x))) as [C|C]; [|lia].
    apply Hge in C. exfalso.
    assert (Hc : inject_Z (n + 1) <= (2 * n + 1 # 2))
      by (apply Qle_trans with (fl x); assumption).
    unfold Qle, inject_Z in Hc; cbn [Qnum Qden] in Hc; lia.
Qed.

Lemma rounded_count_beyond (words : list str) (p : Q) :
  let n := Z.of_nat (length words) in
  (2 * n + 2 <= reach)%Z ->
  (inject_Z (n + 1) <= inject_Z n * p -> (n + 1 <= rounded_count fl words p)%Z)
  /\ (inject_Z n * p <= inject_Z (-1) -> (rounded_count fl words p <= -1)%Z).
Proof.
  intros n Hr. unfold rounded_count. fold n.
  set (x := inject_Z n * p) in *.
  assert (Hn : (0 <= n)%Z) by (subst n; lia).
  split; intros H.
  - apply (py_int_ge (fl x) (n + 1) ltac:(lia)).
    apply Qle_trans with (2 * (n + 1) # 2); [unfold Qle, inject_Z; cbn [Qnum Qden]; lia|].
    apply fl_above; [lia|].
    apply Qle_trans with (inject_Z (n + 1)); [unfold Qle, inject_Z; cbn [Qnum Qden]; lia|exact H].
  - apply py_int_le_neg.
    apply Qle_trans with (-2 # 2); [|unfold Qle, inject_Z; cbn [Qnum Qden]; lia].
    apply fl_below; [lia|].
    apply Qle_trans with (inject_Z (-1)); [exact H|unfold Qle, inject_Z; cbn [Qnum Qden]; lia].
Qed.

(** The guarded sample size, for the same roundings. *)
Lemma rounded_keep_count_within (words : list str) (p : Q) :
  let n := Z.of_nat (length words) in
  words <> [] -> (2 * n + 1 <= reach)%Z ->
  - (1 # 2) <= inject_Z n * p -> inject_Z n * p <= inject_Z n + (1 # 2) ->
  (1 <= rounded_keep_count fl words p <= n)%Z.
Proof.
  intros n Hw Hr Hlo Hhi.
  pose proof (rounded_count_within words p Hr Hlo Hhi) as Hk. fold n in Hk.
  assert (Hn : (1 <= n)%Z) by (destruct words; [contradiction|subst n; simpl; lia]).
  unfold rounded_keep_count. fold n.
  destruct (Z.eqb_spec (rounded_count fl words p) 0) as [E|E]; cbn [andb].
  - replace (0 <? n)%Z with true by (symmetry; apply Z.ltb_lt; lia). lia.
  - lia.
Qed.

Lemma rounded_keep_count_between (words : list str) (p : Q) :
  let x := inject_Z (Z.of_nat (length words)) * p in
  words <> [] -> 0 <= x -> (Z.abs (2 * Qceiling x) <= reach)%Z ->
  (Z.max 1 (Qfloor x) <= rounded_keep_count fl words p <= Z.max 1 (Qceiling x))%Z.
Proof.
  intros x Hw Hx Hr.
  pose proof (rounded_count_between words p Hx Hr) as Hk. fold x in Hk.
  assert (Hf : (0 <= Qfloor x)%Z).
  { rewrite <- (Qfloor_Z 0). now apply Qfloor_resp_le. }
  unfold rounded_keep_count.
  destruct (Z.eqb_spec (rounded_count fl words p) 0) as [E|E]; cbn [andb].
  - replace (0 <? Z.of_nat (length words))%Z with true
      by (symmetry; apply Z.ltb_lt; destruct words; [contradiction|simpl; lia]).
    lia.
  - lia.
Qed.

Lemma rounded_keep_count_beyond (words : list str) (p : Q) :
  let n := Z.of_nat (length words) in
  (2 * n + 2 <= reach)%Z ->
  inject_Z (n + 1) <= inject_Z n * p \/ inject_Z n * p <= inject_Z (-1) ->
  (rounded_keep_count fl words p < 0 \/ n < rounded_keep_count fl words p)%Z.
Proof.
  intros n Hr H.
  destruct (rounded_count_beyond words p Hr) as [Hup Hdown]. fold n in Hup, Hdown.
  assert (Hk : (n + 1 <= rounded_count fl words p
                \/ rounded_count fl words p <= -1)%Z) by (destruct H; auto).
  unfold rounded_keep_count. fold n.
  destruct (Z.eqb_spec (rounded_count fl words p) 0) as [E|E]; cbn [andb]; lia.
Qed.

End RoundedProduct.

(** [keep_count] is the guarded sample size without rounding. *)
Lemma keep_count_unrounded (words : list str) (p : Q) :
  keep_count words p = rounded_keep_count (fun x => x) words p.
Proof. reflexivity. Qed.

Lemma keep_count_within (words : list str) (p : Q) :
  let n := Z.of_nat (length words) in
  words <> [] ->
  - (1 # 2) <= inject_Z n * p -> inject_Z n * p <= inject_Z n + (1 # 2) ->
  (1 <= keep_count words p <= n)%Z.
Proof.
  intros n Hw Hlo Hhi. rewrite keep_count_unrounded.
  apply (rounded_keep_count_within (fun x => x) (2 * n + 1));
    [auto|intros; apply Qeq_refl|exact Hw|subst n; lia|exact Hlo|exact Hhi].
Qed.

Lemma keep_count_between (words : list str) (p : Q) :
  let x := inject_Z (Z.of_nat (length words)) * p in
  words <> [] -> 0 <= x ->
  (Z.max 1 (Qfloor x) <= keep_count words p <= Z.max 1 (Qceiling x))%Z.
Proof.
  intros x Hw Hx. rewrite keep_count_unrounded.
  apply (rounded_keep_count_between (fun x => x) (Z.abs (2 * Qceiling x)));
    [auto|intros; apply Qeq_refl|exact Hw|exact Hx|subst x; lia].
Qed.

Lemma keep_count_beyond (words : list str) (p : Q) :
  let n := Z.of_nat (length words) in
  inject_Z (n + 1) <= inject_Z n * p \/ inject_Z n * p <= inject_Z (-1) ->
  (keep_count words p < 0 \/ n < keep_count words p)%Z.
Proof.
  intros n H. rewrite keep_count_unrounded.
  apply (rounded_keep_count_beyond (fun x => x) (2 * n + 2));
    [auto|intros; apply Qeq_refl|subst n; lia|exact H].
Qed.

(** A fraction between 0 and 1 keeps the exact product between 0 and
    the number of words. *)
Lemma product_in_range (n : Z) (p : Q) :
  (0 <= n)%Z -> 0 <= p -> p <= 1 ->
  0 <= inject_Z n * p /\ inject_Z n * p <= inject_Z n.
Proof.
  intros Hn Hp0 Hp1.
  assert (H0 : 0 <= inject_Z n)
    by (change 0 with (inject_Z 0); rewrite <- Zle_Qle; lia).
  split; [now apply Qmult_le_0_compat|].
  rewrite <- (Qmult_1_r (inject_Z n)) at 2.
  apply Qmult_le_compat_nonneg; split; try lra.
Qed.

(** [random.sample] raises exactly when the size asked for is negative
    or beyond the population. *)
Lemma sample_raises_iff {A} (population : list A) (k : Z) (g : rng) :
  sample population k g = None
  <-> (k < 0 \/ Z.of_nat (length population) < k)%Z.
Proof.
  unfold sample.
  destruct (Z.leb_spec 0 k), (Z.leb_spec k (Z.of_nat (length population)));
    cbn [andb]; split; try discriminate; try reflexivity; lia.
Qed.

(** The three reductions raise exactly when their sampler does. *)
Lemma reductions_raise_with_sampler (text : str) (p : Q) (mn mx : Z) (g : rng) :
  split text <> [] ->
  let raised := sample (split text) (keep_count (split text) p) g = None in
  (Chop22.randomly_reduce_and_lineate_text text p g = None <-> raised)
  /\ (CreateBrokenSentences.create_broken_sentence_text text p mn mx g = None
      <-> raised)
  /\ (SentenceBreakerTight.create_broken_sentence_text text p g = None <-> raised).
Proof.
  intros Hw. cbv zeta.
  unfold Chop22.randomly_reduce_and_lineate_text,
    CreateBrokenSentences.create_broken_sentence_text,
    SentenceBreakerTight.create_broken_sentence_text.
  destruct (split text) as [|w ws] eqn:Es; [contradiction|].
  destruct (sample (w :: ws) (keep_count (w :: ws) p) g) as [[sw g']|] eqn:E.
  - destruct (SentenceBreakerTight.lineate sw g').
    split; [|split]; (split; discriminate).
  - split; [|split]; (split; reflexivity).
Qed.

(** X5. When chop2.2.py, create_broken_sentences.py and
    sentence_breaker_tight.py raise. On a text of [n >= 1] words they
    return a text for every fraction [p] with
    [-1/2 <= n * p <= n + 1/2], so for every fraction between 0 and 1;
    and they raise at the sampling step ([random.sample]'s ValueError,
    or that of [int] when the product is beyond the doubles) when
    [n * p] is at least [n + 1] or at most [-1]. Between these ranges
    the outcome turns on the rounding of the product. *)
Theorem X5_when_the_reduction_raises (text : str) (p : Q) (mn mx : Z) (g : rng) :
  split text <> [] ->
  let n := Z.of_nat (length (split text)) in
  let returns :=
    Chop22.randomly_reduce_and_lineate_text text p g <> None
    /\ CreateBrokenSentences.create_broken_sentence_text text p mn mx g <> None
    /\ SentenceBreakerTight.create_broken_sentence_text text p g <> None in
  let raises :=
    Chop22.randomly_reduce_and_lineate_text text p g = None
    /\ CreateBrokenSentences.create_broken_sentence_text text p mn mx g = None
    /\ SentenceBreakerTight.create_broken_sentence_text text p g = None in
  (- (1 # 2) <= inject_Z n * p /\ inject_Z n * p <= inject_Z n + (1 # 2) -> returns)
  /\ (0 <= p /\ p <= 1 -> returns)
  /\ (inject_Z (n + 1) <= inject_Z n * p \/ inject_Z n * p <= inject_Z (-1)
      -> raises).
Proof.
  intros Hw n returns raises.
  destruct (reductions_raise_with_sampler text p mn mx g Hw) as (H1 & H2 & H3).
  pose proof (sample_raises_iff (split text) (keep_count (split text) p) g) as Hs.
  fold n in Hs.
  assert (Hwithin : - (1 # 2) <= inject_Z n * p
                    /\ inject_Z n * p <= inject_Z n + (1 # 2) -> returns).
  { intros [Hlo Hhi].
    pose proof (keep_count_within (split text) p Hw Hlo Hhi) as Hk. fold n in Hk.
    assert (Hr : sample (split text) (keep_count (split text) p) g <> None)
      by (rewrite Hs; lia).
    subst returns. rewrite H1, H2, H3. auto. }
  split; [exact Hwithin|]. split.
  - intros [Hp0 Hp1]. apply Hwithin.
    destruct (product_in_range n p ltac:(subst n; lia) Hp0 Hp1) as [Ha Hb].
    split; lra.
  - intros H. pose proof (keep_count_beyond (split text) p H) as Hk. fold n in Hk.
    apply Hs in Hk. subst raises. rewrite H1, H2, H3. auto.
Qed.

Lemma X5_when_the_reduction_raises_witness :
  Chop22.randomly_reduce_and_lineate_text (lit "the quick brown fox") (3 # 2) zeros
  = None
  /\ CreateBrokenSentences.create_broken_sentence_text (lit "the quick brown fox")
       (3 # 2) 6 12 zeros = None
  /\ SentenceBreakerTight.create_broken_sentence_text (lit "the quick brown fox")
       (3 # 2) zeros = None.
Proof.
  refine (proj2 (proj2 (X5_when_the_reduction_raises (lit "the quick brown fox")
                          (3 # 2) 6 12 zeros _)) _).
  - vm_compute. discriminate.
  - left. vm_compute. discriminate.
Defined.

(** ** The scripts from the cleaning on *)

Lemma biased_retention_valid (L : Z) (g : rng) :
  (0 <= fst (Chop22.random_keep_percentage L g)
   /\ fst (Chop22.random_keep_percentage L g) <= 1)
  /\ (0 <= fst (CreateBrokenSentences.calculate_biased_retention L None g)
      /\ fst (CreateBrokenSentences.calculate_biased_retention L None g) <= 1).
Proof.
  split.
  - pose proof (fun a b c d =>
             interpolated_claim Chop22.SHORT_TEXT_MIN_KEEP Chop22.SHORT_TEXT_MAX_KEEP
               Chop22.LONG_TEXT_MIN_KEEP Chop22.LONG_TEXT_MAX_KEEP a b c d L L g
               (Z.le_refl L)) as H.
    destruct H as ((H1 & H2) & _ & (H3 & _ & _ & H4) & _);
      try (unfold Qle; simpl; lia).
    change (fst (uniform (interpolated Chop22.SHORT_TEXT_MIN_KEEP
                            Chop22.LONG_TEXT_MIN_KEEP L)
                   (interpolated Chop22.SHORT_TEXT_MAX_KEEP
                      Chop22.LONG_TEXT_MAX_KEEP L) g))
      with (fst (Chop22.random_keep_percentage L g)) in H1, H2.
    assert (0 <= Chop22.LONG_TEXT_MIN_KEEP) by (unfold Qle; simpl; lia).
    assert (Chop22.SHORT_TEXT_MAX_KEEP <= 1) by (unfold Qle; simpl; lia).
    split; lra.
  - pose proof (fun a b c d =>
             interpolated_claim CreateBrokenSentences.SHORT_TEXT_MIN_KEEP
               CreateBrokenSentences.SHORT_TEXT_MAX_KEEP
               CreateBrokenSentences.LONG_TEXT_MIN_KEEP
               CreateBrokenSentences.LONG_TEXT_MAX_KEEP a b c d L L g
               (Z.le_refl L)) as H.
    destruct H as ((H1 & H2) & _ & (H3 & _ & _ & H4) & _);
      try (unfold Qle; simpl; lia).
    change (fst (uniform (interpolated CreateBrokenSentences.SHORT_TEXT_MIN_KEEP
                            CreateBrokenSentences.LONG_TEXT_MIN_KEEP L)
                   (interpolated CreateBrokenSentences.SHORT_TEXT_MAX_KEEP
                      CreateBrokenSentences.LONG_TEXT_MAX_KEEP L) g))
      with (fst (CreateBrokenSentences.calculate_biased_retention L None g))
      in H1, H2.
    assert (0 <= CreateBrokenSentences.LONG_TEXT_MIN_KEEP)
      by (unfold Qle; simpl; lia).
    assert (CreateBrokenSentences.SHORT_TEXT_MAX_KEEP <= 1)
      by (unfold Qle; simpl; lia).
    split; lra.
Qed.

Lemma text_of_words_not_empty (sampled_words : list str) (mn mx : Z) :
  sampled_words <> [] -> forallb token sampled_words = true ->
  join newline (CreateBrokenSentences.lineate mn mx sampled_words) <> [].
Proof.
  intros Hne Htok E.
  pose proof (lineate_text_words sampled_words mn mx Htok) as H.
  rewrite E in H. now symmetry in H.
Qed.

(** What create_broken_sentences.py does when the sample size is within
    the words of the text. *)
Lemma broken_text_of_count (text : str) (p : Q) (mn mx : Z) (g : rng) :
  (1 <= keep_count (split text) p <= Z.of_nat (length (split text)))%Z ->
  exists sampled_words g',
    sample (split text) (keep_count (split text) p) g = Some (sampled_words, g')
    /\ CreateBrokenSentences.create_broken_sentence_text text p mn mx g
       = Some (join newline (CreateBrokenSentences.lineate mn mx sampled_words), g')
    /\ sampled_words <> []
    /\ forallb token sampled_words = true
    /\ exists rest, Permutation (sampled_words ++ rest) (split text).
Proof.
  intros Hk.
  destruct (sample (split text) (keep_count (split text) p) g)
    as [[sampled g']|] eqn:E.
  - exists sampled, g'. split; [reflexivity|].
    destruct (sample_part _ _ _ _ _ E) as [Hl Hr].
    split.
    { unfold CreateBrokenSentences.create_broken_sentence_text.
      destruct (split text) eqn:Es; [simpl in Hk; lia|]. now rewrite E. }
    split; [intros ->; simpl in Hl; lia|].
    split; [eapply sampled_words_are_tokens; exact E|exact Hr].
  - apply sample_raises_iff in E. lia.
Qed.

(** The text [process_file] cleans is empty exactly when it has no
    words, and stripping it changes nothing. *)
Lemma cleaned_text_facts (x : str) :
  strip (CreateBrokenSentences.clean_text x) = CreateBrokenSentences.clean_text x
  /\ (CreateBrokenSentences.clean_text x = []
      <-> split (CreateBrokenSentences.clean_text x) = [])
  /\ (existsb (word_char true) x = true -> CreateBrokenSentences.clean_text x <> []).
Proof.
  change (CreateBrokenSentences.clean_text x) with (normalize true x).
  pose proof (normalize_normalized true x) as (_ & _ & Hs & He).
  split; [unfold strip; now rewrite lstrip_fixed, rstrip_fixed|].
  split; [now rewrite normalize_nil_iff, normalize_no_words_iff|].
  intros Hx E. apply normalize_nil_iff in E. congruence.
Qed.

(** ** A fixed retention reaches the sampler *)




(** ** The scripts from the cleaning on, continued *)

(** X6. What [process_file] of create_broken_sentences.py does with a
    text it has read, for the biased retention or a fixed one between 0
    and 1: it never raises; it skips the file exactly when the cleaned
    text is empty, which no text with an ASCII letter or digit is;
    otherwise the text it writes is not empty and its words are part of
    the words of the cleaned text. *)
Theorem X6_process_file_never_raises (x : str) (fixed : option Q) (g : rng) :
  match fixed with Some f => 0 <= f /\ f <= 1 | None => True end ->
  exists o g',
    CreateBrokenSentences.process_text x fixed g = Some (o, g')
    /\ match o with
       | CreateBrokenSentences.Skipped =>
           CreateBrokenSentences.clean_text x = []
           /\ existsb (word_char true) x = false
           /\ g' = g
       | CreateBrokenSentences.Broken t =>
           CreateBrokenSentences.clean_text x <> []
           /\ t <> []
           /\ exists rest,
                Permutation (split t ++ rest)
                  (split (CreateBrokenSentences.clean_text x))
       end.
Proof.
  intros Hfixed. unfold CreateBrokenSentences.process_text.
  destruct (cleaned_text_facts x) as (Hstrip & Hnil & Hchar).
  rewrite Hstrip.
  set (cleaned := CreateBrokenSentences.clean_text x) in *.
  destruct cleaned as [|c r] eqn:Ec.
  - exists CreateBrokenSentences.Skipped, g. split; [reflexivity|].
    split; [reflexivity|]. split; [|reflexivity].
    destruct (existsb (word_char true) x); [|reflexivity].
    now destruct Hchar.
  - rewrite <- Ec in *. clear Hstrip.
    assert (Hc : cleaned <> []) by (rewrite Ec; discriminate).
    assert (Hw : split cleaned <> []) by (intros E; now apply Hnil in E).
    set (L := Z.of_nat (length cleaned)).
    assert (Hp : 0 <= fst (CreateBrokenSentences.calculate_biased_retention L fixed g)
                 /\ fst (CreateBrokenSentences.calculate_biased_retention L fixed g) <= 1).
    { destruct fixed as [f|]; [exact Hfixed|apply biased_retention_valid]. }
    destruct (CreateBrokenSentences.calculate_biased_retention L fixed g) as [p g1].
    cbn [fst] in Hp. destruct Hp as [Hp0 Hp1].
    destruct (broken_text_of_sample cleaned p 6 12 g1 Hw Hp0 Hp1)
      as (sampled & g' & _ & Eo & Hne & Htok & Hrest).
    rewrite Eo.
    exists (CreateBrokenSentences.Broken
              (join newline (CreateBrokenSentences.lineate 6 12 sampled))), g'.
    split; [reflexivity|]. split; [exact Hc|].
    split; [now apply text_of_words_not_empty|].
    now rewrite lineate_text_words.
Qed.

Lemma X6_process_file_never_raises_witness :
  exists o g',
    CreateBrokenSentences.process_text (lit "The quick, brown fox!") None counting
    = Some (o, g')
    /\ match o with
       | CreateBrokenSentences.Skipped =>
           CreateBrokenSentences.clean_text (lit "The quick, brown fox!") = []
           /\ existsb (word_char true) (lit "The quick, brown fox!") = false
           /\ g' = counting
       | CreateBrokenSentences.Broken t =>
           CreateBrokenSentences.clean_text (lit "The quick, brown fox!") <> []
           /\ t <> []
           /\ exists rest,
                Permutation (split t ++ rest)
                  (split (CreateBrokenSentences.clean_text
                            (lit "The quick, brown fox!")))
       end.
Proof.
  exact (X6_process_file_never_raises (lit "The quick, brown fox!") None counting I).
Defined.

Lemma chop22_as_broken (text : str) (p : Q) (g : rng) :
  split text <> [] ->
  Chop22.randomly_reduce_and_lineate_text text p g
  = CreateBrokenSentences.create_broken_sentence_text text p 1
      Chop22.TARGET_SYLLABLES_PER_LINE g.
Proof.
  intros Hw. unfold Chop22.randomly_reduce_and_lineate_text,
    CreateBrokenSentences.create_broken_sentence_text.
  destruct (split text) as [|w ws]; [contradiction|].
  destruct (sample _ _ g) as [[sw g']|]; [|reflexivity].
  now rewrite chop22_lineate_as_limits.
Qed.

(** X7. The main block of chop2.2.py, from the cleaning of the text it
    has read, never raises: when the cleaned text is empty, which it is
    for no text with an ASCII letter or digit, it prints the notice,
    and otherwise a text that is not empty and whose words are part of
    the words of the cleaned text. *)
Theorem X7_chop22_main_never_raises (x : str) (g : rng) :
  exists t g',
    Chop22.main x g = Some (t, g')
    /\ match Chop22.clean_text x with
       | [] =>
           t = lit "(The source file was empty or had no words after cleaning.)"
           /\ existsb (word_char true) x = false
       | _ =>
           t <> []
           /\ exists rest,
                Permutation (split t ++ rest) (split (Chop22.clean_text x))
       end.
Proof.
  unfold Chop22.main.
  change Chop22.clean_text with CreateBrokenSentences.clean_text.
  destruct (cleaned_text_facts x) as (_ & Hnil & Hchar).
  set (cleaned := CreateBrokenSentences.clean_text x) in *.
  set (L := Z.of_nat (length cleaned)).
  pose proof (proj1 (biased_retention_valid L g)) as [Hp0 Hp1].
  destruct (Chop22.random_keep_percentage L g) as [p g1]. cbn [fst] in *.
  destruct cleaned as [|c r] eqn:Ec.
  - eexists _, g1. split; [reflexivity|]. split; [reflexivity|].
    destruct (existsb (word_char true) x); [|reflexivity].
    now destruct Hchar.
  - rewrite <- Ec in *.
    assert (Hw : split cleaned <> []).
    { intros E. apply Hnil in E. rewrite Ec in E. discriminate. }
    rewrite chop22_as_broken by assumption.
    destruct (broken_text_of_sample cleaned p 1 Chop22.TARGET_SYLLABLES_PER_LINE
                g1 Hw Hp0 Hp1)
      as (sampled & g' & _ & Eo & Hne & Htok & Hrest).
    rewrite Eo. eexists _, g'. split; [reflexivity|].
    split; [now apply text_of_words_not_empty|].
    now rewrite lineate_text_words.
Qed.

(** ** The line loops are greedy *)

Lemma needed_breaks_snoc (a : list ((Z * Z) * list str)) (x y : (Z * Z) * list str) :
  needed_breaks (a ++ [x]) -> break_needed x [y] -> needed_breaks (a ++ [x; y]).
Proof.
  induction a as [|h a IH]; intros H Hxy.
  - simpl. tauto.
  - cbn [app needed_breaks] in *. destruct H as [Hh Ha].
    split; [|now apply IH]. now destruct a.
Qed.

Lemma needed_breaks_grow (a : list ((Z * Z) * list str)) (lim : Z * Z)
    (ws : list str) (w : str) :
  ws <> [] ->
  needed_breaks (a ++ [(lim, ws)]) -> needed_breaks (a ++ [(lim, ws ++ [w])]).
Proof.
  intros Hne. induction a as [|h a IH]; intros H.
  - simpl. tauto.
  - cbn [app needed_breaks] in *. destruct H as [Hh Ha].
    split; [|now apply IH]. destruct a as [|h' a]; [|exact Hh].
    cbn [app break_needed snd] in *. destruct Hh as (w0 & r & E & Hlt).
    exists w0, (r ++ [w]). split; [now rewrite E|exact Hlt].
Qed.

Section TracedGreedy.

Variable draw : rng -> (Z * Z) * rng.

Lemma traced_step_greedy (st : traced_state) (w : str) :
  traced_greedy st -> traced_greedy (traced_step draw st w).
Proof.
  intros (Hs & Hnil & Hmin & Hbr). unfold traced_step, traced_greedy.
  destruct (_ && _) eqn:Econd.
  - apply andb_true_iff in Econd as [E1 E2].
    apply Z.ltb_lt in E1. apply Z.leb_le in E2.
    destruct (draw (draws st)) as [new_limits g'].
    cbn [closed open_words open_syllables open_limits draws].
    split; [simpl; lia|]. split; [discriminate|].
    split.
    + apply Forall_app. split; [exact Hmin|]. constructor; [|constructor].
      unfold reached_minimum. cbn [fst snd]. lia.
    + rewrite <- app_assoc. apply needed_breaks_snoc; [exact Hbr|].
      cbn [app break_needed fst snd]. exists w, []. split; [reflexivity|lia].
  - cbn [closed open_words open_syllables open_limits draws].
    split; [rewrite line_syllables_snoc; lia|].
    split; [intros E; now apply app_eq_nil in E as [_ E]|].
    split; [exact Hmin|].
    destruct (open_words st) as [|w0 r] eqn:Eo.
    + rewrite (Hnil eq_refl). simpl. tauto.
    + apply needed_breaks_grow; [discriminate|exact Hbr].
Qed.

Lemma traced_run_greedy (ws : list str) :
  forall st, traced_greedy st -> traced_greedy (fold_left (traced_step draw) ws st).
Proof.
  induction ws as [|w ws IH]; intros st H; [exact H|].
  simpl. apply IH, traced_step_greedy, H.
Qed.

Lemma removelast_Forall {A} (P : A -> Prop) (l : list A) :
  Forall P l -> Forall P (removelast l).
Proof.
  intros H. rewrite removelast_firstn_len.
  rewrite <- (firstn_skipn (pred (length l)) l) in H.
  now apply Forall_app in H.
Qed.

(** Every break was needed, and every line but the last has reached
    its minimum. *)
Lemma traced_lines_greedy (ws : list str) (g : rng) :
  needed_breaks (traced_lines draw ws g)
  /\ Forall reached_minimum (removelast (traced_lines draw ws g)).
Proof.
  assert (H0 : traced_greedy (traced_start draw g)).
  { unfold traced_start. destruct (draw g) as [l0 g0]. unfold traced_greedy.
    cbn [closed open_words open_syllables open_limits draws].
    repeat split; simpl; auto. }
  pose proof (traced_run_greedy ws _ H0) as (Hs & Hnil & Hmin & Hbr).
  fold (traced_run draw ws g) in *. unfold traced_lines, traced_flush.
  destruct (open_words (traced_run draw ws g)) as [|w r] eqn:Eo.
  - rewrite (Hnil eq_refl). split; constructor.
  - split; [exact Hbr|]. now rewrite removelast_last.
Qed.

End TracedGreedy.

(** X8. In chop2.2.py, create_broken_sentences.py and
    sentence_breaker_tight.py a line is broken only where it must be:
    whenever a line is followed by another, the first word of the
    following line would have taken the line over its maximum. *)
Theorem X8_line_breaks_are_needed
    (sampled_words : list str) (mn mx : Z) (g : rng) :
  (Chop22.lineate sampled_words
   = map render (traced_lines chop22_limits sampled_words g)
   /\ needed_breaks (traced_lines chop22_limits sampled_words g))
  /\ (CreateBrokenSentences.lineate mn mx sampled_words
      = map render (traced_lines (fixed_limits mn mx) sampled_words g)
      /\ needed_breaks (traced_lines (fixed_limits mn mx) sampled_words g))
  /\ (fst (SentenceBreakerTight.lineate sampled_words g)
      = map render (traced_lines SentenceBreakerTight.get_random_line_syllable_limits
                      sampled_words g)
      /\ needed_breaks
           (traced_lines SentenceBreakerTight.get_random_line_syllable_limits
              sampled_words g)).
Proof.
  split; [|split]; (split; [|apply traced_lines_greedy]).
  - apply chop22_lineate_traced.
  - apply broken_lineate_traced.
  - apply tight_lineate_traced.
Qed.

(** X9. In the three scripts every line but the last has reached the
    minimum of its limits: at least one syllable in chop2.2.py, at
    least [min_syllables] in create_broken_sentences.py, at least the
    drawn minimum in sentence_breaker_tight.py. *)
Theorem X9_lines_but_last_reach_minimum
    (sampled_words : list str) (mn mx : Z) (g : rng) :
  (Chop22.lineate sampled_words
   = map render (traced_lines chop22_limits sampled_words g)
   /\ Forall (fun l => (1 <= line_syllables (snd l))%Z)
        (removelast (traced_lines chop22_limits sampled_words g)))
  /\ (CreateBrokenSentences.lineate mn mx sampled_words
      = map render (traced_lines (fixed_limits mn mx) sampled_words g)
      /\ Forall (fun l => (mn <= line_syllables (snd l))%Z)
           (removelast (traced_lines (fixed_limits mn mx) sampled_words g)))
  /\ (fst (SentenceBreakerTight.lineate sampled_words g)
      = map render (traced_lines SentenceBreakerTight.get_random_line_syllable_limits
                      sampled_words g)
      /\ Forall (fun l => proper_limits (fst l) /\ reached_minimum l)
           (removelast
              (traced_lines SentenceBreakerTight.get_random_line_syllable_limits
                 sampled_words g))).
Proof.
  split; [|split].
  - split; [apply chop22_lineate_traced|].
    pose proof (proj2 (traced_lines_greedy chop22_limits sampled_words g)) as Hm.
    destruct (traced_lines_facts chop22_limits
                (fun lim => lim = (1, Chop22.TARGET_SYLLABLES_PER_LINE)%Z)
                (fun _ => eq_refl) sampled_words g) as (_ & Hq & _).
    apply removelast_Forall in Hq.
    rewrite Forall_forall in *. intros l Hl.
    specialize (Hm l Hl). specialize (Hq l Hl).
    unfold reached_minimum in Hm. now rewrite Hq in Hm.
  - split; [apply broken_lineate_traced|].
    pose proof (proj2 (traced_lines_greedy (fixed_limits mn mx) sampled_words g)) as Hm.
    destruct (traced_lines_facts (fixed_limits mn mx)
                (fun lim => lim = (mn, mx)) (fun _ => eq_refl) sampled_words g)
      as (_ & Hq & _).
    apply removelast_Forall in Hq.
    rewrite Forall_forall in *. intros l Hl.
    specialize (Hm l Hl). specialize (Hq l Hl).
    unfold reached_minimum in Hm. now rewrite Hq in Hm.
  - split; [apply tight_lineate_traced|].
    pose proof (proj2 (traced_lines_greedy
                         SentenceBreakerTight.get_random_line_syllable_limits
                         sampled_words g)) as Hm.
    destruct (traced_lines_facts SentenceBreakerTight.get_random_line_syllable_limits
                proper_limits random_limits_proper sampled_words g) as (_ & Hq & _).
    apply removelast_Forall in Hq.
    rewrite Forall_forall in *. intros l Hl. split; auto.
Qed.

(** ** Lines of small words stay within the maximum *)

Lemma removelast_map {A B} (f : A -> B) (l : list A) :
  removelast (map f l) = map f (removelast l).
Proof.
  rewrite !removelast_firstn_len, length_map. apply firstn_map.
Qed.

Lemma concat_In {A} (ls : list (list A)) (l : list A) (x : A) :
  In l ls -> In x l -> In x (concat ls).
Proof. intros Hl Hx. apply in_concat. now exists l. Qed.

Lemma fixed_lines_within_maximum (sampled_words : list str) (mn mx : Z) (g : rng) :
  (1 <= mn)%Z ->
  Forall (fun w => (estimate_syllables w <= mx - mn + 1)%Z) sampled_words ->
  Forall (fun l => (line_syllables (snd l) <= mx)%Z)
    (traced_lines (fixed_limits mn mx) sampled_words g).
Proof.
  intros Hmn Hsmall.
  destruct (traced_lines_facts (fixed_limits mn mx) (fun lim => lim = (mn, mx))
              (fun _ => eq_refl) sampled_words g) as (Hb & Hq & Hw & Hne).
  specialize (Hne ltac:(intros lim ->; exact Hmn)).
  unfold lines_within_budget in Hb. rewrite Forall_forall in *.
  intros l Hl. specialize (Hb l Hl (Hne l Hl)). rewrite (Hq l Hl) in Hb.
  destruct Hb as [Hb|(init & w & E & Hinit & Hover)]; [exact Hb|].
  cbn [fst snd] in *. exfalso.
  assert (Hin : In w sampled_words).
  { rewrite <- Hw. apply (concat_In _ (snd l)); [now apply in_map|].
    rewrite E. apply in_or_app. right. now left. }
  specialize (Hsmall w Hin). rewrite E, line_syllables_snoc in Hover.
  destruct Hinit as [->|Hinit]; simpl in *; lia.
Qed.

Lemma rendered_line_words (traced : list ((Z * Z) * list str)) (l : (Z * Z) * list str) :
  forallb token (concat (map snd traced)) = true ->
  In l traced -> split (render l) = snd l.
Proof.
  intros Htok Hl. unfold render. apply split_join_tokens.
  apply forallb_forall. intros w Hw. rewrite forallb_forall in Htok.
  apply Htok. apply (concat_In _ (snd l)); [now apply in_map|exact Hw].
Qed.

(** X10. When [min_syllables] is at least 1 and no sampled word counts
    more than [max_syllables - min_syllables + 1] syllables (7 for the
    defaults 6 and 12), every line of create_broken_sentences.py is
    within [max_syllables], and every line but the last counts between
    [min_syllables] and [max_syllables]. The lines of chop2.2.py are
    those for the limits 1 and 10: with no word over 10 syllables,
    every line is within 10. *)
Theorem X10_small_words_keep_lines_within_limits
    (sampled_words : list str) (mn mx : Z) :
  forallb token sampled_words = true ->
  (1 <= mn)%Z ->
  Forall (fun w => (estimate_syllables w <= mx - mn + 1)%Z) sampled_words ->
  Forall (fun line => (line_syllables (split line) <= mx)%Z)
    (CreateBrokenSentences.lineate mn mx sampled_words)
  /\ Forall (fun line => (mn <= line_syllables (split line) <= mx)%Z)
       (removelast (CreateBrokenSentences.lineate mn mx sampled_words))
  /\ Chop22.lineate sampled_words
     = CreateBrokenSentences.lineate 1 Chop22.TARGET_SYLLABLES_PER_LINE sampled_words.
Proof.
  intros Htok Hmn Hsmall.
  rewrite (broken_lineate_traced mn mx sampled_words zeros).
  set (T := traced_lines (fixed_limits mn mx) sampled_words zeros).
  pose proof (fixed_lines_within_maximum sampled_words mn mx zeros Hmn Hsmall) as Hmax.
  pose proof (proj2 (traced_lines_greedy (fixed_limits mn mx) sampled_words zeros)) as Hmin.
  destruct (traced_lines_facts (fixed_limits mn mx) (fun lim => lim = (mn, mx))
              (fun _ => eq_refl) sampled_words zeros) as (_ & Hq & Hw & _).
  fold T in Hmax, Hmin, Hq, Hw.
  assert (HtokT : forallb token (concat (map snd T)) = true) by now rewrite Hw.
  split; [|split].
  - apply Forall_map. rewrite Forall_forall in *. intros l Hl.
    rewrite (rendered_line_words T l HtokT Hl). now apply Hmax.
  - rewrite removelast_map. apply Forall_map.
    apply removelast_Forall in Hmax. apply removelast_Forall in Hq.
    rewrite Forall_forall in *. intros l Hl.
    assert (HlT : In l T) by now apply removelast_In.
    rewrite (rendered_line_words T l HtokT HlT).
    specialize (Hmin l Hl). unfold reached_minimum in Hmin.
    rewrite (Hq l Hl) in Hmin. cbn [fst] in Hmin.
    split; [exact Hmin|now apply Hmax].
  - apply chop22_lineate_as_limits.
Qed.

Lemma X10_small_words_keep_lines_within_limits_witness :
  Forall (fun line => (line_syllables (split line) <= 12)%Z)
    (CreateBrokenSentences.lineate 6 12
       [lit "lazy"; lit "dog"; lit "university"; lit "fox"; lit "table"]).
Proof.
  refine (proj1 (X10_small_words_keep_lines_within_limits
                   [lit "lazy"; lit "dog"; lit "university"; lit "fox"; lit "table"]
                   6 12 _ _ _)).
  - vm_compute. reflexivity.
  - lia.
  - repeat constructor; vm_compute; discriminate.
Defined.

(** ** The limits sentence_breaker_tight.py draws *)

Lemma py_int_between (x : Q) (a b : Z) :
  (0 <= a)%Z -> inject_Z a <= x -> x < inject_Z b -> (a <= py_int x < b)%Z.
Proof.
  intros Ha H1 H2.
  assert (H0 : 0 <= x).
  { apply Qle_trans with (inject_Z a); [|exact H1].
    change 0 with (inject_Z 0). now rewrite <- Zle_Qle. }
  rewrite (py_int_floor _ H0). split.
  - rewrite <- (Qfloor_Z a). now apply Qfloor_resp_le.
  - rewrite Zlt_Qlt. apply Qle_lt_trans with x; [apply Qfloor_le|exact H2].
Qed.

Lemma py_int_tenth (z : Z) : py_int (inject_Z z * (1 # 10)) = Z.quot z 10.
Proof.
  unfold py_int, Qmult, inject_Z. cbn [Qnum Qden Pos.mul]. now rewrite Z.mul_1_r.
Qed.

(** The range of the drawn limits. *)
Lemma random_limits_drawn (g : rng) :
  drawn_limits (fst (SentenceBreakerTight.get_random_line_syllable_limits g)).
Proof.
  unfold drawn_limits, SentenceBreakerTight.get_random_line_syllable_limits.
  unfold uniform. pose proof (random_range g) as [Hr0 Hr1].
  destruct (random g) as [r g1]. cbn [fst] in Hr0, Hr1.
  set (m := (SentenceBreakerTight.MULTIPLIER_MIN
             + (SentenceBreakerTight.MULTIPLIER_MAX
                - SentenceBreakerTight.MULTIPLIER_MIN) * r)%Q).
  assert (Hm : 1 <= m /\ m < 167 # 100).
  { subst m. unfold SentenceBreakerTight.MULTIPLIER_MIN,
      SentenceBreakerTight.MULTIPLIER_MAX. split; lra. }
  destruct Hm as [Hm1 Hm2].
  set (x6 := (inject_Z SentenceBreakerTight.BASE_MIN_SYLLABLES * m)%Q).
  set (x12 := (inject_Z SentenceBreakerTight.BASE_MAX_SYLLABLES * m)%Q).
  assert (H6 : (6 <= py_int x6 < 11)%Z).
  { apply py_int_between; [lia| |]; subst x6;
      change (inject_Z SentenceBreakerTight.BASE_MIN_SYLLABLES) with 6%Q;
      [change (inject_Z 6) with 6%Q|change (inject_Z 11) with 11%Q]; lra. }
  assert (H12 : (12 <= py_int x12 < 21)%Z).
  { apply py_int_between; [lia| |]; subst x12;
      change (inject_Z SentenceBreakerTight.BASE_MAX_SYLLABLES) with 12%Q;
      [change (inject_Z 12) with 12%Q|change (inject_Z 21) with 21%Q]; lra. }
  assert (Hdouble : (2 * py_int x6 <= py_int x12)%Z).
  { assert (Hx6 : 0 <= x6)
      by (subst x6; change (inject_Z SentenceBreakerTight.BASE_MIN_SYLLABLES) with 6%Q; lra).
    assert (Hx12 : 0 <= x12)
      by (subst x12; change (inject_Z SentenceBreakerTight.BASE_MAX_SYLLABLES) with 12%Q; lra).
    rewrite (py_int_floor _ Hx6), (py_int_floor _ Hx12).
    rewrite <- (Qfloor_Z (2 * Qfloor x6)). apply Qfloor_resp_le.
    rewrite inject_Z_mult. pose proof (Qfloor_le x6) as Hf.
    subst x6 x12.
    change (inject_Z SentenceBreakerTight.BASE_MIN_SYLLABLES) with 6%Q in *.
    change (inject_Z SentenceBreakerTight.BASE_MAX_SYLLABLES) with 12%Q.
    change (inject_Z 2) with 2%Q. lra. }
  set (minb := py_int x6) in *. set (maxb := py_int x12) in *.
  rewrite !py_int_tenth.
  assert (Hf1 : (0 <= Z.quot minb 10)%Z) by (Z.to_euclidean_division_equations; lia).
  assert (Hf2 : (0 <= Z.quot maxb 10)%Z) by (Z.to_euclidean_division_equations; lia).
  pose proof (randint_range (- Z.quot minb 10) (Z.quot minb 10) g1 ltac:(lia)) as Hd1.
  destruct (randint (- Z.quot minb 10) (Z.quot minb 10) g1) as [d1 g2].
  pose proof (randint_range (- Z.quot maxb 10) (Z.quot maxb 10) g2 ltac:(lia)) as Hd2.
  destruct (randint (- Z.quot maxb 10) (Z.quot maxb 10) g2) as [d2 g3].
  cbn [fst snd] in *.
  Z.to_euclidean_division_equations. lia.
Qed.

(** X11. The limits [get_random_line_syllable_limits] returns are
    always a minimum between 6 and 11 and a maximum between 11 and 22,
    at least 5 above the minimum. *)
Theorem X11_random_limits_range (g : rng) :
  let limits := fst (SentenceBreakerTight.get_random_line_syllable_limits g) in
  (6 <= fst limits <= 11)%Z
  /\ (11 <= snd limits <= 22)%Z
  /\ (fst limits + 5 <= snd limits)%Z.
Proof. cbv zeta. apply random_limits_drawn. Qed.

(** ** More on the syllable estimator *)

Lemma vowel_runs_bound (s : str) :
  (2 * vowel_runs true s <= length s)%nat
  /\ (2 * vowel_runs false s <= length s + 1)%nat.
Proof.
  induction s as [|c s [IH1 IH2]]; [simpl; lia|].
  cbn [vowel_runs length]. destruct (is_vowel c); lia.
Qed.

Lemma without_silent_e_length (w : str) :
  (length (without_silent_e w) <= length w)%nat.
Proof.
  unfold without_silent_e.
  assert (H : (length (removelast w) <= length w)%nat)
    by (rewrite removelast_length; lia).
  destruct (rev w) as [|e [|l [|c r]]]; try lia;
    destruct (Ascii.eqb e "e"); try lia.
  destruct (_ && _); lia.
Qed.

Lemma existsb_length {A} (p : A -> bool) (l : list A) :
  existsb p l = true -> (1 <= length l)%nat.
Proof. destruct l; [discriminate|simpl; lia]. Qed.

(** Zero without a letter, at least one with, at most half the length. *)
Lemma estimate_syllables_range (w : str) :
  (estimate_syllables w = 0%Z <-> existsb is_letter w = false)
  /\ (1 <= estimate_syllables w <-> existsb is_letter w = true)%Z
  /\ (2 * estimate_syllables w <= Z.of_nat (length w) + 1)%Z.
Proof.
  rewrite estimate_syllables_refines. unfold estimate_syllables_spec.
  destruct (existsb is_letter w) eqn:El; cbn [negb].
  - pose proof (existsb_length _ _ El) as Hlen.
    pose proof (strip_lower_length w) as Hs.
    pose proof (without_silent_e_length (strip (lower w))) as He.
    pose proof (proj2 (vowel_runs_bound (without_silent_e (strip (lower w))))) as Hv.
    destruct (_ <=? 3)%nat.
    + repeat split; try discriminate; try lia.
    + repeat split; try discriminate; try lia.
  - repeat split; try reflexivity; try lia; discriminate.
Qed.

(** X12. [estimate_syllables] returns 0 exactly for the words without
    an ASCII letter, at least 1 for every other word, and never more
    than half the length of the word, rounded up. *)
Theorem X12_estimate_syllables_bounds (w : str) :
  (estimate_syllables w = 0%Z <-> existsb is_letter w = false)
  /\ (1 <= estimate_syllables w <-> existsb is_letter w = true)%Z
  /\ (2 * estimate_syllables w <= Z.of_nat (length w) + 1)%Z.
Proof. apply estimate_syllables_range. Qed.

Lemma lower_char_idempotent (c : ascii) : lower_char (lower_char c) = lower_char c.
Proof. each_char c. Qed.

Lemma lower_char_space (c : ascii) : is_space (lower_char c) = is_space c.
Proof. each_char c. Qed.

Lemma lower_idempotent (s : str) : lower (lower s) = lower s.
Proof.
  unfold lower. rewrite map_map. apply map_ext. apply lower_char_idempotent.
Qed.

Lemma lower_lstrip (s : str) : lower (lstrip s) = lstrip (lower s).
Proof.
  induction s as [|c s IH]; [reflexivity|].
  cbn [lstrip lower map]. rewrite lower_char_space.
  destruct (is_space c); [exact IH|reflexivity].
Qed.

Lemma lower_rstrip (s : str) : lower (rstrip s) = rstrip (lower s).
Proof.
  induction s as [|c s IH]; [reflexivity|].
  cbn [rstrip lower map]. fold (lower s). rewrite <- IH, lower_char_space.
  destruct (rstrip s) as [|x r]; [now destruct (is_space c)|reflexivity].
Qed.

Lemma lower_strip (s : str) : lower (strip s) = strip (lower s).
Proof. unfold strip. now rewrite lower_rstrip, lower_lstrip. Qed.

Lemma strip_idempotent (s : str) : strip (strip s) = strip s.
Proof.
  unfold strip at 1.
  rewrite lstrip_fixed by (unfold strip; apply rstrip_keeps_start, lstrip_starts).
  apply rstrip_fixed. unfold strip. apply rstrip_ends.
Qed.

Lemma estimate_syllables_by_core (w1 w2 : str) :
  strip (lower w1) = strip (lower w2) ->
  estimate_syllables w1 = estimate_syllables w2.
Proof. intros H. unfold estimate_syllables. now rewrite H. Qed.

(** X13. [estimate_syllables] does not see the case of the letters nor
    whitespace around the word: lowering or stripping the word first,
    or putting whitespace before and after it, gives the same count. *)
Theorem X13_estimate_syllables_ignores_case_and_margin (w pre post : str) :
  forallb is_space pre = true -> forallb is_space post = true ->
  estimate_syllables (lower w) = estimate_syllables w
  /\ estimate_syllables (strip w) = estimate_syllables w
  /\ estimate_syllables (pre ++ w ++ post) = estimate_syllables w.
Proof.
  intros Hpre Hpost. repeat split; apply estimate_syllables_by_core.
  - now rewrite lower_idempotent.
  - now rewrite lower_strip, strip_idempotent.
  - rewrite <- !lower_strip. f_equal. unfold strip.
    assert (Hl : forall a b, forallb is_space a = true -> lstrip (a ++ b) = lstrip b).
    { induction a as [|c a IH]; intros b H; [reflexivity|].
      cbn [forallb] in H. apply andb_true_iff in H as [Hc Ha].
      cbn [app lstrip]. rewrite Hc. now apply IH. }
    assert (Hr : forall a b, forallb is_space b = true -> rstrip (a ++ b) = rstrip a).
    { induction a as [|c a IH]; intros b H.
      - cbn [app]. now apply rstrip_nil_iff.
      - cbn [app rstrip]. now rewrite IH. }
    rewrite Hl by assumption.
    assert (Hlr : forall a b, forallb is_space b = true ->
                              lstrip (a ++ b) = lstrip a ++ b \/ lstrip a = []).
    { induction a as [|c a IH]; intros b H; [now right|].
      cbn [app lstrip]. destruct (is_space c); [now apply IH|now left]. }
    destruct (Hlr w post Hpost) as [E|E].
    + now rewrite E, Hr.
    + rewrite E. apply lstrip_nil_iff in E.
      assert (Hall : forallb is_space (w ++ post) = true)
        by (rewrite forallb_app, E, Hpost; reflexivity).
      apply lstrip_nil_iff in Hall. now rewrite Hall.
Qed.

Lemma X13_estimate_syllables_ignores_case_and_margin_witness :
  estimate_syllables (lit "  Table ") = estimate_syllables (lit "Table").
Proof.
  refine (proj2 (proj2 (X13_estimate_syllables_ignores_case_and_margin
                          (lit "Table") (lit "  ") (lit " ") _ _)));
    reflexivity.
Defined.

Lemma runs_from_chars (p : ascii -> bool) (s : str) :
  forall (cur w : str) (c : ascii),
    In w (runs_from p cur s) -> In c w -> In c cur \/ In c s.
Proof.
  induction s as [|x s IH]; intros cur w c Hw Hc; cbn [runs_from] in Hw.
  - destruct cur; [destruct Hw|]. destruct Hw as [<-|[]]. now left.
  - destruct (p x).
    + destruct (IH _ _ _ Hw Hc) as [H|H]; [|right; now right].
      apply in_app_or in H. destruct H as [H|[<-|[]]]; [now left|right; now left].
    + destruct cur as [|a cur].
      * destruct (IH _ _ _ Hw Hc) as [[]|H]. right. now right.
      * destruct Hw as [<-|Hw]; [now left|].
        destruct (IH _ _ _ Hw Hc) as [[]|H]. right. now right.
Qed.

Lemma letters_only_char (c : ascii) :
  allowed false c = true -> is_space c = false -> is_letter c = true.
Proof. each_char c. Qed.

(** X14. In sentence_breaker_tight.py, where cleaning keeps letters
    only, every word of the cleaned text counts at least one syllable. *)
Theorem X14_tight_words_count_a_syllable (x w : str) :
  In w (split (SentenceBreakerTight.clean_text x)) ->
  (1 <= estimate_syllables w)%Z.
Proof.
  rewrite clean_text_letters_only. intros Hw.
  apply estimate_syllables_range.
  pose proof (split_tokens (normalize false x)) as Htok.
  rewrite forallb_forall in Htok. specialize (Htok w Hw).
  pose proof (normalize_normalized false x) as (Ha & _).
  rewrite forallb_forall in Ha.
  unfold token in Htok. destruct w as [|c r]; [discriminate|].
  cbn [existsb]. rewrite forallb_forall in Htok.
  rewrite letters_only_char; [reflexivity| |].
  - apply Ha. destruct (runs_from_chars _ _ _ _ c Hw (or_introl eq_refl)) as [[]|H].
    exact H.
  - specialize (Htok c (or_introl eq_refl)). now apply negb_true_iff in Htok.
Qed.

Lemma X14_tight_words_count_a_syllable_witness :
  (1 <= estimate_syllables (lit "world"))%Z.
Proof.
  refine (X14_tight_words_count_a_syllable (lit "Hello, World 42") (lit "world") _).
  vm_compute. auto.
Defined.

(** ** More on the obfuscated words *)

Lemma by_triples (P : list ascii -> Prop) :
  P [] -> (forall a, P [a]) -> (forall a b, P [a; b]) ->
  (forall a b c rest, P rest -> P (a :: b :: c :: rest)) ->
  forall bytes, P bytes.
Proof.
  intros H0 H1 H2 H3.
  assert (H : forall n bytes, (length bytes <= n)%nat -> P bytes).
  { induction n as [|n IH]; intros bytes Hn.
    - destruct bytes; [exact H0|simpl in Hn; lia].
    - destruct bytes as [|a [|b [|c rest]]]; auto.
      apply H3, IH. simpl in Hn. lia. }
  intros bytes. now apply (H (length bytes)).
Qed.

Lemma digit_safe (v : N) : b64_safe (PyBase64.digit v) = true.
Proof.
  unfold b64_safe, PyBase64.digit.
  destruct (nth_in_or_default (N.to_nat v) PyBase64.alphabet "=") as [H|H].
  - apply orb_true_iff. left. apply existsb_exists.
    eexists. split; [exact H|apply Ascii.eqb_refl].
  - rewrite H. apply orb_true_iff. now right.
Qed.

Lemma b64encode_safe (bytes : list ascii) :
  forallb b64_safe (PyBase64.b64encode bytes) = true.
Proof.
  induction bytes as [|a|a b|a b c rest IH] using by_triples;
    cbn [PyBase64.b64encode forallb]; rewrite ?digit_safe; auto.
Qed.

(** X15. Whatever the word, its obfuscated form holds only Base64
    digits and the padding sign: no quotation mark, angle bracket,
    ampersand or blank that would break the attribute it is written
    into. *)
Theorem X15_encrypt_word_is_base64_text (word : str) :
  forallb b64_safe (SentenceBreakerTight.encrypt_word word) = true
  /\ forall c, In c ["034"; "<"; ">"; "&"; " "; "010"] ->
               ~ In c (SentenceBreakerTight.encrypt_word word).
Proof.
  assert (H : forallb b64_safe (SentenceBreakerTight.encrypt_word word) = true).
  { unfold SentenceBreakerTight.encrypt_word.
    destruct word as [|c w]; [reflexivity|].
    destruct (_ <? _)%nat; [apply forallb_firstn|]; apply b64encode_safe. }
  split; [exact H|].
  intros c Hc Hin. rewrite forallb_forall in H. specialize (H c Hin).
  cbn [In] in Hc.
  repeat (destruct Hc as [<-|Hc]; [vm_compute in H; discriminate|]).
  exact Hc.
Qed.

Lemma b64encode_length (bytes : list ascii) :
  length (PyBase64.b64encode bytes) = (4 * ((length bytes + 2) / 3))%nat.
Proof.
  induction bytes as [|a|a b|a b c rest IH] using by_triples;
    try reflexivity.
  cbn [PyBase64.b64encode length]. rewrite IH.
  replace (S (S (S (length rest))) + 2)%nat with ((length rest + 2) + 1 * 3)%nat by lia.
  rewrite Nat.div_add by lia. lia.
Qed.

Ltac by_thirds n :=
  pose proof (Nat.div_mod_eq (n + 2) 3);
  pose proof (Nat.mod_upper_bound (n + 2) 3 ltac:(lia));
  set (q := ((n + 2) / 3)%nat) in *;
  set (r := ((n + 2) mod 3)%nat) in *;
  clearbody q r; lia.

(** X16. The obfuscated form of a word of [n] ASCII characters has
    [min(n + 2, 4 * ceil(n / 3))] characters: [n + 2] for every word
    that is not empty, except [n + 1 = 4] for the words of three
    characters. *)
Theorem X16_encrypt_word_length (word : str) :
  forallb is_ascii word = true ->
  length (SentenceBreakerTight.encrypt_word word)
  = Nat.min (length word + 2) (4 * ((length word + 2) / 3))
  /\ (length word <> 0 -> length word <> 3 ->
      length (SentenceBreakerTight.encrypt_word word) = length word + 2)%nat
  /\ (length word = 3 ->
      length (SentenceBreakerTight.encrypt_word word) = 4)%nat.
Proof.
  intros Hascii.
  assert (H : length (SentenceBreakerTight.encrypt_word word)
              = Nat.min (length word + 2) (4 * ((length word + 2) / 3))).
  { unfold SentenceBreakerTight.encrypt_word.
    rewrite (encode_ascii _ Hascii).
    destruct word as [|c w] eqn:E; [reflexivity|]. rewrite <- E.
    assert (Hn : (1 <= length word)%nat) by (rewrite E; simpl; lia).
    pose proof (b64encode_length word) as HL.
    destruct (Nat.ltb_spec (length word) (length (PyBase64.b64encode word)))
      as [Hlt|Hge].
    - rewrite length_firstn, HL. reflexivity.
    - rewrite HL in Hge. exfalso. revert Hge Hn.
      generalize (length word). intros n Hge Hn. by_thirds n. }
  rewrite H. split; [reflexivity|].
  generalize (length word). intros n.
  split; intros; by_thirds n.
Qed.

Lemma X16_encrypt_word_length_witness :
  length (SentenceBreakerTight.encrypt_word (lit "trained"))
  = Nat.min (length (lit "trained") + 2) (4 * ((length (lit "trained") + 2) / 3)).
Proof.
  refine (proj1 (X16_encrypt_word_length (lit "trained") _)). reflexivity.
Defined.

(** X17. The Base64 text itself is reversible: [decode_word] reads
    every byte string back from its full encoding, so every ASCII word
    is recovered from the text line 65 computes; what is lost is lost
    by the truncation alone. *)
Theorem X17_base64_round_trip (bytes word : str) :
  forallb is_ascii word = true ->
  Decode.decode_word (PyBase64.b64encode bytes) = bytes
  /\ Decode.decode_word (PyBase64.b64encode (PyBase64.encode word)) = word.
Proof.
  intros Hascii.
  assert (H : forall bs, Decode.decode_word (PyBase64.b64encode bs) = bs).
  { induction bs as [|a|a b|a b c rest IH] using by_triples.
    - reflexivity.
    - cbn [PyBase64.b64encode]. read_back.
    - cbn [PyBase64.b64encode]. read_back.
    - cbn [PyBase64.b64encode]. unfold Decode.decode_word in *.
      cbn [filter].
      repeat rewrite digit_not_pad by six_bits.
      cbn [map]. repeat rewrite value_digit by six_bits.
      cbn [Decode.bytes_of]. rewrite IH.
      repeat (f_equal; try (apply ascii_of_code; six_bits)). }
  split; [apply H|]. rewrite (encode_ascii _ Hascii). apply H.
Qed.

Lemma X17_base64_round_trip_witness :
  Decode.decode_word (PyBase64.b64encode (PyBase64.encode (lit "trained")))
  = lit "trained".
Proof.
  refine (proj2 (X17_base64_round_trip [] (lit "trained") _)). reflexivity.
Defined.

Lemma X15_encrypt_word_is_base64_text_witness :
  ~ In "034" (SentenceBreakerTight.encrypt_word (lit "trained")).
Proof.
  refine (proj2 (X15_encrypt_word_is_base64_text (lit "trained")) "034" _).
  now left.
Defined.

(** ** The slicing loop of chop.py and chop2.py *)

Lemma slice_loop_chunks (sampled_words : list str) (fuel : nat) :
  forall (i : nat) (acc : list str) (g : rng),
    (length sampled_words - i < fuel)%nat ->
    exists chunks g',
      slice_loop fuel 3 7 sampled_words i acc g
      = Some (acc ++ map (join space) chunks, g')
      /\ concat chunks = skipn i sampled_words
      /\ Forall (fun c => (1 <= length c <= 7)%nat) chunks
      /\ Forall (fun c => (3 <= length c)%nat) (removelast chunks).
Proof.
  induction fuel as [|fuel IH]; intros i acc g Hf; [lia|].
  cbn [slice_loop]. destruct (Nat.ltb_spec i (length sampled_words)) as [Hi|Hi].
  - pose proof (randint_range 3 7 g ltac:(lia)) as Hr.
    destruct (randint 3 7 g) as [n g1]. cbn [fst] in Hr.
    set (ll := Z.to_nat n). assert (Hll : (3 <= ll <= 7)%nat) by lia.
    set (chunk := firstn ll (skipn i sampled_words)).
    destruct (IH (i + ll)%nat (acc ++ [join space chunk]) g1 ltac:(lia))
      as (chunks & g' & E & Hc & Hsz & Hmin).
    exists (chunk :: chunks), g'.
    assert (Hlen : length chunk = Nat.min ll (length sampled_words - i))
      by (subst chunk; now rewrite length_firstn, length_skipn).
    split; [|split; [|split]].
    + rewrite E, <- app_assoc. reflexivity.
    + cbn [concat]. rewrite Hc. subst chunk.
      rewrite Nat.add_comm, <- skipn_skipn. apply firstn_skipn.
    + constructor; [lia|exact Hsz].
    + destruct chunks as [|c2 cs]; [constructor|].
      change (removelast (chunk :: c2 :: cs)) with (chunk :: removelast (c2 :: cs)).
      constructor; [|exact Hmin].
      assert (Hmore : (i + ll < length sampled_words)%nat).
      { destruct (Nat.lt_ge_cases (i + ll) (length sampled_words)) as [H|H];
          [exact H|].
        rewrite skipn_all2 in Hc by lia. cbn [concat] in Hc.
        apply app_eq_nil in Hc as [Hc _]. inversion Hsz as [|? ? Hc2 _]; subst.
        simpl in Hc2. lia. }
      lia.
  - exists [], g. rewrite skipn_all2 by lia. cbn [map].
    rewrite app_nil_r. repeat split; constructor.
Qed.

Lemma joined_chunks_words (chunks : list (list str)) :
  forallb token (concat chunks) = true ->
  words_of_lines (map (join space) chunks) = concat chunks
  /\ map split (map (join space) chunks) = chunks.
Proof.
  unfold words_of_lines. induction chunks as [|c cs IH]; intros H; [now split|].
  cbn [concat] in H. rewrite forallb_app in H. apply andb_true_iff in H as [Hc Hcs].
  destruct (IH Hcs) as [IH1 IH2].
  cbn [map concat]. rewrite split_join_tokens by assumption.
  now rewrite IH1, IH2.
Qed.

(** X18. On sampled words as [split] yields them, the slicing loop of
    chop.py and chop2.py ends and keeps every word in order; every line
    holds between 1 and 7 words, and every line but the last at least
    3. *)
Theorem X18_slicing_keeps_words_three_to_seven_a_line
    (sampled_words : list str) (g : rng) :
  forallb token sampled_words = true ->
  exists lines g',
    slice_loop (S (length sampled_words)) 3 7 sampled_words 0 [] g
    = Some (lines, g')
    /\ words_preserved sampled_words lines
    /\ Forall (fun line => (1 <= length (split line) <= 7)%nat) lines
    /\ Forall (fun line => (3 <= length (split line))%nat) (removelast lines).
Proof.
  intros Htok.
  destruct (slice_loop_chunks sampled_words (S (length sampled_words)) 0 [] g
              ltac:(lia)) as (chunks & g' & E & Hc & Hsz & Hmin).
  cbn [skipn app] in *. exists (map (join space) chunks), g'.
  assert (Ht : forallb token (concat chunks) = true) by now rewrite Hc.
  destruct (joined_chunks_words chunks Ht) as [Hw Hs].
  assert (Hchunk : forall c, In c chunks -> split (join space c) = c).
  { intros c Hin. apply split_join_tokens. apply forallb_forall. intros w Hw'.
    rewrite forallb_forall in Ht. apply Ht. now apply (concat_In _ c). }
  split; [exact E|]. split; [|split].
  - unfold words_preserved. unfold newline. rewrite split_join by reflexivity.
    fold (words_of_lines (map (join space) chunks)). rewrite Hw, Hc.
    repeat split; auto.
  - apply Forall_map. rewrite Forall_forall in *. intros c Hin.
    rewrite (Hchunk c Hin). now apply Hsz.
  - rewrite removelast_map. apply Forall_map. rewrite Forall_forall in *.
    intros c Hin. rewrite (Hchunk c (removelast_In _ _ Hin)). now apply Hmin.
Qed.

Lemma X18_slicing_keeps_words_three_to_seven_a_line_witness :
  exists lines g',
    slice_loop 10 3 7 (split (lit "the quick brown fox jumps over the lazy dog"))
      0 [] counting = Some (lines, g')
    /\ words_preserved (split (lit "the quick brown fox jumps over the lazy dog"))
         lines
    /\ Forall (fun line => (1 <= length (split line) <= 7)%nat) lines
    /\ Forall (fun line => (3 <= length (split line))%nat) (removelast lines).
Proof.
  refine (X18_slicing_keeps_words_three_to_seven_a_line
            (split (lit "the quick brown fox jumps over the lazy dog")) counting _).
  vm_compute. reflexivity.
Defined.

Lemma ceiling_in_range (n : Z) (p : Q) :
  (0 <= n)%Z -> 0 <= p -> p <= 1 -> (Qceiling (inject_Z n * p) <= n)%Z.
Proof.
  intros Hn Hp0 Hp1. rewrite <- (Qceiling_Z n) at 2. apply Qceiling_resp_le.
  now apply product_in_range.
Qed.

(** X19. chop.py, for a fraction [p] between 0 and 1 and a text of [n]
    words, does not raise; the words of its output are part of the
    words of the text, and their number is [n * p] brought to a whole
    number, down or up: it lies between the floor and the ceiling of
    [n * p], and may be 0. (The script truncates the product of
    doubles, and rounding may have taken the exact product up to the
    next whole number.) *)
Theorem X19_chop_keeps_its_share_of_the_words (text : str) (p : Q) (g : rng) :
  0 <= p -> p <= 1 ->
  exists out g',
    Chop.randomly_reduce_and_lineate_text text p g = Some (out, g')
    /\ (Qfloor (inject_Z (Z.of_nat (length (split text))) * p)
        <= Z.of_nat (length (split out))
        <= Qceiling (inject_Z (Z.of_nat (length (split text))) * p))%Z
    /\ exists rest, Permutation (split out ++ rest) (split text).
Proof.
  intros Hp0 Hp1. unfold Chop.randomly_reduce_and_lineate_text.
  set (words := split text). set (n := Z.of_nat (length words)).
  assert (Hn : (0 <= n)%Z) by (subst n; lia).
  destruct (product_in_range n p Hn Hp0 Hp1) as [Hx _].
  pose proof (ceiling_in_range n p Hn Hp0 Hp1) as Hc.
  pose proof (rounded_count_between (fun x => x)
                (Z.abs (2 * Qceiling (inject_Z n * p)))
                (fun _ _ H => H) (fun z _ => Qeq_refl (z # 2))
                words p Hx (Z.le_refl _)) as Hk.
  unfold rounded_count in Hk. fold n in Hk.
  set (k := py_int (inject_Z n * p)) in *.
  assert (Hf : (0 <= Qfloor (inject_Z n * p))%Z).
  { rewrite <- (Qfloor_Z 0). now apply Qfloor_resp_le. }
  destruct (sample words k g) as [[sampled g1]|] eqn:E.
  - destruct (sample_part _ _ _ _ _ E) as [Hl Hrest].
    assert (Htok : forallb token sampled = true)
      by (eapply sampled_words_are_tokens; exact E).
    destruct (slice_loop_chunks sampled (S (length sampled)) 0 [] g1 ltac:(lia))
      as (chunks & g' & Es & Hch & _ & _).
    cbn [skipn app] in *. rewrite Es.
    exists (join newline (map (join space) chunks)), g'.
    assert (Ht : forallb token (concat chunks) = true) by now rewrite Hch.
    destruct (joined_chunks_words chunks Ht) as [Hw _].
    assert (Hsplit : split (join newline (map (join space) chunks)) = sampled).
    { unfold newline. rewrite split_join by reflexivity.
      fold (words_of_lines (map (join space) chunks)). now rewrite Hw. }
    rewrite Hsplit. split; [reflexivity|]. split; [lia|exact Hrest].
  - apply sample_raises_iff in E. fold n in E. lia.
Qed.

Lemma X19_chop_keeps_its_share_of_the_words_witness :
  exists out g',
    Chop.randomly_reduce_and_lineate_text (lit "one two three") (3 # 10) counting
    = Some (out, g')
    /\ (Qfloor (inject_Z (Z.of_nat (length (split (lit "one two three"))))
                * (3 # 10))
        <= Z.of_nat (length (split out))
        <= Qceiling (inject_Z (Z.of_nat (length (split (lit "one two three"))))
                     * (3 # 10)))%Z
    /\ exists rest, Permutation (split out ++ rest) (split (lit "one two three")).
Proof.
  refine (X19_chop_keeps_its_share_of_the_words (lit "one two three") (3 # 10)
            counting _ _); unfold Qle; simpl; lia.
Defined.

(** ** The file names *)

Lemma normalized_word_chars (d : bool) (x w : str) (c : ascii) :
  In w (split (normalize d x)) -> In c w -> name_char c = true.
Proof.
  intros Hw Hc.
  pose proof (split_tokens (normalize d x)) as Htok.
  rewrite forallb_forall in Htok. specialize (Htok w Hw).
  pose proof (normalize_normalized d x) as (Ha & _).
  rewrite forallb_forall in Ha.
  assert (Hsp : is_space c = false).
  { unfold token in Htok. destruct w; [destruct Hc|].
    rewrite forallb_forall in Htok. specialize (Htok c Hc).
    now apply negb_true_iff in Htok. }
  destruct (runs_from_chars _ _ _ _ c Hw Hc) as [[]|Hin].
  specialize (Ha c Hin). revert Ha Hsp. clear. destruct d; each_char c.
Qed.

Lemma join_chars (sep : str) (ws : list str) (c : ascii) :
  In c (join sep ws) -> In c sep \/ exists w, In w ws /\ In c w.
Proof.
  induction ws as [|w ws IH]; [intros []|].
  destruct ws as [|v ws].
  - intros H. right. exists w. split; [now left|exact H].
  - change (join sep (w :: v :: ws)) with (w ++ sep ++ join sep (v :: ws)).
    intros H. apply in_app_or in H. destruct H as [H|H].
    + right. exists w. split; [now left|exact H].
    + apply in_app_or in H. destruct H as [H|H]; [now left|].
      destruct (IH H) as [Hs|(u & Hu & Hcu)]; [now left|].
      right. exists u. split; [now right|exact Hcu].
Qed.

(** The draw of the title words: [lo] to 4 of them, never more than the
    text has, so the sampler does not raise. *)
Lemma title_words_drawn (d : bool) (x : str) (lo : Z) (g : rng) :
  split (normalize d x) <> [] -> (1 <= lo <= 4)%Z ->
  exists title_words g',
    (let (r, g1) := randint lo 4 g in
     sample (split (normalize d x))
       (Z.min r (Z.of_nat (length (split (normalize d x))))) g1)
    = Some (title_words, g')
    /\ title_of (Z.to_nat lo) (split (normalize d x)) title_words.
Proof.
  intros Hw Hlo. set (words := split (normalize d x)) in *.
  assert (Hn : (1 <= Z.of_nat (length words))%Z)
    by (destruct words; [contradiction|simpl; lia]).
  pose proof (randint_range lo 4 g ltac:(lia)) as Hr.
  destruct (randint lo 4 g) as [r g1]. cbn [fst] in Hr.
  set (k := Z.min r (Z.of_nat (length words))).
  destruct (sample words k g1) as [[tw g']|] eqn:E.
  - exists tw, g'. split; [reflexivity|].
    destruct (sample_part _ _ _ _ _ E) as [Hl [rest Hrest]].
    unfold title_of. split; [subst k; lia|]. split; [now exists rest|].
    apply forallb_forall. intros c Hc.
    destruct (join_chars _ _ _ Hc) as [[<-|[]]|(w & Hin & Hcw)]; [reflexivity|].
    apply (normalized_word_chars d x w c); [|exact Hcw].
    apply (Permutation_in w Hrest). apply in_or_app. now left.
  - unfold sample in E.
    replace ((0 <=? k) && (k <=? Z.of_nat (length words)))%Z with true in E
      by (symmetry; apply andb_true_iff; split; apply Z.leb_le; lia).
    discriminate.
Qed.

(** X20. For a text with words, [generate_title_filename] of
    create_broken_sentences.py and the naming step of chop2.3.py do not
    raise and return a title followed by ".txt": the title is 2 to 4
    (chop2.3.py: 1 to 4) words of the cleaned text, fewer only when the
    text has fewer, joined by underscores, so the name holds lowercase
    letters, digits and underscores only. *)
Theorem X20_title_file_names (x input_filename : str) (g : rng) :
  existsb (word_char true) x = true ->
  (exists title_words g',
     CreateBrokenSentences.generate_title_filename
       (CreateBrokenSentences.clean_text x) input_filename g
     = Some (join ["_"] title_words ++ lit ".txt", g')
     /\ title_of 2 (split (CreateBrokenSentences.clean_text x)) title_words)
  /\ (exists title_words g',
        Chop23.output_filename (Chop22.clean_text x) g
        = Some (join ["_"] title_words ++ lit ".txt", g')
        /\ title_of 1 (split (Chop22.clean_text x)) title_words).
Proof.
  intros Hx.
  change (CreateBrokenSentences.clean_text x) with (normalize true x).
  change (Chop22.clean_text x) with (normalize true x).
  assert (Hw : split (normalize true x) <> []).
  { intros E. apply normalize_no_words_iff in E. congruence. }
  unfold CreateBrokenSentences.generate_title_filename, Chop23.output_filename.
  split.
  - destruct (title_words_drawn true x 2 g Hw ltac:(lia)) as (tw & g' & E & Ht).
    exists tw, g'. split; [|exact Ht].
    destruct (split (normalize true x)); [contradiction|].
    destruct (randint 2 4 g) as [r g1]. now rewrite E.
  - destruct (title_words_drawn true x 1 g Hw ltac:(lia)) as (tw & g' & E & Ht).
    exists tw, g'. split; [|exact Ht].
    destruct (split (normalize true x)); [contradiction|].
    destruct (randint 1 4 g) as [r g1]. now rewrite E.
Qed.

Lemma X20_title_file_names_witness :
  exists title_words g',
    Chop23.output_filename (Chop22.clean_text (lit "The quick, brown fox!")) counting
    = Some (join ["_"] title_words ++ lit ".txt", g')
    /\ title_of 1 (split (Chop22.clean_text (lit "The quick, brown fox!")))
         title_words.
Proof.
  refine (proj2 (X20_title_file_names (lit "The quick, brown fox!") (lit "in.txt")
                   counting _)).
  reflexivity.
Defined.

Lemma replace_txt_suffix (t : str) :
  forallb name_char t = true ->
  PyPath.replace (t ++ lit ".txt") (lit ".txt") [] = t.
Proof.
  unfold PyPath.replace. induction t as [|c t IH]; intros H; [reflexivity|].
  cbn [forallb] in H. apply andb_true_iff in H as [Hc Ht].
  cbn [app PyPath.replace_from].
  assert (Hs : PyPath.startswith (c :: t ++ lit ".txt") (lit ".txt") = false).
  { unfold PyPath.startswith.
    destruct (list_eq_dec ascii_dec _ _) as [E|E]; [|reflexivity].
    exfalso. change (lit ".txt") with ["."; "t"; "x"; "t"] in E at 2.
    cbn [length firstn] in E. injection E as E _. subst c. discriminate. }
  rewrite Hs. now rewrite IH.
Qed.

(** X21. For a text with words, the name [process_file] of
    sentence_breaker_tight.py gives the HTML file is the title, 2 to 4
    words of the cleaned text (fewer only when the text has fewer)
    joined by underscores, followed by ".html": the replacement of
    ".txt" removes the extension and nothing else. *)
Theorem X21_html_file_name (x input_file : str) (g : rng) :
  existsb (word_char false) x = true ->
  exists title_words g',
    SentenceBreakerTight.title_filename (SentenceBreakerTight.clean_text x)
      input_file g
    = Some (join ["_"] title_words ++ lit ".html", g')
    /\ title_of 2 (split (SentenceBreakerTight.clean_text x)) title_words.
Proof.
  intros Hx. rewrite clean_text_letters_only.
  assert (Hw : split (normalize false x) <> []).
  { intros E. apply normalize_no_words_iff in E. congruence. }
  unfold SentenceBreakerTight.title_filename,
    SentenceBreakerTight.generate_title_filename.
  destruct (title_words_drawn false x 2 g Hw ltac:(lia)) as (tw & g' & E & Ht).
  exists tw, g'. split; [|exact Ht].
  destruct (split (normalize false x)); [contradiction|].
  destruct (randint 2 4 g) as [r g1]. rewrite E.
  rewrite replace_txt_suffix; [reflexivity|apply Ht].
Qed.

Lemma X21_html_file_name_witness :
  exists title_words g',
    SentenceBreakerTight.title_filename
      (SentenceBreakerTight.clean_text (lit "The quick, brown fox!"))
      (lit "in.txt") counting
    = Some (join ["_"] title_words ++ lit ".html", g')
    /\ title_of 2 (split (SentenceBreakerTight.clean_text (lit "The quick, brown fox!")))
         title_words.
Proof.
  refine (X21_html_file_name (lit "The quick, brown fox!") (lit "in.txt") counting _).
  reflexivity.
Defined.

(** ** sentence_breaker_tight.py on small words *)

Section SmallWords.

Variable draw : rng -> (Z * Z) * rng.
Variable Q : Z * Z -> Prop.
Variable W : Z.
Hypothesis draw_Q : forall g, Q (fst (draw g)).
Hypothesis Q_minimum : forall lim, Q lim -> (1 <= fst lim)%Z.
Hypothesis Q_room : forall lim, Q lim -> (W <= snd lim - fst lim + 1)%Z.

Lemma small_words_within_maximum (sampled_words : list str) (g : rng) :
  Forall (fun w => (estimate_syllables w <= W)%Z) sampled_words ->
  Forall (fun l => (line_syllables (snd l) <= snd (fst l))%Z)
    (traced_lines draw sampled_words g).
Proof.
  intros Hsmall.
  destruct (traced_lines_facts draw Q draw_Q sampled_words g) as (Hb & Hq & Hw & Hne).
  specialize (Hne Q_minimum).
  unfold lines_within_budget in Hb. rewrite Forall_forall in *.
  intros l Hl. specialize (Hb l Hl (Hne l Hl)).
  pose proof (Q_minimum _ (Hq l Hl)) as Hmin.
  pose proof (Q_room _ (Hq l Hl)) as Hroom.
  destruct Hb as [Hb|(init & w & E & Hinit & Hover)]; [exact Hb|].
  exfalso.
  assert (Hin : In w sampled_words).
  { rewrite <- Hw. apply (concat_In _ (snd l)); [now apply in_map|].
    rewrite E. apply in_or_app. right. now left. }
  specialize (Hsmall w Hin). rewrite E, line_syllables_snoc in Hover.
  destruct Hinit as [->|Hinit]; simpl in *; lia.
Qed.

End SmallWords.

(** X22. In sentence_breaker_tight.py, when no sampled word counts
    more than 6 syllables, every line is within the maximum drawn for
    it, hence within 22 syllables, and every line but the last has
    reached the minimum drawn for it, hence counts at least 6. The
    limits drawn for a line are those the instrumented loop records
    with its words; its lines, rendered, are the lines of the script. *)
Theorem X22_tight_lines_of_small_words (sampled_words : list str) (g : rng) :
  forallb token sampled_words = true ->
  Forall (fun w => (estimate_syllables w <= 6)%Z) sampled_words ->
  let traced :=
    traced_lines SentenceBreakerTight.get_random_line_syllable_limits
      sampled_words g in
  fst (SentenceBreakerTight.lineate sampled_words g) = map render traced
  /\ Forall (fun l =>
               split (render l) = snd l
               /\ drawn_limits (fst l)
               /\ (line_syllables (snd l) <= snd (fst l))%Z) traced
  /\ Forall (fun l => (fst (fst l) <= line_syllables (snd l))%Z) (removelast traced)
  /\ Forall (fun line => (line_syllables (split line) <= 22)%Z)
       (fst (SentenceBreakerTight.lineate sampled_words g))
  /\ Forall (fun line => (6 <= line_syllables (split line))%Z)
       (removelast (fst (SentenceBreakerTight.lineate sampled_words g))).
Proof.
  intros Htok Hsmall traced. rewrite tight_lineate_traced.
  set (draw := SentenceBreakerTight.get_random_line_syllable_limits) in *.
  fold traced.
  assert (Hmax : Forall (fun l => (line_syllables (snd l) <= snd (fst l))%Z) traced).
  { apply (small_words_within_maximum draw drawn_limits 6 random_limits_drawn);
      [| |exact Hsmall]; intros lim (H1 & H2 & H3); lia. }
  destruct (traced_lines_facts draw drawn_limits random_limits_drawn sampled_words g)
    as (_ & Hq & Hw & _).
  pose proof (proj2 (traced_lines_greedy draw sampled_words g)) as Hmin.
  fold traced in Hq, Hw, Hmin.
  assert (HtokT : forallb token (concat (map snd traced)) = true) by now rewrite Hw.
  split; [reflexivity|]. split; [|split; [|split]].
  - rewrite Forall_forall in *. intros l Hl.
    split; [exact (rendered_line_words traced l HtokT Hl)|].
    split; [exact (Hq l Hl)|exact (Hmax l Hl)].
  - rewrite Forall_forall in *. intros l Hl. exact (Hmin l Hl).
  - apply Forall_map. rewrite Forall_forall in *. intros l Hl.
    rewrite (rendered_line_words traced l HtokT Hl).
    specialize (Hmax l Hl). destruct (Hq l Hl) as (_ & H2 & _). lia.
  - rewrite removelast_map. apply Forall_map.
    apply removelast_Forall in Hq.
    rewrite Forall_forall in *. intros l Hl.
    rewrite (rendered_line_words traced l HtokT (removelast_In _ _ Hl)).
    specialize (Hmin l Hl). unfold reached_minimum in Hmin.
    destruct (Hq l Hl) as (H1 & _). lia.
Qed.

Lemma X22_tight_lines_of_small_words_witness :
  Forall (fun l =>
            split (render l) = snd l
            /\ drawn_limits (fst l)
            /\ (line_syllables (snd l) <= snd (fst l))%Z)
    (traced_lines SentenceBreakerTight.get_random_line_syllable_limits
       [lit "lazy"; lit "dog"; lit "university"; lit "fox"; lit "table"]
       counting).
Proof.
  refine (proj1 (proj2 (X22_tight_lines_of_small_words
                   [lit "lazy"; lit "dog"; lit "university"; lit "fox"; lit "table"]
                   counting _ _))).
  - vm_compute. reflexivity.
  - repeat constructor; vm_compute; discriminate.
Defined.

(** ** chop2.py *)

(** X23. chop2.py, for a fraction [p] between 0 and 1, does not raise:
    on a text without words it returns its notice, and otherwise a text
    of words that are part of the [n] words of the input; their number
    is [n * p] brought to a whole number, down or up, and at least 1:
    it lies between [max(1, floor(n * p))] and
    [max(1, ceiling(n * p))]. *)
Theorem X23_chop2_keeps_at_least_a_word (text : str) (p : Q) (g : rng) :
  0 <= p -> p <= 1 ->
  exists out g',
    Chop2.randomly_reduce_and_lineate_text text p g = Some (out, g')
    /\ match split text with
       | [] => out = lit "(The source file was empty.)"
       | _ =>
           (Z.max 1 (Qfloor (inject_Z (Z.of_nat (length (split text))) * p))
            <= Z.of_nat (length (split out))
            <= Z.max 1 (Qceiling (inject_Z (Z.of_nat (length (split text))) * p)))%Z
           /\ exists rest, Permutation (split out ++ rest) (split text)
       end.
Proof.
  intros Hp0 Hp1. unfold Chop2.randomly_reduce_and_lineate_text.
  destruct (split text) as [|w ws] eqn:Es.
  - now exists (lit "(The source file was empty.)"), g.
  - rewrite <- Es. assert (Hw : split text <> []) by (rewrite Es; discriminate).
    set (n := Z.of_nat (length (split text))).
    assert (Hn : (0 <= n)%Z) by (subst n; lia).
    destruct (product_in_range n p Hn Hp0 Hp1) as [Hx Hxn].
    pose proof (keep_count_between (split text) p Hw Hx) as Hb. fold n in Hb.
    assert (Hk : (1 <= keep_count (split text) p <= n)%Z)
      by (apply keep_count_within; [exact Hw|fold n; lra|fold n; lra]).
    destruct (broken_text_of_count text p 6 12 g Hk)
      as (sampled & g1 & E & _ & _ & Htok & Hrest).
    rewrite E.
    destruct (sample_part _ _ _ _ _ E) as [Hl _].
    destruct (slice_loop_chunks sampled (S (length sampled)) 0 [] g1 ltac:(lia))
      as (chunks & g' & Esl & Hc & _ & _).
    cbn [skipn app] in *. rewrite Esl.
    exists (join newline (map (join space) chunks)), g'.
    assert (Ht : forallb token (concat chunks) = true) by now rewrite Hc.
    destruct (joined_chunks_words chunks Ht) as [Hwl _].
    assert (Hsplit : split (join newline (map (join space) chunks)) = sampled).
    { unfold newline. rewrite split_join by reflexivity.
      fold (words_of_lines (map (join space) chunks)). now rewrite Hwl. }
    rewrite Hsplit. split; [reflexivity|]. split; [lia|exact Hrest].
Qed.

Lemma X23_chop2_keeps_at_least_a_word_witness :
  exists out g',
    Chop2.randomly_reduce_and_lineate_text (lit "one two three") (3 # 10) counting
    = Some (out, g')
    /\ match split (lit "one two three") with
       | [] => out = lit "(The source file was empty.)"
       | _ =>
           (Z.max 1 (Qfloor (inject_Z (Z.of_nat (length (split (lit "one two three"))))
                             * (3 # 10)))
            <= Z.of_nat (length (split out))
            <= Z.max 1 (Qceiling
                          (inject_Z (Z.of_nat (length (split (lit "one two three"))))
                           * (3 # 10))))%Z
           /\ exists rest,
                Permutation (split out ++ rest) (split (lit "one two three"))
       end.
Proof.
  refine (X23_chop2_keeps_at_least_a_word (lit "one two three") (3 # 10)
            counting _ _); unfold Qle; simpl; lia.
Defined.

(** ** The flicker page *)

Lemma even_by_mod (n : nat) : (n mod 2 =? 0)%nat = Nat.even n.
Proof.
  pose proof (Nat.mod_upper_bound n 2 ltac:(lia)) as H.
  rewrite (Nat.div_mod_eq n 2) at 2.
  rewrite Nat.add_comm, Nat.even_add_mul_2.
  destruct (n mod 2)%nat as [|[|m]]; [reflexivity|reflexivity|lia].
Qed.

Lemma flicker_run_erase (ws : list str) :
  forall st : traced_state,
    open_limits st = (9, 24)%Z ->
    erase_flicker (fold_left (traced_step (fixed_limits 9 24)) ws st)
    = fold_left SentenceBreakerTight.flicker_step ws (erase_flicker st).
Proof.
  induction ws as [|w ws IH]; intros st H; [reflexivity|].
  cbn [fold_left].
  assert (E : erase_flicker (traced_step (fixed_limits 9 24) st w)
              = SentenceBreakerTight.flicker_step (erase_flicker st) w
              /\ open_limits (traced_step (fixed_limits 9 24) st w) = (9, 24)%Z).
  { unfold traced_step, SentenceBreakerTight.flicker_step, erase_flicker.
    rewrite H. simpl. destruct (_ && _); simpl; [|auto].
    split; [|reflexivity]. now rewrite map_app. }
  destruct E as [E1 E2]. rewrite IH by assumption. now rewrite E1.
Qed.

(** The lines of the flicker loop are the instrumented lines under the
    limits 9 and 24. *)
Lemma flicker_lineate_traced (sampled_words : list str) (g : rng) :
  SentenceBreakerTight.flicker_lineate sampled_words
  = map snd (traced_lines (fixed_limits 9 24) sampled_words g).
Proof.
  unfold SentenceBreakerTight.flicker_lineate, traced_lines, traced_run.
  pose proof (flicker_run_erase sampled_words (traced_start (fixed_limits 9 24) g)
                eq_refl) as H.
  change (erase_flicker (traced_start (fixed_limits 9 24) g))
    with {| SentenceBreakerTight.flicker_lines := [];
            SentenceBreakerTight.flicker_line_words := [];
            SentenceBreakerTight.flicker_line_syllables := 0 |} in H.
  rewrite <- H. unfold erase_flicker, traced_flush. simpl.
  destruct (open_words _); [reflexivity|]. now rewrite map_app.
Qed.

Lemma word_elements_facts (d : Z) (line_index : nat) (ws : list str) :
  d = (if Nat.even line_index then 1 else -1)%Z ->
  forall (i : nat) (g : rng),
    map SentenceBreakerTight.data_original
      (fst (SentenceBreakerTight.word_elements d i ws g)) = ws
    /\ Forall (flicker_span line_index)
         (fst (SentenceBreakerTight.word_elements d i ws g)).
Proof.
  intros Hd. induction ws as [|w ws IH]; intros i g; [now split|].
  cbn [SentenceBreakerTight.word_elements].
  pose proof (uniform_range 2000 4000 g ltac:(unfold Qle; simpl; lia)) as [Hu1 Hu2].
  destruct (uniform 2000 4000 g) as [interval g1]. cbn [fst] in Hu1, Hu2.
  specialize (IH (S i) g1).
  destruct (SentenceBreakerTight.word_elements d (S i) ws g1) as [els g2].
  cbn [fst map] in *. destruct IH as [IH1 IH2].
  split; [now rewrite IH1|].
  constructor; [|exact IH2].
  unfold flicker_span. cbn. rewrite Hd.
  destruct (Nat.even line_index); repeat split; auto.
Qed.

Lemma html_lines_facts (lines : list (list str)) :
  forall (line_index : nat) (g : rng),
    page_words (fst (SentenceBreakerTight.html_lines line_index lines g)) = lines
    /\ flicker_spans line_index
         (fst (SentenceBreakerTight.html_lines line_index lines g)).
Proof.
  unfold page_words.
  induction lines as [|l ls IH]; intros line_index g; [now split|].
  cbn [SentenceBreakerTight.html_lines]. rewrite even_by_mod.
  pose proof (word_elements_facts
                (if Nat.even line_index then 1 else -1)%Z line_index l eq_refl 0 g)
    as [Hw Hs].
  destruct (SentenceBreakerTight.word_elements _ 0 l g) as [els g1].
  specialize (IH (S line_index) g1).
  destruct (SentenceBreakerTight.html_lines (S line_index) ls g1) as [rest g2].
  cbn [fst map flicker_spans] in *. destruct IH as [IH1 IH2].
  split; [now rewrite Hw, IH1|now split].
Qed.

(** X24. For a text with words and a fraction between 0 and 1,
    [create_broken_sentence_text_with_flicker] does not raise. The
    words of its spans, line by line, are the lines of its loop: they
    are part of the words of the text, no line is empty, and every line
    is within 24 syllables or over by its last word alone, appended
    under 9. Every span carries the obfuscated form of its word; even
    lines start with the word, odd lines with the obfuscated form; the
    intervals lie between 2000 and 4000 and the line spacing between
    0.3 and 0.5. *)
Theorem X24_flicker_page (text : str) (p : Q) (g : rng) :
  split text <> [] -> 0 <= p -> p <= 1 ->
  exists lines spacing g',
    SentenceBreakerTight.flicker_elements text p g
    = Some (SentenceBreakerTight.Page lines spacing, g')
    /\ (exists rest, Permutation (concat (page_words lines) ++ rest) (split text))
    /\ lines <> []
    /\ Forall (fun ws => ws <> [] /\ budget_rule (9, 24)%Z ws) (page_words lines)
    /\ flicker_spans 0 lines
    /\ (3 # 10) <= spacing /\ spacing <= (5 # 10).
Proof.
  intros Hw Hp0 Hp1. unfold SentenceBreakerTight.flicker_elements.
  destruct (broken_text_of_sample text p 6 12 g Hw Hp0 Hp1)
    as (sampled & g1 & E & _ & Hne & _ & Hrest).
  destruct (split text) as [|w0 ws0] eqn:Es; [contradiction|]. rewrite E.
  pose proof (html_lines_facts (SentenceBreakerTight.flicker_lineate sampled) 0 g1)
    as [Hwords Hspans].
  destruct (SentenceBreakerTight.html_lines 0 _ g1) as [lines g2].
  cbn [fst] in Hwords, Hspans.
  pose proof (uniform_range (3 # 10) (5 # 10) g2 ltac:(unfold Qle; simpl; lia))
    as [Hu1 Hu2].
  destruct (uniform (3 # 10) (5 # 10) g2) as [spacing g3]. cbn [fst] in Hu1, Hu2.
  exists lines, spacing, g3. split; [reflexivity|].
  rewrite Hwords, (flicker_lineate_traced sampled zeros).
  destruct (traced_lines_facts (fixed_limits 9 24) (fun lim => lim = (9, 24)%Z)
              (fun _ => eq_refl) sampled zeros) as (Hb & Hq & Hc & Hnonempty).
  specialize (Hnonempty ltac:(intros lim ->; simpl; lia)).
  split; [now rewrite Hc|].
  split.
  { intros ->. unfold page_words in Hwords. cbn [map] in Hwords.
    rewrite (flicker_lineate_traced sampled zeros) in Hwords.
    rewrite <- Hwords in Hc. cbn in Hc. now symmetry in Hc. }
  split; [|now repeat split].
  apply Forall_map. unfold lines_within_budget in Hb.
  rewrite Forall_forall in *. intros l Hl.
  split; [now apply Hnonempty|].
  rewrite <- (Hq l Hl). apply Hb; [exact Hl|now apply Hnonempty].
Qed.

Lemma X24_flicker_page_witness :
  exists lines spacing g',
    SentenceBreakerTight.flicker_elements
      (lit "the quick brown fox jumps over the lazy dog") (1 # 2) counting
    = Some (SentenceBreakerTight.Page lines spacing, g')
    /\ (exists rest,
          Permutation (concat (page_words lines) ++ rest)
            (split (lit "the quick brown fox jumps over the lazy dog")))
    /\ lines <> []
    /\ Forall (fun ws => ws <> [] /\ budget_rule (9, 24)%Z ws) (page_words lines)
    /\ flicker_spans 0 lines
    /\ (3 # 10) <= spacing /\ spacing <= (5 # 10).
Proof.
  refine (X24_flicker_page (lit "the quick brown fox jumps over the lazy dog")
            (1 # 2) counting _ _ _).
  - vm_compute. discriminate.
  - unfold Qle; simpl; lia.
  - unfold Qle; simpl; lia.
Defined.
